(** * Pedalboard effects: chain model, parameter engine and preset store

    A shallow embedding of the Python sources

      - [src/models/audio_effect.py]   (module [AudioEffect])
      - [src/models/effects_chain.py]  (module [EffectsChain])
      - [src/models/preset.py]         (module [Preset])
      - [src/services/effects_manager.py] (module [EffectsManager])
      - [src/services/preset_manager.py]  (module [PresetManager])

    Python objects are mutable and shared, so effect and chain objects live
    in a store indexed by locations; a method is a function on the receiver
    and the store which returns the outcome (a value or the exception that
    was raised) together with the receiver and store as they are at that
    point: what was mutated before a [raise] stays mutated.

    Conventions of the embedding:
      - a Python [float] is a rational number ([Q]), NaN or an infinity;
        the sources only store and compare parameter values, they never
        compute with them.
      - a [str] is a [string], one [ascii] per character, so [String.length]
        is Python's [len].
      - a JSON document is identified with the value it denotes
        ([json.loads (json.dumps v) = v]); the textual forms of UUIDs and of
        timestamps, which travel inside JSON strings, are kept abstract
        behind the class [TextForms].
      - [uuid4 ()] draws from a counter, i.e. it never returns the same
        identifier twice.
      - the fields of a chain and of a preset, and the dictionaries that the
        preset manager receives, are typed as the sources annotate them (a
        name is a [str], a configuration a [dict], ...); a property of a
        function that reads such a dictionary says so in a hypothesis. *)

From Stdlib Require Import ZArith QArith String Ascii List Bool Lia.
From Stdlib Require Import DecimalString HexadecimalString DecimalN HexadecimalN.
From Stdlib Require DecimalFacts HexadecimalFacts.
From stdpp Require Import base option gmap strings list.

Open Scope string_scope.

Set Warnings "-register-all".

(** ** Python values *)

(** The values that occur in configuration dictionaries and JSON documents.
    A [dict] keeps its insertion order, which is the order in which
    [items ()] enumerates it. *)
Inductive value : Type :=
| VNone
| VBool (b : bool)
| VInt (z : Z)
| VFloat (q : Q)
| VNaN                                    (* float ('nan') *)
| VInf (negative : bool)                  (* float ('inf'), float ('-inf') *)
| VStr (s : string)
| VList (l : list value)
| VDict (d : list (string * value)).

Abbreviation dict := (list (string * value)).

(** [d.get(k)] as an option, [k in d], and [d[k] = v] (an existing key keeps
    its place, a new key goes last). *)
Fixpoint dict_get {A} (k : string) (d : list (string * A)) : option A :=
  match d with
  | [] => None
  | (k', v) :: rest => if String.eqb k k' then Some v else dict_get k rest
  end.

Definition dict_has {A} (k : string) (d : list (string * A)) : bool :=
  match dict_get k d with Some _ => true | None => false end.

Fixpoint dict_set {A} (k : string) (v : A) (d : list (string * A))
  : list (string * A) :=
  match d with
  | [] => [(k, v)]
  | (k', v') :: rest =>
      if String.eqb k k' then (k', v) :: rest else (k', v') :: dict_set k v rest
  end.

Definition dict_keys {A} (d : list (string * A)) : list string := d.*1.

(** [d.get(k, default)] *)
Definition dict_get_default (k : string) (default : value) (d : dict) : value :=
  match dict_get k d with Some v => v | None => default end.

(** The finite number a value stands for in comparisons: [bool] is a
    subclass of [int], and [int] and [float] compare by their mathematical
    value. *)
Definition py_num (v : value) : option Q :=
  match v with
  | VBool b => Some (if b then 1%Q else 0%Q)
  | VInt z => Some (inject_Z z)
  | VFloat q => Some q
  | _ => None
  end.

Definition Qltb (x y : Q) : bool := negb (Qle_bool y x).

(** [isinstance (v, (int, float))] *)
Definition is_number (v : value) : bool :=
  match v with
  | VBool _ | VInt _ | VFloat _ | VNaN | VInf _ => true
  | _ => false
  end.

(** [v < q] and [v > q] for a number [v] and a finite [q].  Both are
    [False] when [v] is NaN. *)
Definition num_lt (v : value) (q : Q) : bool :=
  match v with
  | VInf negative => negative
  | _ => match py_num v with Some x => Qltb x q | None => false end
  end.

Definition num_gt (v : value) (q : Q) : bool :=
  match v with
  | VInf negative => negb negative
  | _ => match py_num v with Some x => Qltb q x | None => false end
  end.

(** Truth value of an object, as tested by [if v], [not v] and [bool (v)]. *)
Definition truthy (v : value) : bool :=
  match v with
  | VNone => false
  | VBool b => b
  | VInt z => negb (z =? 0)%Z
  | VFloat q => negb (Qeq_bool q 0)
  | VNaN => true
  | VInf _ => true
  | VStr s => negb (String.eqb s "")
  | VList l => match l with [] => false | _ => true end
  | VDict d => match d with [] => false | _ => true end
  end.

(** Python's [==] on values: numbers by value across [bool], [int] and
    [float], NaN being equal to nothing; lists pointwise; dictionaries as
    finite maps, whatever the insertion order.  (Two containers that hold
    the very same NaN object compare equal in Python; values do not tell
    objects apart, so here they do not.) *)
Fixpoint py_eq (a b : value) : bool :=
  match a, b with
  | VNone, VNone => true
  | VInf s, VInf t => Bool.eqb s t
  | VStr s, VStr t => String.eqb s t
  | VList l, VList m =>
      (fix pointwise (l m : list value) : bool :=
         match l, m with
         | [], [] => true
         | x :: l', y :: m' => py_eq x y && pointwise l' m'
         | _, _ => false
         end) l m
  | VDict d, VDict e =>
      Nat.eqb (length d) (length e) &&
      (fix entries (d : list (string * value)) : bool :=
         match d with
         | [] => true
         | (k, v) :: d' =>
             match dict_get k e with
             | Some w => py_eq v w
             | None => false
             end && entries d'
         end) d
  | _, _ =>
      match py_num a, py_num b with
      | Some x, Some y => Qeq_bool x y
      | _, _ => false
      end
  end.

(** [x in [True, False, 0, 1]] *)
Definition in_bool_literals (v : value) : bool :=
  py_eq v (VBool true) || py_eq v (VBool false) ||
  py_eq v (VInt 0) || py_eq v (VInt 1).

(** [for x in v]: the elements a value yields when iterated, [None] when it
    is not iterable.  A string yields its characters, a dictionary its keys. *)
Definition py_iter (v : value) : option (list value) :=
  match v with
  | VList l => Some l
  | VDict d => Some (map (fun kv => VStr (fst kv)) d)
  | VStr s => Some (map (fun c => VStr (String c EmptyString)) (list_ascii_of_string s))
  | _ => None
  end.

(** No NaN anywhere in a value. *)
Fixpoint no_nan (v : value) : bool :=
  match v with
  | VNaN => false
  | VList l => forallb no_nan l
  | VDict d => forallb (fun kv => no_nan (snd kv)) d
  | _ => true
  end.

(** ** Exceptions and outcomes *)

(** One constructor per [raise] site of the modelled sources, with the data
    the message is built from; the Python class is [ValueError] unless said
    otherwise.  [OrderMismatch] of the specification is [IdListLength] or
    [IdNotInChain]; its out-of-range error is [OutOfRange]. *)
Inductive exn : Type :=
| InvalidEffectType                       (* "Invalid effect type: ..." , failed Enum lookup *)
| UnknownParameter (param_name kind : string)  (* "Unknown parameter '..' for effect type .." *)
| NotBoolean (param_name : string)        (* ".. must be a boolean value" *)
| NotNumeric (param_name : string)        (* ".. must be a numeric value" *)
| OutOfRange (param_name : string) (min_val max_val : Q) (* ".. must be between .. and .." *)
| NegativePosition                        (* "Position must be non-negative" *)
| ChainNameLength                         (* "Chain name must be 1-50 characters" *)
| TooManyEffects                          (* "Maximum 8 effects per chain" *)
| DuplicateEffect                         (* "Cannot have duplicate effect instances" *)
| IdListLength                            (* "Effect ID list must contain all current effects" *)
| IdNotInChain                            (* "Effect ID .. not found in chain" *)
| PresetNameLength                        (* "Preset name must be 1-100 characters" *)
| DescriptionLength                       (* "Description maximum 500 characters" *)
| TagFormat                               (* "Tags must be alphanumeric with hyphens/underscores only" *)
| BadUUID                                 (* raised by UUID (...) *)
| BadTimestamp                            (* raised by datetime.fromisoformat *)
| KeyError (key : string)                 (* KeyError: d[key] on a missing key *)
| TypeError                               (* TypeError: operation on a value of the wrong type *)
| AttributeError                          (* AttributeError: method missing on the value *)
| IOError                                 (* IOError "Failed to save preset file: .." *)
| OSError                                 (* OSError: the directory refuses the removal of a file *)
| ChainNotFound                           (* "Effects chain not found" *)
| PresetNotFound                          (* "Preset not found" *)
| PresetNameExists                        (* "Preset name already exists" *)
| MissingName                             (* "Invalid preset data: missing name" *)
| MissingChainConfig                      (* "Invalid preset data: missing effects_chain_config" *)
| InvalidPresetData (cause : exn)         (* "Invalid preset data: {e}" *)
| FailedToSave (cause : exn)              (* RuntimeError "Failed to save preset: {e}" *)
| FailedToDelete (cause : exn)            (* RuntimeError "Failed to delete preset: {e}" *)
| FailedToLoad (cause : exn)              (* RuntimeError "Failed to load preset: {e}" *)
| Dangling.                               (* a location outside the store: no Python
                                             counterpart, unreachable from a well-formed state *)

Inductive outcome (A : Type) : Type :=
| Return (a : A)
| Raise (e : exn).
Arguments Return {A} a.
Arguments Raise {A} e.

Definition is_Return {A} (o : outcome A) : bool :=
  match o with Return _ => true | Raise _ => false end.

(** A computation over a mutable state [S]: the state that comes back is the
    one reached when the computation returned or raised. *)
Definition M (S A : Type) : Type := S -> outcome A * S.

Definition ret {S A} (a : A) : M S A := fun s => (Return a, s).
Definition raise {S A} (e : exn) : M S A := fun s => (Raise e, s).
Definition bind {S A B} (m : M S A) (k : A -> M S B) : M S B :=
  fun s => match m s with
           | (Return a, s') => k a s'
           | (Raise e, s') => (Raise e, s')
           end.
Definition get {S} : M S S := fun s => (Return s, s).
Definition put {S} (s : S) : M S unit := fun _ => (Return tt, s).
Definition modify {S} (f : S -> S) : M S unit := fun s => (Return tt, f s).

(** [try: m except Exception as e: raise wrap (e)] *)
Definition rethrow {S A} (wrap : exn -> exn) (m : M S A) : M S A :=
  fun s => match m s with
           | (Return a, s') => (Return a, s')
           | (Raise e, s') => (Raise (wrap e), s')
           end.

(** A pure step that may raise. *)
Definition lift {S A} (o : outcome A) : M S A := fun s => (o, s).

(** stdpp's monad notation: [x ← m; k] and [m ;; k]. *)
#[global] Instance M_ret {S} : MRet (M S) := fun A a => ret a.
#[global] Instance M_bind {S} : MBind (M S) := fun A B k m => bind m k.

(** ** Identifiers, timestamps and the store *)

Abbreviation UUID := N.
Abbreviation datetime := N.
Abbreviation loc := nat.

(** [str (uuid)] / [UUID (s)] and [dt.isoformat ()] /
    [datetime.fromisoformat (s)] belong to the Python library.  Only their
    documented round trip is used. *)
Class TextForms : Type := {
  uuid_str : UUID -> string;
  uuid_parse : string -> option UUID;
  uuid_parse_str : forall u, uuid_parse (uuid_str u) = Some u;
  isoformat : datetime -> string;
  fromisoformat : string -> option datetime;
  fromisoformat_isoformat : forall t, fromisoformat (isoformat t) = Some t
}.

(** A sample implementation of the text forms, used to run the model on
    concrete inputs: identifiers in hexadecimal, timestamps as a decimal
    count of microseconds. *)
#[global, refine] Instance sample_text_forms : TextForms := {|
  uuid_str u := HexadecimalString.NilZero.string_of_uint (N.to_hex_uint u);
  uuid_parse s := N.of_hex_uint <$> HexadecimalString.NilZero.uint_of_string s;
  isoformat t := DecimalString.NilZero.string_of_uint (N.to_uint t);
  fromisoformat s := N.of_uint <$> DecimalString.NilZero.uint_of_string s
|}.
Proof.
  - intros u. rewrite HexadecimalString.NilZero.usu.
    + simpl. f_equal. apply HexadecimalN.Unsigned.of_to.
    + rewrite <- (HexadecimalN.Unsigned.of_to u), HexadecimalN.Unsigned.to_of.
      apply HexadecimalFacts.unorm_nonnil.
  - intros t. rewrite DecimalString.NilZero.usu.
    + simpl. f_equal. apply DecimalN.Unsigned.of_to.
    + rewrite <- (DecimalN.Unsigned.of_to t), DecimalN.Unsigned.to_of.
      apply DecimalFacts.unorm_nonnil.
Defined.

(** What [uuid4 ()] and [datetime.now ()] read and advance. *)
Record runtime : Type := Runtime {
  next_uuid : N;
  clock : N
}.

Definition uuid4 : M runtime UUID :=
  fun r => (Return (next_uuid r), Runtime (N.succ (next_uuid r)) (clock r)).

Definition datetime_now : M runtime datetime :=
  fun r => (Return (clock r), Runtime (next_uuid r) (N.succ (clock r))).

(** Run a computation on a component of the state. *)
Definition zoom {S T A} (proj : S -> T) (inj : T -> S -> S) (m : M T A) : M S A :=
  fun s => let (o, t) := m (proj s) in (o, inj t s).

(** Unfolding the monad in a goal. *)
Ltac run_monad :=
  unfold mbind, M_bind, bind, mret, M_ret, ret, raise, lift, get, put, modify,
         rethrow, zoom in *.

(** [UUID (v)] for a value taken from a dictionary. *)
Definition UUID_of_value `{TextForms} (v : value) : outcome UUID :=
  match v with
  | VStr s => match uuid_parse s with Some u => Return u | None => Raise BadUUID end
  | VNone => Raise TypeError
  | _ => Raise AttributeError
  end.

(** [datetime.fromisoformat (v)] *)
Definition fromisoformat_value `{TextForms} (v : value) : outcome datetime :=
  match v with
  | VStr s => match fromisoformat s with Some t => Return t | None => Raise BadTimestamp end
  | _ => Raise TypeError
  end.

(** ** [models/audio_effect.py] *)

Inductive EffectType : Type := BOOST | DISTORTION | DELAY | REVERB.

Module AudioEffect.

(** [EffectType.value] *)
Definition EffectType_value (t : EffectType) : string :=
  match t with
  | BOOST => "BOOST"
  | DISTORTION => "DISTORTION"
  | DELAY => "DELAY"
  | REVERB => "REVERB"
  end.

(** [EffectType (v)]: lookup of a member by its value. *)
Definition EffectType_of (v : value) : outcome EffectType :=
  match v with
  | VStr s =>
      if String.eqb s "BOOST" then Return BOOST
      else if String.eqb s "DISTORTION" then Return DISTORTION
      else if String.eqb s "DELAY" then Return DELAY
      else if String.eqb s "REVERB" then Return REVERB
      else Raise InvalidEffectType
  | _ => Raise InvalidEffectType
  end.

Record param_def : Type := ParamDef {
  min : Q;
  max : Q;
  default : value;
  units : string;
  curve : string
}.

Definition PARAMETER_DEFINITIONS (t : EffectType) : list (string * param_def) :=
  match t with
  | BOOST =>
      [ ("gain_db", ParamDef (-20.0) 30.0 (VFloat 0.0) "dB" "linear");
        ("tone", ParamDef 0.0 1.0 (VFloat 0.5) "" "linear") ]
  | DISTORTION =>
      [ ("drive_db", ParamDef 0.0 30.0 (VFloat 10.0) "dB" "linear");
        ("tone", ParamDef 0.0 1.0 (VFloat 0.5) "" "linear");
        ("level", ParamDef 0.0 1.0 (VFloat 0.7) "" "linear") ]
  | DELAY =>
      [ ("delay_seconds", ParamDef 0.0 2.0 (VFloat 0.25) "s" "linear");
        ("feedback", ParamDef 0.0 0.95 (VFloat 0.3) "" "linear");
        ("mix", ParamDef 0.0 1.0 (VFloat 0.3) "" "linear");
        ("tempo_sync", ParamDef 0 1 (VBool false) "bool" "linear") ]
  | REVERB =>
      [ ("room_size", ParamDef 0.0 1.0 (VFloat 0.5) "" "linear");
        ("damping", ParamDef 0.0 1.0 (VFloat 0.5) "" "linear");
        ("wet_level", ParamDef 0.0 1.0 (VFloat 0.3) "" "linear");
        ("dry_level", ParamDef 0.0 1.0 (VFloat 0.7) "" "linear") ]
  end%Q.

Record t : Type := Make {
  id : UUID;
  type : EffectType;
  bypassed : value;
  position : value;
  preset_name : value;
  parameters : dict
}.

Definition set_parameters (ps : dict) (self : t) : t :=
  Make (id self) (type self) (bypassed self) (position self) (preset_name self) ps.
Definition set_id (u : UUID) (self : t) : t :=
  Make u (type self) (bypassed self) (position self) (preset_name self) (parameters self).

(** The body of the loop of [update_parameters] for one item: the value to
    store, or the exception raised for it. *)
Definition check_item (kind : string) (param_defs : list (string * param_def))
           (param_name : string) (param_value : value) : outcome value :=
  match dict_get param_name param_defs with
  | None => Raise (UnknownParameter param_name kind)
  | Some param_def =>
      let min_val := min param_def in
      let max_val := max param_def in
      if String.eqb (units param_def) "bool" then
        if negb (in_bool_literals param_value) then Raise (NotBoolean param_name)
        else Return (VBool (truthy param_value))
      else
        if negb (is_number param_value) then Raise (NotNumeric param_name)
        else if num_lt param_value min_val || num_gt param_value max_val
        then Raise (OutOfRange param_name min_val max_val)
        else Return param_value
  end.

(** The loop of [update_parameters]: the items are taken in order; each is
    checked and, when accepted, stored at once. *)
Fixpoint update_loop (kind : string) (param_defs : list (string * param_def))
         (items : dict) : M t unit :=
  match items with
  | [] => mret tt
  | (param_name, param_value) :: rest =>
      v ← lift (check_item kind param_defs param_name param_value);
      modify (fun self => set_parameters (dict_set param_name v (parameters self)) self);;
      update_loop kind param_defs rest
  end.

Definition update_parameters (new_parameters : dict) : M t unit :=
  self ← get;
  update_loop (EffectType_value (type self)) (PARAMETER_DEFINITIONS (type self))
              new_parameters.

(** The argument of [__init__] is a [str] or an [EffectType]. *)
Inductive kind_arg : Type :=
| Member (k : EffectType)
| Plain (v : value).

Definition resolve_kind (effect_type : kind_arg) : outcome EffectType :=
  match effect_type with
  | Member k => Return k
  | Plain (VStr s) => EffectType_of (VStr s)
  | Plain _ => Raise InvalidEffectType
  end.

(** [self.parameters] as filled by the loop over [param_defs.items ()]. *)
Definition defaults (ty : EffectType) : dict :=
  fold_left (fun ps nd => dict_set (fst nd) (default (snd nd)) ps)
            (PARAMETER_DEFINITIONS ty) [].

(** [AudioEffect (effect_type, parameters)].  [parameters] is whatever the
    caller passed, [VNone] when omitted. *)
Definition __init__ (effect_type : kind_arg) (parameters : value) : M runtime t :=
  ty ← lift (resolve_kind effect_type);
  u ← uuid4;
  let self := Make u ty (VBool false) (VInt 0) VNone (defaults ty) in
  if truthy parameters then
    match parameters with
    | VDict new_parameters =>
        fun r => let (o, self') := update_parameters new_parameters self in
                 (match o with Return _ => Return self' | Raise e => Raise e end, r)
    | _ => raise AttributeError
    end
  else mret self.

Definition set_bypassed (b : value) : M t unit :=
  modify (fun self =>
    Make (id self) (type self) b (position self) (preset_name self) (parameters self)).

Definition store_position (p : value) (self : t) : t :=
  Make (id self) (type self) (bypassed self) p (preset_name self) (parameters self).

(** [position < 0] is defined on numbers only. *)
Definition set_position (p : value) : M t unit :=
  if negb (is_number p) then raise TypeError
  else if num_lt p 0 then raise NegativePosition
  else modify (store_position p).

Definition set_preset_name (n : value) : M t unit :=
  modify (fun self =>
    Make (id self) (type self) (bypassed self) (position self) n (parameters self)).

Definition to_dict `{TextForms} (self : t) : dict :=
  [ ("id", VStr (uuid_str (id self)));
    ("type", VStr (EffectType_value (type self)));
    ("parameters", VDict (parameters self));
    ("bypassed", bypassed self);
    ("position", position self);
    ("preset_name", preset_name self) ].

Definition from_dict `{TextForms} (data : dict) : M runtime t :=
  ty_v ← lift (match dict_get "type" data with
               | Some v => Return v | None => Raise (KeyError "type") end);
  effect_type ← lift (EffectType_of ty_v);
  effect ← __init__ (Member effect_type) (dict_get_default "parameters" (VDict []) data);
  effect ← match dict_get "id" data with
           | Some v => u ← lift (UUID_of_value v); mret (set_id u effect)
           | None => mret effect
           end;
  mret (Make (id effect) (type effect)
             (dict_get_default "bypassed" (VBool false) data)
             (dict_get_default "position" (VInt 0) data)
             (dict_get_default "preset_name" VNone data)
             (parameters effect)).

Definition copy `{TextForms} (self : t) : M runtime t :=
  new_effect ← from_dict (to_dict self);
  u ← uuid4;
  mret (set_id u new_effect).

(** [__eq__]: effects compare by [id]. *)
Definition eq (a b : t) : bool := N.eqb (id a) (id b).

End AudioEffect.

(** ** The store of effect objects *)

Record heap : Type := Heap {
  rt : runtime;
  effect_objs : gmap loc AudioEffect.t;
  next_loc : loc
}.

Definition with_runtime {A} (m : M runtime A) : M heap A :=
  zoom rt (fun r h => Heap r (effect_objs h) (next_loc h)) m.

(** A freshly constructed object gets a location of its own. *)
Definition alloc (e : AudioEffect.t) : M heap loc :=
  fun h => (Return (next_loc h),
            Heap (rt h) (<[next_loc h := e]> (effect_objs h)) (S (next_loc h))).

Definition deref (l : loc) : M heap AudioEffect.t :=
  fun h => match effect_objs h !! l with
           | Some e => (Return e, h)
           | None => (Raise Dangling, h)
           end.

(** A method call [effect.m (...)] on the object at [l]. *)
Definition on_effect {A} (l : loc) (m : M AudioEffect.t A) : M heap A :=
  fun h => match effect_objs h !! l with
           | Some e => let (o, e') := m e in
                       (o, Heap (rt h) (<[l := e']> (effect_objs h)) (next_loc h))
           | None => (Raise Dangling, h)
           end.

(** ** [models/effects_chain.py] *)

Module EffectsChain.

Definition MAX_EFFECTS : nat := 8.

Record t : Type := Make {
  id : UUID;
  name : string;
  effects : list loc;
  active : value;
  created_at : datetime;
  modified_at : datetime
}.

Definition set_effects (l : list loc) (self : t) : t :=
  Make (id self) (name self) l (active self) (created_at self) (modified_at self).
Definition set_name (n : string) (self : t) : t :=
  Make (id self) n (effects self) (active self) (created_at self) (modified_at self).
Definition set_active (a : value) (self : t) : t :=
  Make (id self) (name self) (effects self) a (created_at self) (modified_at self).
Definition set_modified_at (d : datetime) (self : t) : t :=
  Make (id self) (name self) (effects self) (active self) (created_at self) d.
Definition set_id (u : UUID) (self : t) : t :=
  Make u (name self) (effects self) (active self) (created_at self) (modified_at self).
Definition set_created_at (d : datetime) (self : t) : t :=
  Make (id self) (name self) (effects self) (active self) d (modified_at self).

(** A method runs on the receiver and the store of effects. *)
Abbreviation state := (t * heap)%type.

Definition self_ : M state t := fun s => (Return (fst s), s).
Definition update_self (f : t -> t) : M state unit := modify (fun s => (f (fst s), snd s)).
Definition in_heap {A} (m : M heap A) : M state A :=
  zoom snd (fun h s => (fst s, h)) m.

(** Methods run on a chain held in a local variable; the chain is what
    the caller gets when they all return. *)
Definition building (chain : t) (m : M state unit) : M heap t :=
  fun h => let '(o, (chain', h')) := m (chain, h) in
           (match o with Return _ => Return chain' | Raise e => Raise e end, h').

Definition __init__ (name : string) : M runtime t :=
  if negb (truthy (VStr name)) || (String.length name <? 1)%nat
     || (50 <? String.length name)%nat
  then raise ChainNameLength
  else
    u ← uuid4;
    c ← datetime_now;
    m ← datetime_now;
    mret (Make u name [] (VBool false) c m).

Definition _update_modified_time : M state unit :=
  d ← in_heap (with_runtime datetime_now);
  update_self (set_modified_at d).

(** [for i, effect in enumerate (self.effects): effect.set_position (i)] *)
Fixpoint set_positions_from (i : nat) (l : list loc) : M heap unit :=
  match l with
  | [] => mret tt
  | effect :: rest =>
      on_effect effect (AudioEffect.set_position (VInt (Z.of_nat i)));;
      set_positions_from (S i) rest
  end.

Definition _update_positions : M state unit :=
  self ← self_;
  in_heap (set_positions_from 0 (effects self)).

(** [effect in self.effects]: some element is the same object or compares
    equal to it. *)
Fixpoint contains (effect : loc) (l : list loc) : M heap bool :=
  match l with
  | [] => mret false
  | x :: rest =>
      if Nat.eqb x effect then mret true
      else
        a ← deref x;
        b ← deref effect;
        if AudioEffect.eq a b then mret true else contains effect rest
  end.

Definition add_effect (effect : loc) : M state unit :=
  self ← self_;
  if (MAX_EFFECTS <=? length (effects self))%nat then raise TooManyEffects
  else
    dup ← in_heap (contains effect (effects self));
    if (dup : bool) then raise DuplicateEffect
    else
      in_heap (on_effect effect
                 (AudioEffect.set_position (VInt (Z.of_nat (length (effects self))))));;
      update_self (fun self => set_effects (effects self ++ [effect]) self);;
      _update_modified_time.

(** Index of the first effect of [l] whose id is [effect_id]. *)
Fixpoint index_of_id (effect_id : UUID) (l : list loc) (i : nat) : M heap (option nat) :=
  match l with
  | [] => mret None
  | x :: rest =>
      e ← deref x;
      if N.eqb (AudioEffect.id e) effect_id then mret (Some i)
      else index_of_id effect_id rest (S i)
  end.

Definition remove_effect (effect_id : UUID) : M state bool :=
  self ← self_;
  found ← in_heap (index_of_id effect_id (effects self) 0);
  match found with
  | Some i =>
      update_self (fun self => set_effects (delete i (effects self)) self);;
      _update_positions;;
      _update_modified_time;;
      mret true
  | None => mret false
  end.

(** The inner loop of [reorder_effects]: the first effect of the chain with
    the given id. *)
Fixpoint find_by_id (effect_id : UUID) (l : list loc) : M heap (option loc) :=
  match l with
  | [] => mret None
  | x :: rest =>
      e ← deref x;
      if N.eqb (AudioEffect.id e) effect_id then mret (Some x)
      else find_by_id effect_id rest
  end.

(** The outer loop of [reorder_effects], building [new_effects]. *)
Fixpoint collect (current : list loc) (effect_ids : list UUID) (new_effects : list loc)
  : M heap (list loc) :=
  match effect_ids with
  | [] => mret new_effects
  | effect_id :: rest =>
      found ← find_by_id effect_id current;
      match found with
      | Some effect => collect current rest (new_effects ++ [effect])
      | None => raise IdNotInChain
      end
  end.

Definition reorder_effects (effect_ids : list UUID) : M state unit :=
  self ← self_;
  if negb (Nat.eqb (length effect_ids) (length (effects self))) then raise IdListLength
  else
    new_effects ← in_heap (collect (effects self) effect_ids []);
    update_self (set_effects new_effects);;
    _update_positions;;
    _update_modified_time.

Definition get_effect_by_id (effect_id : UUID) : M state (option loc) :=
  self ← self_;
  in_heap (find_by_id effect_id (effects self)).

Definition activate : M state unit :=
  update_self (set_active (VBool true));; _update_modified_time.

Definition deactivate : M state unit :=
  update_self (set_active (VBool false));; _update_modified_time.

Definition clear_effects : M state unit :=
  update_self (set_effects []);; _update_modified_time.

(** The dictionaries of the effects at [l], in order. *)
Fixpoint effects_to_dict `{TextForms} (l : list loc) : M heap (list value) :=
  match l with
  | [] => mret []
  | x :: rest =>
      e ← deref x;
      ds ← effects_to_dict rest;
      mret (VDict (AudioEffect.to_dict e) :: ds)
  end.

Definition to_dict `{TextForms} : M state dict :=
  self ← self_;
  es ← in_heap (effects_to_dict (effects self));
  mret [ ("id", VStr (uuid_str (id self)));
         ("name", VStr (name self));
         ("effects", VList es);
         ("active", active self);
         ("created_at", VStr (isoformat (created_at self)));
         ("modified_at", VStr (isoformat (modified_at self))) ].

(** A chain name read from a dictionary.  Names are typed [str]: a value
    of another type that Python would let through ([len] is defined on it)
    is refused here. *)
Definition name_of_value (v : value) : outcome string :=
  match v with
  | VStr s => Return s
  | _ => if truthy v then Raise TypeError else Raise ChainNameLength
  end.

(** [AudioEffect.from_dict (effect_data)] on an element of the list. *)
Definition effect_from_value `{TextForms} (effect_data : value) : M heap loc :=
  match effect_data with
  | VDict d => e ← with_runtime (AudioEffect.from_dict d); alloc e
  | _ => raise TypeError
  end.

(** The loop of [from_dict]: [chain.effects.append (effect)], nothing else. *)
Fixpoint append_effects `{TextForms} (items : list value) : M state unit :=
  match items with
  | [] => mret tt
  | effect_data :: rest =>
      effect ← in_heap (effect_from_value effect_data);
      update_self (fun self => set_effects (effects self ++ [effect]) self);;
      append_effects rest
  end.

Definition from_dict `{TextForms} (data : dict) : M heap t :=
  name_v ← lift (match dict_get "name" data with
                 | Some v => Return v | None => Raise (KeyError "name") end);
  name ← lift (name_of_value name_v);
  chain ← with_runtime (__init__ name);
  chain ← match dict_get "id" data with
          | Some v => u ← lift (UUID_of_value v); mret (set_id u chain)
          | None => mret chain
          end;
  let chain := set_active (dict_get_default "active" (VBool false) data) chain in
  chain ← match dict_get "created_at" data with
          | Some v => d ← lift (fromisoformat_value v); mret (set_created_at d chain)
          | None => mret chain
          end;
  chain ← match dict_get "modified_at" data with
          | Some v => d ← lift (fromisoformat_value v); mret (set_modified_at d chain)
          | None => mret chain
          end;
  items ← lift (match py_iter (dict_get_default "effects" (VList []) data) with
                | Some l => Return l | None => Raise TypeError end);
  building chain (append_effects items).

(** The loop of [copy], run on the new chain. *)
Fixpoint copy_effects `{TextForms} (l : list loc) : M state unit :=
  match l with
  | [] => mret tt
  | effect :: rest =>
      e ← in_heap (deref effect);
      e' ← in_heap (with_runtime (AudioEffect.copy e));
      effect_copy ← in_heap (alloc e');
      add_effect effect_copy;;
      copy_effects rest
  end.

Definition copy `{TextForms} (self : t) (new_name : option string) : M heap t :=
  let copy_name :=
    match new_name with
    | Some n => if truthy (VStr n) then n else name self ++ " (Copy)"
    | None => name self ++ " (Copy)"
    end in
  new_chain ← with_runtime (__init__ copy_name);
  building new_chain (copy_effects (effects self)).

End EffectsChain.

(** ** Containers held by reference *)

(** A configuration dictionary is a graph of [dict] and [list] objects.
    Where a method only reads it, the graph is represented by the value it
    denotes ([dict]); where objects are copied and then mutated, the graph
    itself is needed: a slot holds an immutable scalar or a reference. *)
Inductive slot : Type :=
| SNone
| SBool (b : bool)
| SInt (z : Z)
| SFloat (q : Q)
| SNaN
| SInf (negative : bool)
| SStr (s : string)
| SRef (l : loc).

Inductive container : Type :=
| CList (items : list slot)
| CDict (entries : list (string * slot)).

Record objects : Type := Objects {
  obj_rt : runtime;
  containers : gmap loc container;
  next_obj : loc
}.

Module PyObj.

Definition new (c : container) : M objects loc :=
  fun o => (Return (next_obj o),
            Objects (obj_rt o) (<[next_obj o := c]> (containers o)) (S (next_obj o))).

Definition read (l : loc) : M objects container :=
  fun o => match containers o !! l with
           | Some c => (Return c, o)
           | None => (Raise Dangling, o)
           end.

Definition write (l : loc) (c : container) : M objects unit :=
  modify (fun o => Objects (obj_rt o) (<[l := c]> (containers o)) (next_obj o)).

(** [x.copy ()]: a new container with the same slots. *)
Definition copy (x : slot) : M objects slot :=
  match x with
  | SRef l => c ← read l; l' ← new c; mret (SRef l')
  | _ => raise AttributeError
  end.

(** [x[key]] *)
Definition getitem (x : slot) (key : string) : M objects slot :=
  match x with
  | SRef l =>
      c ← read l;
      match c with
      | CDict es => match dict_get key es with
                    | Some v => mret v
                    | None => raise (KeyError key)
                    end
      | CList _ => raise TypeError
      end
  | _ => raise TypeError
  end.

(** [x[i]] for a non-negative index. *)
Definition getindex (x : slot) (i : nat) : M objects slot :=
  match x with
  | SRef l =>
      c ← read l;
      match c with
      | CList items => match items !! i with
                       | Some v => mret v
                       | None => raise TypeError
                       end
      | CDict _ => raise TypeError
      end
  | _ => raise TypeError
  end.

(** [x[key] = v] *)
Definition setitem (x : slot) (key : string) (v : slot) : M objects unit :=
  match x with
  | SRef l =>
      c ← read l;
      match c with
      | CDict es => write l (CDict (dict_set key v es))
      | CList _ => raise TypeError
      end
  | _ => raise TypeError
  end.

(** [x.append (v)] *)
Definition append (x : slot) (v : slot) : M objects unit :=
  match x with
  | SRef l =>
      c ← read l;
      match c with
      | CList items => write l (CList (items ++ [v]))
      | CDict _ => raise AttributeError
      end
  | _ => raise AttributeError
  end.

(** Building the object graph of a literal: every list and dictionary
    display creates a new object. *)
Fixpoint build (v : value) : M objects slot :=
  match v with
  | VNone => mret SNone
  | VBool b => mret (SBool b)
  | VInt z => mret (SInt z)
  | VFloat q => mret (SFloat q)
  | VNaN => mret SNaN
  | VInf negative => mret (SInf negative)
  | VStr s => mret (SStr s)
  | VList l =>
      items ← (fix each (l : list value) : M objects (list slot) :=
                 match l with
                 | [] => mret []
                 | x :: l' => s ← build x; ss ← each l'; mret (s :: ss)
                 end) l;
      r ← new (CList items); mret (SRef r)
  | VDict d =>
      es ← (fix each (d : list (string * value)) : M objects (list (string * slot)) :=
              match d with
              | [] => mret []
              | (k, x) :: d' => s ← build x; ss ← each d'; mret ((k, s) :: ss)
              end) d;
      r ← new (CDict es); mret (SRef r)
  end.

(** The value a slot denotes in a store, followed to the given depth. *)
Fixpoint denote (depth : nat) (cs : gmap loc container) (x : slot) : option value :=
  match x with
  | SNone => Some VNone
  | SBool b => Some (VBool b)
  | SInt z => Some (VInt z)
  | SFloat q => Some (VFloat q)
  | SNaN => Some VNaN
  | SInf negative => Some (VInf negative)
  | SStr s => Some (VStr s)
  | SRef l =>
      match depth with
      | O => None
      | S depth' =>
          match cs !! l with
          | None => None
          | Some (CList items) =>
              VList <$> mapM (denote depth' cs) items
          | Some (CDict es) =>
              VDict <$> mapM (fun kv => pair (fst kv) <$> denote depth' cs (snd kv)) es
          end
      end
  end.

End PyObj.

(** ** [models/preset.py] *)

Module Preset.

(** [C] is the representation of [effects_chain_config]: [dict] for the
    methods that read it, [slot] where the object graph matters. *)
Record t (C : Type) : Type := Make {
  id : UUID;
  name : string;
  description : option string;
  effects_chain_config : C;
  created_at : datetime;
  modified_at : datetime;
  tags : list string;
  author : option string;
  version : string
}.
Arguments Make {C}.
Arguments id {C}.
Arguments name {C}.
Arguments description {C}.
Arguments effects_chain_config {C}.
Arguments created_at {C}.
Arguments modified_at {C}.
Arguments tags {C}.
Arguments author {C}.
Arguments version {C}.

(** [re.match (r'^[a-zA-Z0-9_-]+$', tag)]: a non-empty run of the listed
    characters; [$] also matches just before a newline that ends the
    string. *)
Definition tag_char (c : ascii) : bool :=
  let n := nat_of_ascii c in
  ((97 <=? n) && (n <=? 122) || (65 <=? n) && (n <=? 90) || (48 <=? n) && (n <=? 57)
   || (n =? 95) || (n =? 45))%nat.

Fixpoint tag_rest (s : string) : bool :=
  match s with
  | EmptyString => true
  | String c s' =>
      if tag_char c then tag_rest s'
      else (nat_of_ascii c =? 10)%nat && String.eqb s' ""
  end.

Definition tag_matches (tag : string) : bool :=
  match tag with
  | EmptyString => false
  | String c s' => tag_char c && tag_rest s'
  end.

Definition __init__ {C} (name : string) (effects_chain_config : C)
           (description : option string) (tags : option (list string))
           (author : option string) (version : string) : M runtime (t C) :=
  if negb (truthy (VStr name)) || (String.length name <? 1)%nat
     || (100 <? String.length name)%nat
  then raise PresetNameLength
  else if match description with
          | Some d => (500 <? String.length d)%nat
          | None => false
          end
  then raise DescriptionLength
  else if match tags with
          | Some l => negb (forallb tag_matches l)
          | None => false
          end
  then raise TagFormat
  else
    u ← uuid4;
    c ← datetime_now;
    m ← datetime_now;
    mret (Make u name description effects_chain_config c m
               (match tags with Some l => l | None => [] end) author version).

(** One turn of the loop of [from_effects_chain]. *)
Definition effect_config (e : AudioEffect.t) : dict :=
  let base := [ ("type", VStr (AudioEffect.EffectType_value (AudioEffect.type e)));
                ("parameters", VDict (AudioEffect.parameters e));
                ("bypassed", AudioEffect.bypassed e) ] in
  if truthy (AudioEffect.preset_name e)
  then dict_set "preset_name" (AudioEffect.preset_name e) base
  else base.

Fixpoint effects_config (l : list loc) : M heap (list value) :=
  match l with
  | [] => mret []
  | x :: rest =>
      e ← deref x;
      cs ← effects_config rest;
      mret (VDict (effect_config e) :: cs)
  end.

Definition from_effects_chain (effects_chain : EffectsChain.t) (name : string)
           (description : option string) (tags : option (list string))
           (author : option string) (version : string) : M heap (t dict) :=
  cs ← effects_config (EffectsChain.effects effects_chain);
  let chain_config := [ ("name", VStr (EffectsChain.name effects_chain));
                        ("effects", VList cs) ] in
  with_runtime (__init__ name chain_config description tags author version).

(** The loop of [to_effects_chain], run on the chain being built. *)
Fixpoint restore_effects (items : list value) : M EffectsChain.state unit :=
  match items with
  | [] => mret tt
  | VDict effect_config :: rest =>
      type_v ← lift (match dict_get "type" effect_config with
                     | Some v => Return v | None => Raise (KeyError "type") end);
      effect_type ← lift (AudioEffect.EffectType_of type_v);
      e ← EffectsChain.in_heap (with_runtime
             (AudioEffect.__init__ (AudioEffect.Member effect_type)
                (dict_get_default "parameters" (VDict []) effect_config)));
      effect ← EffectsChain.in_heap (alloc e);
      EffectsChain.in_heap (on_effect effect
        (AudioEffect.set_bypassed (dict_get_default "bypassed" (VBool false) effect_config)));;
      match dict_get "preset_name" effect_config with
      | Some n => EffectsChain.in_heap (on_effect effect (AudioEffect.set_preset_name n))
      | None => mret tt
      end;;
      EffectsChain.add_effect effect;;
      restore_effects rest
  | _ :: _ => raise TypeError
  end.

Definition to_effects_chain (self : t dict) : M heap EffectsChain.t :=
  chain ← with_runtime (EffectsChain.__init__ (name self));
  items ← lift (match py_iter (dict_get_default "effects" (VList [])
                                 (effects_chain_config self)) with
                | Some l => Return l | None => Raise TypeError end);
  EffectsChain.building chain (restore_effects items).

Definition opt_str (o : option string) : value :=
  match o with Some s => VStr s | None => VNone end.

Definition to_dict `{TextForms} (self : t dict) : dict :=
  [ ("id", VStr (uuid_str (id self)));
    ("name", VStr (name self));
    ("description", opt_str (description self));
    ("effects_chain_config", VDict (effects_chain_config self));
    ("created_at", VStr (isoformat (created_at self)));
    ("modified_at", VStr (isoformat (modified_at self)));
    ("tags", VList (map VStr (tags self)));
    ("author", opt_str (author self));
    ("version", VStr (version self)) ].

(** Reading the fields of a record.  The fields are typed as the
    constructor annotates them; a field of another type raises
    [TypeError] here. *)
Definition str_of (v : value) : outcome string :=
  match v with VStr s => Return s | _ => Raise TypeError end.

Definition name_of (v : value) : outcome string :=
  match v with
  | VStr s => Return s
  | _ => if truthy v then Raise TypeError else Raise PresetNameLength
  end.

Definition opt_str_of (v : value) : outcome (option string) :=
  match v with
  | VNone => Return None
  | VStr s => Return (Some s)
  | _ => Raise TypeError
  end.

Fixpoint strs_of (l : list value) : outcome (list string) :=
  match l with
  | [] => Return []
  | VStr s :: rest =>
      match strs_of rest with
      | Return ss => Return (s :: ss)
      | Raise e => Raise e
      end
  | _ :: _ => Raise TypeError
  end.

Definition tags_of (v : value) : outcome (option (list string)) :=
  match v with
  | VNone => Return None
  | VList l => match strs_of l with
               | Return ss => Return (Some ss)
               | Raise e => Raise e
               end
  | _ => Raise TypeError
  end.

Definition dict_of (v : value) : outcome dict :=
  match v with VDict d => Return d | _ => Raise TypeError end.

Definition item (key : string) (data : dict) : outcome value :=
  match dict_get key data with
  | Some v => Return v
  | None => Raise (KeyError key)
  end.

Definition set_id {C} (u : UUID) (p : t C) : t C :=
  Make u (name p) (description p) (effects_chain_config p) (created_at p)
       (modified_at p) (tags p) (author p) (version p).
Definition set_created_at {C} (d : datetime) (p : t C) : t C :=
  Make (id p) (name p) (description p) (effects_chain_config p) d
       (modified_at p) (tags p) (author p) (version p).
Definition set_modified_at {C} (d : datetime) (p : t C) : t C :=
  Make (id p) (name p) (description p) (effects_chain_config p) (created_at p)
       d (tags p) (author p) (version p).
Definition set_name {C} (n : string) (p : t C) : t C :=
  Make (id p) n (description p) (effects_chain_config p) (created_at p)
       (modified_at p) (tags p) (author p) (version p).
Definition set_description {C} (d : option string) (p : t C) : t C :=
  Make (id p) (name p) d (effects_chain_config p) (created_at p)
       (modified_at p) (tags p) (author p) (version p).
Definition set_tags {C} (l : list string) (p : t C) : t C :=
  Make (id p) (name p) (description p) (effects_chain_config p) (created_at p)
       (modified_at p) l (author p) (version p).
Definition set_config {C} (c : C) (p : t C) : t C :=
  Make (id p) (name p) (description p) c (created_at p)
       (modified_at p) (tags p) (author p) (version p).

(** A dictionary whose entries, where present, have the types that the
    constructor annotates: on these the readers above agree with Python. *)
Definition well_typed (data : dict) : Prop :=
  (∀ v, dict_get "name" data = Some v → ∃ s, v = VStr s) ∧
  (∀ v, dict_get "effects_chain_config" data = Some v → ∃ d, v = VDict d) ∧
  (∀ v, dict_get "description" data = Some v → v = VNone ∨ ∃ s, v = VStr s) ∧
  (∀ v, dict_get "tags" data = Some v → v = VNone ∨ ∃ l, v = VList (map VStr l)) ∧
  (∀ v, dict_get "author" data = Some v → v = VNone ∨ ∃ s, v = VStr s) ∧
  (∀ v, dict_get "version" data = Some v → ∃ s, v = VStr s).

Definition from_dict `{TextForms} (data : dict) : M runtime (t dict) :=
  name_v ← lift (item "name" data);
  config_v ← lift (item "effects_chain_config" data);
  name ← lift (name_of name_v);
  config ← lift (dict_of config_v);
  description ← lift (opt_str_of (dict_get_default "description" VNone data));
  tags ← lift (tags_of (dict_get_default "tags" (VList []) data));
  author ← lift (opt_str_of (dict_get_default "author" VNone data));
  version ← lift (str_of (dict_get_default "version" (VStr "1.0.0") data));
  preset ← __init__ name config description tags author version;
  preset ← match dict_get "id" data with
           | Some v => u ← lift (UUID_of_value v); mret (set_id u preset)
           | None => mret preset
           end;
  preset ← match dict_get "created_at" data with
           | Some v => d ← lift (fromisoformat_value v); mret (set_created_at d preset)
           | None => mret preset
           end;
  match dict_get "modified_at" data with
  | Some v => d ← lift (fromisoformat_value v); mret (set_modified_at d preset)
  | None => mret preset
  end.

(** [json.dumps (self.to_dict (), indent=2)]: the document. *)
Definition to_json `{TextForms} (self : t dict) : value := VDict (to_dict self).

(** [from_json]: every exception of [from_dict] is caught and raised again
    as "Invalid preset data: ..". *)
Definition from_json `{TextForms} (json_str : value) : M runtime (t dict) :=
  rethrow InvalidPresetData
    (data ← lift (dict_of json_str); from_dict data).

(** [update]: the fields are taken in turn; one that is refused raises
    after the earlier ones were assigned. *)
Definition update {C} (name : option string) (description : option string)
           (tags : option (list string)) (effects_chain_config : option C)
  : M (t C * runtime) unit :=
  match name with
  | Some n =>
      if (String.length n <? 1)%nat || (100 <? String.length n)%nat
      then raise PresetNameLength
      else modify (fun s => (set_name n (fst s), snd s))
  | None => mret tt
  end;;
  match description with
  | Some d =>
      if (500 <? String.length d)%nat then raise DescriptionLength
      else modify (fun s => (set_description (Some d) (fst s), snd s))
  | None => mret tt
  end;;
  match tags with
  | Some l =>
      if negb (forallb tag_matches l) then raise TagFormat
      else modify (fun s => (set_tags l (fst s), snd s))
  | None => mret tt
  end;;
  match effects_chain_config with
  | Some c => modify (fun s => (set_config c (fst s), snd s))
  | None => mret tt
  end;;
  d ← zoom snd (fun r s => (fst s, r)) datetime_now;
  modify (fun s => (set_modified_at d (fst s), snd s)).

Definition get_effect_count (self : t dict) : outcome nat :=
  match dict_get_default "effects" (VList []) (effects_chain_config self) with
  | VList l => Return (length l)
  | VDict d => Return (length d)
  | VStr s => Return (String.length s)
  | _ => Raise TypeError
  end.

Definition has_tag {C} (self : t C) (tag : string) : bool :=
  existsb (String.eqb tag) (tags self).

(** [copy]: the configuration is passed through [dict.copy ()]. *)
Definition copy (self : t slot) (new_name : option string) : M objects (t slot) :=
  let copy_name :=
    match new_name with
    | Some n => if truthy (VStr n) then n else name self ++ " (Copy)"
    | None => name self ++ " (Copy)"
    end in
  config ← PyObj.copy (effects_chain_config self);
  zoom obj_rt (fun r o => Objects r (containers o) (next_obj o))
    (__init__ copy_name config (description self)
              (match tags self with [] => None | l => Some l end)
              (author self) (version self)).

Definition eq {C} (a b : t C) : bool := N.eqb (id a) (id b).

End Preset.

(** ** [services/effects_manager.py] *)

Module EffectsManager.

(** The manager and the objects it reaches: chain objects are shared
    between [_chains] and [_current_chain]. *)
Record t : Type := Make {
  _current_chain : option loc;
  _chains : gmap UUID loc;
  chain_objs : gmap loc EffectsChain.t;
  next_chain : loc;
  effects_heap : heap
}.

(** The entries of [update_config] that [update_chain] looks at; [None]
    is an absent key. *)
Record update_config : Type := UpdateConfig {
  upd_name : option string;
  upd_active : option value
}.

Definition new_chain (c : EffectsChain.t) : M t loc :=
  fun m => (Return (next_chain m),
            Make (_current_chain m) (_chains m)
                 (<[next_chain m := c]> (chain_objs m)) (S (next_chain m))
                 (effects_heap m)).

Definition in_runtime {A} (k : M runtime A) : M t A :=
  zoom effects_heap
       (fun h m => Make (_current_chain m) (_chains m) (chain_objs m) (next_chain m) h)
       (with_runtime k).

(** A method call on the chain object at [l]. *)
Definition on_chain {A} (l : loc) (k : M EffectsChain.state A) : M t A :=
  fun m => match chain_objs m !! l with
           | Some c =>
               let '(o, (c', h')) := k (c, effects_heap m) in
               (o, Make (_current_chain m) (_chains m) (<[l := c']> (chain_objs m))
                        (next_chain m) h')
           | None => (Raise Dangling, m)
           end.

Definition register (u : UUID) (l : loc) (current : bool) : M t unit :=
  modify (fun m => Make (if current then Some l else _current_chain m)
                        (<[u := l]> (_chains m)) (chain_objs m) (next_chain m)
                        (effects_heap m)).

(** [EffectsManager ()] on an empty store. *)
Definition __init__ (r : runtime) : outcome unit * t :=
  (c ← in_runtime (EffectsChain.__init__ "Default Chain");
   l ← new_chain c;
   register (EffectsChain.id c) l true)
    (Make None ∅ ∅ O (Heap r ∅ O)).

Definition update_chain (chain_id : UUID) (cfg : update_config) : M t loc :=
  m ← get;
  match _chains m !! chain_id with
  | None => raise ChainNotFound
  | Some chain =>
      match upd_name cfg with
      | Some n => on_chain chain (EffectsChain.update_self (EffectsChain.set_name n))
      | None => mret tt
      end;;
      match upd_active cfg with
      | Some a => if truthy a then on_chain chain EffectsChain.activate
                  else on_chain chain EffectsChain.deactivate
      | None => mret tt
      end;;
      mret chain
  end.

Definition get_chain_by_id (chain_id : UUID) : M t (option loc) :=
  m ← get; mret (_chains m !! chain_id).

(** What leaves [create_chain] and [add_effect_to_chain] when they do not
    return: a [ValueError] of the manager's own, or, for the one exception
    raised outside a [try], that exception. *)
Inductive error : Type :=
| Uncaught (e : exn)                        (* raised outside the [try] blocks *)
| MissingChainName                          (* "Invalid effects chain configuration: missing name" *)
| InvalidChainConfiguration (cause : exn)   (* "Invalid effects chain configuration: {e}" *)
| MissingEffectType                         (* "Invalid effect configuration: missing type" *)
| InvalidEffectConfiguration (cause : exn). (* "Invalid effect configuration: {e}" *)

(** [_create_effect_from_config]: the new effect object.  Its argument is
    an element of the list under ["effects"], whatever it is. *)
Definition _create_effect_from_config (effect_config : value) : M heap loc :=
  match effect_config with
  | VDict cfg =>
      type_v ← lift (match dict_get "type" cfg with
                     | Some v => Return v | None => Raise (KeyError "type") end);
      effect_type ← lift (AudioEffect.EffectType_of type_v);
      e ← with_runtime (AudioEffect.__init__ (AudioEffect.Member effect_type)
                          (dict_get_default "parameters" (VDict []) cfg));
      effect ← alloc e;
      match dict_get "position" cfg with
      | Some p => on_effect effect (AudioEffect.set_position p)
      | None => mret tt
      end;;
      match dict_get "bypassed" cfg with
      | Some b => on_effect effect (AudioEffect.set_bypassed b)
      | None => mret tt
      end;;
      match dict_get "preset_name" cfg with
      | Some n => on_effect effect (AudioEffect.set_preset_name n)
      | None => mret tt
      end;;
      mret effect
  | _ => raise TypeError
  end.

Definition _create_and_add_effect (effect_config : value) : M EffectsChain.state loc :=
  effect ← EffectsChain.in_heap (_create_effect_from_config effect_config);
  EffectsChain.add_effect effect;;
  mret effect.

(** The loop of [create_chain], run on the chain being built. *)
Fixpoint create_effects (items : list value) : M EffectsChain.state unit :=
  match items with
  | [] => mret tt
  | effect_config :: rest =>
      _create_and_add_effect effect_config;;
      create_effects rest
  end.

(** The [try] block of [create_chain] up to the registration: the chain is
    a local object until then. *)
Definition create_chain_try (name_v : value) (chain_config : dict) : M heap EffectsChain.t :=
  name ← lift (EffectsChain.name_of_value name_v);
  chain ← with_runtime (EffectsChain.__init__ name);
  items ← lift (match py_iter (dict_get_default "effects" (VList []) chain_config) with
                | Some l => Return l | None => Raise TypeError end);
  EffectsChain.building chain (create_effects items).

Definition create_chain (chain_config : dict) (m : t) : (error + loc) * t :=
  match dict_get "name" chain_config with
  | None => (inl MissingChainName, m)
  | Some name_v =>
      match create_chain_try name_v chain_config (effects_heap m) with
      | (Return chain, h) =>
          (inr (next_chain m),
           Make (Some (next_chain m)) (<[EffectsChain.id chain := next_chain m]> (_chains m))
                (<[next_chain m := chain]> (chain_objs m)) (S (next_chain m)) h)
      | (Raise e, h) =>
          (inl (InvalidChainConfiguration e),
           Make (_current_chain m) (_chains m) (chain_objs m) (next_chain m) h)
      end
  end.

Definition add_effect_to_chain (chain_id : UUID) (effect_config : dict) (m : t)
  : (error + loc) * t :=
  match _chains m !! chain_id with
  | None => (inl (Uncaught ChainNotFound), m)
  | Some chain =>
      match dict_get "type" effect_config with
      | None => (inl MissingEffectType, m)
      | Some _ =>
          match on_chain chain (_create_and_add_effect (VDict effect_config)) m with
          | (Return effect, m') => (inr effect, m')
          | (Raise e, m') => (inl (InvalidEffectConfiguration e), m')
          end
      end
  end.

End EffectsManager.

(** ** [services/preset_manager.py] *)

Module PresetManager.

(** The in-memory maps and the presets directory.  A preset object is
    reached through [_presets] only, so the map holds the object itself;
    [files] maps the stem of each [<id>.json] to the document written in
    it, and [writable] tells whether the directory accepts changes: whether
    opening a file for writing and removing a file succeed. *)
Record t : Type := Make {
  _presets : gmap UUID (Preset.t dict);
  _preset_names : gmap string UUID;
  files : gmap UUID value;
  writable : bool;
  runtime_ : runtime
}.

(** The entries of [preset_config] that [save_preset] looks at, each of
    the type annotated for it; [None] is an absent key.  The record of a
    dictionary is given by [read_preset_config] below. *)
Record preset_config : Type := PresetConfig {
  cfg_name : option string;
  cfg_effects_chain_config : option dict;
  cfg_description : option string;
  cfg_tags : option (list string);
  cfg_author : option string;
  cfg_version : option string
}.

Record update_config : Type := UpdateConfig {
  upd_name : option string;
  upd_description : option string;
  upd_tags : option (list string);
  upd_effects_chain_config : option dict
}.

(** Reading a dictionary as one of these records.  An entry tested with
    [in] or read with a default must have its type when it is present; an
    entry read with [get (key)] may also be [None], which is then the same as
    an absent key.  A dictionary with an entry of another type has no
    record. *)
Definition as_str (v : value) : option string :=
  match v with VStr s => Some s | _ => None end.

Definition as_dict (v : value) : option dict :=
  match v with VDict d => Some d | _ => None end.

Definition as_strs (v : value) : option (list string) :=
  match v with
  | VList l => match Preset.strs_of l with Return ss => Some ss | Raise _ => None end
  | _ => None
  end.

Definition entry {A} (as_ : value -> option A) (key : string) (d : dict)
  : option (option A) :=
  match dict_get key d with
  | None => Some None
  | Some v => match as_ v with Some a => Some (Some a) | None => None end
  end.

Definition entry_or_none {A} (as_ : value -> option A) (key : string) (d : dict)
  : option (option A) :=
  match dict_get key d with
  | None | Some VNone => Some None
  | Some v => match as_ v with Some a => Some (Some a) | None => None end
  end.

Definition read_preset_config (d : dict) : option preset_config :=
  match entry as_str "name" d, entry as_dict "effects_chain_config" d,
        entry_or_none as_str "description" d, entry_or_none as_strs "tags" d,
        entry_or_none as_str "author" d, entry as_str "version" d with
  | Some name, Some config, Some description, Some tags, Some author, Some version =>
      Some (PresetConfig name config description tags author version)
  | _, _, _, _, _, _ => None
  end.

Definition read_update_config (d : dict) : option update_config :=
  match entry as_str "name" d, entry_or_none as_str "description" d,
        entry_or_none as_strs "tags" d,
        entry_or_none as_dict "effects_chain_config" d with
  | Some name, Some description, Some tags, Some config =>
      Some (UpdateConfig name description tags config)
  | _, _, _, _ => None
  end.

Definition set_presets (ps : gmap UUID (Preset.t dict)) (m : t) : t :=
  Make ps (_preset_names m) (files m) (writable m) (runtime_ m).
Definition set_names (ns : gmap string UUID) (m : t) : t :=
  Make (_presets m) ns (files m) (writable m) (runtime_ m).
Definition set_files (fs : gmap UUID value) (m : t) : t :=
  Make (_presets m) (_preset_names m) fs (writable m) (runtime_ m).

Definition in_runtime {A} (k : M runtime A) : M t A :=
  zoom runtime_ (fun r m => Make (_presets m) (_preset_names m) (files m) (writable m) r) k.

Definition _preset_name_exists (name : string) : M t bool :=
  m ← get; mret (bool_decide (is_Some (_preset_names m !! name))).

(** [_save_to_file]: the file is opened for writing, then the document is
    made and written.  The document of a preset can always be made here, so
    the write follows the opening at once; when the opening fails nothing
    was written. *)
Definition _save_to_file `{TextForms} (preset : Preset.t dict) : M t unit :=
  m ← get;
  if writable m
  then put (set_files (<[Preset.id preset := Preset.to_json preset]> (files m)) m)
  else raise IOError.

Definition save_preset `{TextForms} (cfg : preset_config) : M t (Preset.t dict) :=
  match cfg_name cfg with
  | None => raise MissingName
  | Some name =>
      match cfg_effects_chain_config cfg with
      | None => raise MissingChainConfig
      | Some config =>
          dup ← _preset_name_exists name;
          if (dup : bool) then raise PresetNameExists
          else
            rethrow FailedToSave
              (preset ← in_runtime
                 (Preset.__init__ name config (cfg_description cfg) (cfg_tags cfg)
                    (cfg_author cfg)
                    (match cfg_version cfg with Some v => v | None => "1.0.0" end));
               _save_to_file preset;;
               modify (fun m => set_presets (<[Preset.id preset := preset]> (_presets m)) m);;
               modify (fun m => set_names
                                  (<[Preset.name preset := Preset.id preset]> (_preset_names m)) m);;
               mret preset)
      end
  end.

(** A method call on the preset object stored under [preset_id]. *)
Definition on_preset {A} (preset_id : UUID) (k : M (Preset.t dict * runtime) A) : M t A :=
  fun m => match _presets m !! preset_id with
           | Some p =>
               let '(o, (p', r')) := k (p, runtime_ m) in
               (o, Make (<[preset_id := p']> (_presets m)) (_preset_names m) (files m)
                        (writable m) r')
           | None => (Raise Dangling, m)
           end.

Definition update_preset `{TextForms} (preset_id : UUID) (cfg : update_config)
  : M t (Preset.t dict) :=
  m ← get;
  match _presets m !! preset_id with
  | None => raise PresetNotFound
  | Some preset =>
      match upd_name cfg with
      | Some new_name =>
          if negb (String.eqb new_name (Preset.name preset)) then
            match _preset_names m !! new_name with
            | Some existing_id =>
                if negb (N.eqb existing_id preset_id) then raise PresetNameExists
                else mret tt
            | None => mret tt
            end;;
            m ← get;
            match _preset_names m !! Preset.name preset with
            | Some _ => put (set_names (delete (Preset.name preset) (_preset_names m)) m)
            | None => raise (KeyError (Preset.name preset))
            end;;
            modify (fun m => set_names (<[new_name := preset_id]> (_preset_names m)) m)
          else mret tt
      | None => mret tt
      end;;
      rethrow InvalidPresetData
        (on_preset preset_id
           (Preset.update (upd_name cfg) (upd_description cfg) (upd_tags cfg)
                          (upd_effects_chain_config cfg));;
         m ← get;
         match _presets m !! preset_id with
         | Some preset => _save_to_file preset;; mret preset
         | None => raise Dangling
         end)
  end.

(** [delete_preset]: the file, if there is one, is removed first; when the
    directory refuses, the exception is raised again as "Failed to delete
    preset: ..", before the maps are touched. *)
Definition delete_preset (preset_id : UUID) : M t bool :=
  m ← get;
  match _presets m !! preset_id with
  | None => raise PresetNotFound
  | Some preset =>
      rethrow FailedToDelete
        (match files m !! preset_id with
         | Some _ =>
             if writable m
             then modify (fun m => set_files (delete preset_id (files m)) m)
             else raise OSError
         | None => mret tt
         end;;
         modify (fun m => set_presets (delete preset_id (_presets m)) m);;
         m ← get;
         match _preset_names m !! Preset.name preset with
         | Some _ => put (set_names (delete (Preset.name preset) (_preset_names m)) m)
         | None => raise (KeyError (Preset.name preset))
         end;;
         mret true)
  end.

(** The invariant of the store: the name index and the id map describe
    the same presets. *)
Definition consistent (m : t) : Prop :=
  (forall n i, _preset_names m !! n = Some i ->
               exists p, _presets m !! i = Some p /\ Preset.name p = n) /\
  (forall i p, _presets m !! i = Some p -> _preset_names m !! Preset.name p = Some i).

(** The [try] block of [_load_from_file]: the document is read as a
    preset, which is put in the two maps under its own id and name; any
    exception is caught and [None] returned. *)
Definition _load_from_file_try `{TextForms} (json_str : value)
  : M t (option (Preset.t dict)) :=
  fun m => match in_runtime (Preset.from_json json_str) m with
           | (Return preset, m') =>
               (Return (Some preset),
                set_names (<[Preset.name preset := Preset.id preset]> (_preset_names m'))
                  (set_presets (<[Preset.id preset := preset]> (_presets m')) m'))
           | (Raise _, m') => (Return None, m')
           end.

(** [_load_from_file]: [None] when there is no file [<preset_id>.json]. *)
Definition _load_from_file `{TextForms} (preset_id : UUID) : M t (option (Preset.t dict)) :=
  m ← get;
  match files m !! preset_id with
  | None => mret None
  | Some json_str => _load_from_file_try json_str
  end.

Definition get_preset `{TextForms} (preset_id : UUID) : M t (Preset.t dict) :=
  m ← get;
  match _presets m !! preset_id with
  | None =>
      preset ← _load_from_file preset_id;
      match preset with
      | None => raise PresetNotFound
      | Some p => mret p
      end
  | Some p => mret p
  end.

(** [load_preset]: the chain is built in the store of effects that comes
    with the manager; identifiers and times are drawn from the manager's
    runtime. *)
Definition load_preset `{TextForms} (preset_id : UUID) : M (t * heap) EffectsChain.t :=
  preset ← zoom fst (fun m s => (m, snd s)) (get_preset preset_id);
  rethrow FailedToLoad
    (fun s =>
       let '(o, h') :=
         Preset.to_effects_chain preset
           (Heap (runtime_ (fst s)) (effect_objs (snd s)) (next_loc (snd s))) in
       (o, (Make (_presets (fst s)) (_preset_names (fst s)) (files (fst s))
                 (writable (fst s)) (rt h'), h'))).

End PresetManager.

(** * Vocabulary of the specification *)

Module Spec.
Import AudioEffect.

(** A value that fits a schema field: a number within [[min, max]], or,
    for a field whose unit is ["bool"], one of [True], [False], [0], [1]
    (by value). *)
Definition legal_value (def : param_def) (v : value) : Prop :=
  ∃ x, py_num v = Some x ∧
       if String.eqb (units def) "bool" then (x == 0 ∨ x == 1)%Q
       else (min def <= x ∧ x <= max def)%Q.

(** An override map for kind [K]: distinct keys, all of the schema, with
    legal values. *)
Definition respects_schema (K : EffectType) (O : dict) : Prop :=
  NoDup (dict_keys O) ∧
  Forall (λ kv, ∃ def, dict_get kv.1 (PARAMETER_DEFINITIONS K) = Some def ∧
                       legal_value def kv.2) O.

(** The stored form of an override: booleans become [True] or [False]. *)
Definition coerced (def : param_def) (v : value) : value :=
  if String.eqb (units def) "bool" then VBool (truthy v) else v.

Definition in_range (def : param_def) (v : value) : Prop :=
  ∃ x, py_num v = Some x ∧ (min def <= x ∧ x <= max def)%Q.

(** An item that [update_parameters] stores when it comes to it. *)
Definition accepted (ty : EffectType) (kv : string * value) : Prop :=
  is_Return (check_item (EffectType_value ty) (PARAMETER_DEFINITIONS ty) kv.1 kv.2) = true.

(** The invariant of a chain: positions equal indices, ids are distinct. *)
Definition positions_match (s : EffectsChain.state) : Prop :=
  ∀ i l, EffectsChain.effects s.1 !! i = Some l →
         AudioEffect.position <$> effect_objs s.2 !! l = Some (VInt (Z.of_nat i)).

Definition ids_distinct (s : EffectsChain.state) : Prop :=
  ∀ i j l l' e e',
    EffectsChain.effects s.1 !! i = Some l → EffectsChain.effects s.1 !! j = Some l' →
    effect_objs s.2 !! l = Some e → effect_objs s.2 !! l' = Some e' →
    AudioEffect.id e = AudioEffect.id e' → i = j.

(** The ids of the effects of a chain, in order. *)
Definition effect_ids (s : EffectsChain.state) : list (option UUID) :=
  (λ l, AudioEffect.id <$> effect_objs s.2 !! l) <$> EffectsChain.effects s.1.

(** A call of one of the three mutators; whether it returns or raises, the
    chain goes on from the state it leaves. *)
Inductive chain_op : Type :=
| Add (effect : loc)
| Remove (effect_id : UUID)
| Reorder (effect_ids : list UUID).

Definition apply_op (s : EffectsChain.state) (op : chain_op) : EffectsChain.state :=
  match op with
  | Add effect => (EffectsChain.add_effect effect s).2
  | Remove effect_id => (EffectsChain.remove_effect effect_id s).2
  | Reorder effect_ids => (EffectsChain.reorder_effects effect_ids s).2
  end.

Definition apply_ops (ops : list chain_op) (s : EffectsChain.state) : EffectsChain.state :=
  fold_left apply_op ops s.

(** What [to_effects_chain] is to rebuild from a descriptor: the effect's
    parameters are the schema's fields, each with the descriptor's value
    (coerced) or the default, all within range; they are equal to the
    descriptor's own parameters, in Python's sense, when the descriptor gives
    every field of the schema. *)
Definition descriptor_params (cfg : dict) : dict :=
  match dict_get "parameters" cfg with
  | Some (VDict overrides) => overrides
  | _ => []
  end.

Definition params_restored (K : EffectType) (O ps : dict) : Prop :=
  dict_keys ps = dict_keys (PARAMETER_DEFINITIONS K) ∧
  (∀ n def, dict_get n (PARAMETER_DEFINITIONS K) = Some def →
     dict_get n ps = Some (match dict_get n O with
                           | Some v => coerced def v
                           | None => default def
                           end)) ∧
  (∀ n def, dict_get n (PARAMETER_DEFINITIONS K) = Some def →
     ∃ v, dict_get n ps = Some v ∧ in_range def v) ∧
  ((∀ n, n ∈ dict_keys (PARAMETER_DEFINITIONS K) → n ∈ dict_keys O) →
   py_eq (VDict O) (VDict ps) = true).

(** The effect [e] matches the descriptor [d] in kind, parameters and
    bypassed flag. *)
Definition restores (e : AudioEffect.t) (d : value) : Prop :=
  ∃ cfg K, d = VDict cfg ∧
    dict_get "type" cfg = Some (VStr (EffectType_value K)) ∧
    type e = K ∧
    bypassed e = dict_get_default "bypassed" (VBool false) cfg ∧
    params_restored K (descriptor_params cfg) (parameters e).

(** A descriptor that names a kind and whose parameters, if any, respect
    the schema of that kind. *)
Definition descriptor_ok (d : value) : Prop :=
  ∃ cfg K, d = VDict cfg ∧
    dict_get "type" cfg = Some (VStr (EffectType_value K)) ∧
    (dict_get "parameters" cfg = None ∨ ∃ O, dict_get "parameters" cfg = Some (VDict O)) ∧
    respects_schema K (descriptor_params cfg).

(** A descriptor that cannot be rebuilt: its kind is unknown, or its
    parameters hold an item that [update_parameters] refuses. *)
Definition descriptor_refused (d : value) : Prop :=
  ∃ cfg type_v, d = VDict cfg ∧ dict_get "type" cfg = Some type_v ∧
    (EffectType_of type_v = Raise InvalidEffectType ∨
     ∃ K O, EffectType_of type_v = Return K ∧
            dict_get "parameters" cfg = Some (VDict O) ∧
            Exists (λ kv, ¬ accepted K kv) O).

(** The effect descriptors of a preset, in order. *)
Definition descriptors (P : Preset.t dict) : list value :=
  match dict_get_default "effects" (VList []) (Preset.effects_chain_config P) with
  | VList ds => ds
  | _ => []
  end.

(** What the constructor of [Preset] checks. *)
Definition constructed {C} (P : Preset.t C) : Prop :=
  (1 ≤ String.length (Preset.name P) ≤ 100)%nat ∧
  match Preset.description P with
  | Some d => (String.length d ≤ 500)%nat
  | None => True
  end ∧
  Forall (λ tag, Preset.tag_matches tag = true) (Preset.tags P).

(** A preset from which a chain can be rebuilt: a name that is also a chain
    name, and at most [MAX_EFFECTS] descriptors, all well formed. *)
Definition restorable (P : Preset.t dict) : Prop :=
  constructed P ∧
  (String.length (Preset.name P) ≤ 50)%nat ∧
  (∃ ds, dict_get_default "effects" (VList []) (Preset.effects_chain_config P) = VList ds) ∧
  (length (descriptors P) ≤ EffectsChain.MAX_EFFECTS)%nat ∧
  Forall descriptor_ok (descriptors P).

(** [Preset.from_json (P.to_json ()).to_effects_chain ()] *)
Definition round_trip `{TextForms} (P : Preset.t dict) : M heap EffectsChain.t :=
  P' ← with_runtime (Preset.from_json (Preset.to_json P));
  Preset.to_effects_chain P'.

End Spec.

(** Invariants used in the proofs. *)
Module Inv.

(** A computation on a chain that leaves its name alone. *)
Definition keeps_name {A} (m : M EffectsChain.state A) : Prop :=
  ∀ s, EffectsChain.name (m s).2.1 = EffectsChain.name s.1.

(** The effects of the chain are objects of the store, at locations already
    given out and with ids already drawn. *)
Definition chain_wf (s : EffectsChain.state) : Prop :=
  ∀ l, l ∈ EffectsChain.effects s.1 →
       (l < next_loc s.2)%nat ∧
       ∃ e, effect_objs s.2 !! l = Some e ∧ (AudioEffect.id e < next_uuid (rt s.2))%N.

Definition restored_at (h : heap) (l : loc) (d : value) : Prop :=
  (l < next_loc h)%nat ∧ ∃ e, effect_objs h !! l = Some e ∧ Spec.restores e d.

(** Every effect of the chain is an object of the store. *)
Definition allocated (s : EffectsChain.state) : Prop :=
  ∀ l, l ∈ EffectsChain.effects s.1 → is_Some (effect_objs s.2 !! l).

(** The id of the effect at a location, and the test [effect.id == effect_id]
    that [reorder_effects] and [get_effect_by_id] run along the list. *)
Definition id_at (h : heap) (l : loc) : option UUID :=
  AudioEffect.id <$> effect_objs h !! l.

Definition has_id (h : heap) (u : UUID) (l : loc) : bool :=
  bool_decide (id_at h l = Some u).

(** The invariant of a chain: positions are indices and ids are distinct. *)
Definition chain_ok (s : EffectsChain.state) : Prop :=
  allocated s ∧ Spec.positions_match s ∧ Spec.ids_distinct s.

(** A valid value of a field: [True] or [False] where the unit is
    ["bool"], a number within [[min, max]] elsewhere.  It is what
    [update_parameters] stores for every value that it accepts, NaN apart. *)
Definition stored_ok (def : AudioEffect.param_def) (v : value) : Prop :=
  if String.eqb (AudioEffect.units def) "bool" then ∃ b, v = VBool b
  else Spec.in_range def v.

(** A dictionary of new parameters none of which is NaN. *)
Definition nan_free (d : dict) : Prop := Forall (λ kv, kv.2 ≠ VNaN) d.

(** The invariant of an effect: its parameters are the fields of the schema
    of its kind, in the order of the schema, each with a value as above. *)
Definition params_ok (e : AudioEffect.t) : Prop :=
  dict_keys (AudioEffect.parameters e)
  = dict_keys (AudioEffect.PARAMETER_DEFINITIONS (AudioEffect.type e)) ∧
  ∀ n def, dict_get n (AudioEffect.PARAMETER_DEFINITIONS (AudioEffect.type e)) = Some def →
           ∃ v, dict_get n (AudioEffect.parameters e) = Some v ∧ stored_ok def v.

(** A computation started in a state of [P] returns a value and a state
    of [Q], or raises in a state of [E]. *)
Definition triple {S A} (P : S → Prop) (m : M S A) (Q : A → S → Prop) (E : S → Prop)
  : Prop :=
  ∀ s, P s → match m s with
             | (Return a, s') => Q a s'
             | (Raise _, s') => E s'
             end.

(** The store [h'] is [h] with more objects: what was in [h] is untouched. *)
Definition grown (h h' : heap) : Prop :=
  (next_loc h ≤ next_loc h')%nat ∧
  ∀ x, (x < next_loc h)%nat → effect_objs h' !! x = effect_objs h !! x.

(** The store [h'] is [h] with one more object, at [l], an effect with
    valid parameters. *)
Definition created (h : heap) (l : loc) (h' : heap) : Prop :=
  l = next_loc h ∧ next_loc h' = S l ∧
  (∀ x, (x < l)%nat → effect_objs h' !! x = effect_objs h !! x) ∧
  ∃ e, effect_objs h' !! l = Some e ∧ params_ok e.

(** A chain as the manager builds it: the invariant holds, there are at
    most [MAX_EFFECTS] effects, and each is an object created earlier whose
    parameters are valid. *)
Definition chain_valid (s : EffectsChain.state) : Prop :=
  chain_ok s ∧
  (length (EffectsChain.effects s.1) ≤ EffectsChain.MAX_EFFECTS)%nat ∧
  ∀ l, l ∈ EffectsChain.effects s.1 →
       (l < next_loc s.2)%nat ∧ ∃ e, effect_objs s.2 !! l = Some e ∧ params_ok e.

(** The preset store is consistent, every preset is stored under its own
    id, and the ids were drawn from the store's runtime. *)
Definition store_ok (m : PresetManager.t) : Prop :=
  PresetManager.consistent m ∧
  (∀ i p, PresetManager._presets m !! i = Some p → Preset.id p = i) ∧
  ∀ i, is_Some (PresetManager._presets m !! i) →
       (i < next_uuid (PresetManager.runtime_ m))%N.

(** The name [copy] gives the new object: [new_name if new_name else
    f"{self.name} (Copy)"]. *)
Definition copy_name (name : string) (new_name : option string) : string :=
  match new_name with
  | Some n => if truthy (VStr n) then n else name ++ " (Copy)"
  | None => name ++ " (Copy)"
  end.

End Inv.

(** ** Sample inputs *)

Module Sample.

Definition r0 : runtime := Runtime 0 0.

(** A Boost effect whose [gain_db] is 10.0. *)
Definition boost10 : AudioEffect.t :=
  AudioEffect.Make 7%N BOOST (VBool false) (VInt 0) VNone
    [("gain_db", VFloat 10.0); ("tone", VFloat 0.5)].

(** A new chain "Lead" and two new effects, not yet in the chain. *)
Definition boost : AudioEffect.t :=
  AudioEffect.Make 1%N BOOST (VBool false) (VInt 0) VNone (AudioEffect.defaults BOOST).
Definition distortion : AudioEffect.t :=
  AudioEffect.Make 2%N DISTORTION (VBool false) (VInt 0) VNone
                   (AudioEffect.defaults DISTORTION).
Definition lead_empty : EffectsChain.state :=
  (EffectsChain.Make 0%N "Lead" [] (VBool false) 0%N 1%N,
   Heap (Runtime 3 2) {[ 0%nat := boost; 1%nat := distortion ]} 2).

(** The same after [add_effect] of both. *)
Definition lead : EffectsChain.state :=
  Spec.apply_ops [Spec.Add 0%nat; Spec.Add 1%nat] lead_empty.

Definition h0 : heap := Heap r0 ∅ 0.

(** A chain dictionary listing nine effects. *)
Definition nine_effects : dict :=
  [ ("name", VStr "Wall");
    ("effects", VList (replicate 9 (VDict [("type", VStr "BOOST")]))) ].

(** A chain dictionary whose two effects carry the same id, and positions
    that are not their indices. *)
Definition twin_ids `{TextForms} : dict :=
  [ ("name", VStr "Twins");
    ("effects",
     VList [ VDict [("id", VStr (uuid_str 5)); ("type", VStr "BOOST");
                    ("position", VInt 3)];
             VDict [("id", VStr (uuid_str 5)); ("type", VStr "DELAY");
                    ("position", VInt 3)] ]) ].

(** A manager as [EffectsManager ()] leaves it: one chain, "Default Chain",
    with id 0, at location 0. *)
Definition manager : EffectsManager.t := (EffectsManager.__init__ r0).2.

Definition fifty_one : string :=
  "123456789012345678901234567890123456789012345678901".

(** An empty preset store on a writable directory, and the same after one
    [save_preset]. *)
Definition store_empty : PresetManager.t := PresetManager.Make ∅ ∅ ∅ true r0.

Definition clean_config : dict :=
  [ ("name", VStr "Lead");
    ("effects",
     VList [ VDict [ ("type", VStr "BOOST");
                     ("parameters", VDict [("gain_db", VFloat 6.0); ("tone", VFloat 0.6)]);
                     ("bypassed", VBool false) ] ]) ].

Definition save_clean : PresetManager.preset_config :=
  PresetManager.PresetConfig (Some "Clean") (Some clean_config) None (Some ["rock"]) None None.

Definition store_one `{TextForms} : PresetManager.t :=
  (PresetManager.save_preset save_clean store_empty).2.

Definition rename_to_empty : PresetManager.update_config :=
  PresetManager.UpdateConfig (Some "") None None None.

(** A preset whose configuration is a graph of objects, a copy of it, and
    an assignment through the copy:
    [duplicate.effects_chain_config["effects"][0]["parameters"]["gain_db"] = 12.0].
    The script returns what the original's configuration denotes before and
    after the assignment, and both presets. *)
Definition copy_then_assign
  : M objects (option value * option value * Preset.t slot * Preset.t slot) :=
  config ← PyObj.build (VDict clean_config);
  original ← zoom obj_rt (λ r o, Objects r (containers o) (next_obj o))
                (Preset.__init__ "Clean" config None (Some ["rock"]) None "1.0.0");
  o ← get;
  let before := PyObj.denote 4 (containers o) (Preset.effects_chain_config original) in
  duplicate ← Preset.copy original None;
  effects ← PyObj.getitem (Preset.effects_chain_config duplicate) "effects";
  first ← PyObj.getindex effects 0;
  parameters ← PyObj.getitem first "parameters";
  PyObj.setitem parameters "gain_db" (SFloat 12.0);;
  o ← get;
  let after := PyObj.denote 4 (containers o) (Preset.effects_chain_config original) in
  mret (before, after, original, duplicate).

(** The same with [duplicate.effects_chain_config["effects"].append (None)]. *)
Definition copy_then_append : M objects (option value * option value) :=
  config ← PyObj.build (VDict clean_config);
  original ← zoom obj_rt (λ r o, Objects r (containers o) (next_obj o))
                (Preset.__init__ "Clean" config None (Some ["rock"]) None "1.0.0");
  o ← get;
  let before := PyObj.denote 4 (containers o) (Preset.effects_chain_config original) in
  duplicate ← Preset.copy original None;
  effects ← PyObj.getitem (Preset.effects_chain_config duplicate) "effects";
  PyObj.append effects SNone;;
  o ← get;
  let after := PyObj.denote 4 (containers o) (Preset.effects_chain_config original) in
  mret (before, after).

Definition objects_empty : objects := Objects r0 ∅ 0.

(** The preset "Clean" over [clean_config], as its constructor builds it. *)
Definition clean : Preset.t dict :=
  Preset.Make 0 "Clean" None clean_config 0 1 ["rock"] None "1.0.0".

(** A preset whose stored gain is outside the schema of Boost. *)
Definition hot : Preset.t dict :=
  Preset.Make 0 "Hot" None
    [ ("name", VStr "Lead");
      ("effects",
       VList [ VDict [ ("type", VStr "BOOST");
                       ("parameters", VDict [("gain_db", VFloat 31.0)]) ] ]) ]
    0 1 [] None "1.0.0".

(** A preset whose second descriptor names a kind that does not exist. *)
Definition fuzz : Preset.t dict :=
  Preset.Make 0 "Fuzz" None
    [ ("name", VStr "Lead");
      ("effects",
       VList [ VDict [ ("type", VStr "BOOST") ]; VDict [ ("type", VStr "FUZZ") ] ]) ]
    0 1 [] None "1.0.0".

(** A preset whose descriptor gives one of the two parameters of Boost. *)
Definition sparse : Preset.t dict :=
  Preset.Make 0 "Sparse" None
    [ ("name", VStr "Lead");
      ("effects",
       VList [ VDict [ ("type", VStr "BOOST");
                       ("parameters", VDict [("gain_db", VFloat 6.0)]) ] ]) ]
    0 1 [] None "1.0.0".

Definition delay_mix : AudioEffect.t :=
  AudioEffect.Make 0%N DELAY (VBool false) (VInt 0) VNone
    [ ("delay_seconds", VFloat 0.25); ("feedback", VFloat 0.3); ("mix", VFloat 0.5);
      ("tempo_sync", VBool true) ].

(** "Lead" after [add_effect] of the first effect only. *)
Definition lead_one : EffectsChain.state :=
  Spec.apply_ops [Spec.Add 0%nat] lead_empty.

(** A chain whose name has 44 characters. *)
Definition long_named : EffectsChain.t :=
  EffectsChain.Make 0%N "12345678901234567890123456789012345678901234" []
                    (VBool false) 0%N 1%N.

(** The store after the configuration of "Clean" was built in it, and the
    preset over that configuration. *)
Definition clean_objects : objects :=
  (PyObj.build (VDict clean_config) objects_empty).2.
Definition clean_ref : Preset.t slot :=
  Preset.Make 0 "Clean" None (SRef 3) 0 1 ["rock"] None "1.0.0".
(** A preset whose name has 94 characters. *)
Definition long_preset : Preset.t slot :=
  Preset.Make 0
    "1234567890123456789012345678901234567890123456789012345678901234567890123456789012345678901234"
    None (SRef 3) 0 1 [] None "1.0.0".

(** A request to save a preset under an empty name, and a request to
    rename a preset to "Crunch". *)
Definition save_unnamed : PresetManager.preset_config :=
  PresetManager.PresetConfig (Some "") (Some clean_config) None None None None.
Definition rename_to_crunch : PresetManager.update_config :=
  PresetManager.UpdateConfig (Some "Crunch") None None None.
(** "Clean" after the renaming, done at time 2. *)
Definition crunch : Preset.t dict :=
  Preset.Make 0 "Crunch" None clean_config 0 2 ["rock"] None "1.0.0".
(** The same requests as the dictionaries a caller passes. *)
Definition save_unnamed_dict : dict :=
  [ ("name", VStr ""); ("effects_chain_config", VDict clean_config) ].
Definition rename_to_crunch_dict : dict := [ ("name", VStr "Crunch") ].
(** [store_one] on a directory that has stopped accepting changes. *)
Definition store_locked `{TextForms} : PresetManager.t :=
  PresetManager.Make (PresetManager._presets store_one)
                     (PresetManager._preset_names store_one)
                     (PresetManager.files store_one) false
                     (PresetManager.runtime_ store_one).
(** A manager started later on the directory that [store_one] wrote. *)
Definition store_restarted `{TextForms} : PresetManager.t :=
  PresetManager.Make ∅ ∅ (PresetManager.files store_one) true (Runtime 5 5).

End Sample.

(** * Properties *)

(** ** Dictionaries *)

Section DictFacts.
Context {A : Type}.
Implicit Types (d : list (string * A)) (k : string) (v : A).

Lemma dict_get_set_eq k v d : dict_get k (dict_set k v d) = Some v.
Proof.
  induction d as [|[k' v'] d IH]; simpl.
  - now rewrite String.eqb_refl.
  - destruct (String.eqb k k') eqn:E; simpl; rewrite E; auto.
Qed.

Lemma dict_get_set_ne k k' v d :
  k ≠ k' → dict_get k' (dict_set k v d) = dict_get k' d.
Proof.
  intros Hne. induction d as [|[k0 v0] d IH]; simpl.
  - apply String.eqb_neq in Hne. rewrite String.eqb_sym in Hne. now rewrite Hne.
  - destruct (String.eqb k k0) eqn:E; simpl.
    + apply String.eqb_eq in E. subst k0.
      apply String.eqb_neq in Hne. rewrite String.eqb_sym in Hne. now rewrite Hne.
    + now rewrite IH.
Qed.

Lemma dict_get_None k d : dict_get k d = None ↔ k ∉ dict_keys d.
Proof.
  unfold dict_keys. induction d as [|[k' v'] d IH]; simpl.
  - split; [intros _; apply not_elem_of_nil | reflexivity].
  - rewrite not_elem_of_cons. destruct (String.eqb_spec k k') as [->|Hne].
    + split; [discriminate | tauto].
    + rewrite IH. tauto.
Qed.

Lemma dict_get_Some_elem k v d : dict_get k d = Some v → (k, v) ∈ d.
Proof.
  induction d as [|[k' v'] d IH]; simpl; [discriminate|].
  destruct (String.eqb_spec k k') as [->|Hne].
  - intros [= ->]. apply list_elem_of_here.
  - intros H. apply list_elem_of_further. auto.
Qed.

Lemma dict_get_elem_keys k v d : dict_get k d = Some v → k ∈ dict_keys d.
Proof.
  intros H. apply dict_get_Some_elem in H.
  apply (list_elem_of_fmap_2 fst) in H. exact H.
Qed.

Lemma dict_get_NoDup k v d :
  NoDup (dict_keys d) → (k, v) ∈ d → dict_get k d = Some v.
Proof.
  unfold dict_keys. induction d as [|[k' v'] d IH]; simpl.
  - intros _ H. now apply elem_of_nil in H.
  - rewrite NoDup_cons, elem_of_cons. intros [Hnotin Hnd] [H|H].
    + injection H as -> ->. now rewrite String.eqb_refl.
    + destruct (String.eqb_spec k k') as [->|Hne]; [|auto].
      exfalso. apply Hnotin. apply (list_elem_of_fmap_2 fst) in H. exact H.
Qed.

Lemma dict_keys_set k v d :
  k ∈ dict_keys d → dict_keys (dict_set k v d) = dict_keys d.
Proof.
  unfold dict_keys. induction d as [|[k' v'] d IH]; simpl.
  - intros H. now apply elem_of_nil in H.
  - rewrite elem_of_cons. intros H.
    destruct (String.eqb_spec k k') as [->|Hne]; simpl; [reflexivity|].
    f_equal. apply IH. tauto.
Qed.

End DictFacts.

(** ** Numbers *)

(** The tests on a value that stands for a finite number. *)
Lemma number_tests v x q :
  py_num v = Some x →
  is_number v = true ∧ num_lt v q = Qltb x q ∧ num_gt v q = Qltb q x.
Proof.
  destruct v; try discriminate; cbn; intros [= <-]; auto.
Qed.

(** A number that is neither below nor above a bound stands for a finite
    number, unless it is NaN. *)
Lemma number_within v lo hi :
  is_number v = true → num_lt v lo = false → num_gt v hi = false → v ≠ VNaN →
  ∃ x, py_num v = Some x ∧ (lo <= x ∧ x <= hi)%Q.
Proof.
  intros Hn Hlo Hhi Hnan.
  destruct v as [|b|z|q| |negative|s|l|d]; try discriminate; try congruence.
  1-3: eexists; (split; [reflexivity|]); cbn in Hlo, Hhi; unfold Qltb in Hlo, Hhi;
       apply negb_false_iff in Hlo, Hhi; split; now apply Qle_bool_iff.
  cbn in Hlo, Hhi. destruct negative; discriminate.
Qed.

(** A value without NaN has no NaN among its entries or elements. *)
Lemma no_nan_get d k v :
  no_nan (VDict d) = true → dict_get k d = Some v → no_nan v = true.
Proof.
  cbn [no_nan]. induction d as [|[k' v'] d IH]; cbn [forallb dict_get snd];
    [discriminate|].
  intros [Hv Hd]%andb_true_iff. destruct (String.eqb k k'); [now intros [= <-]|auto].
Qed.

Lemma no_nan_default d k v0 :
  no_nan (VDict d) = true → no_nan v0 = true → no_nan (dict_get_default k v0 d) = true.
Proof.
  intros Hd H0. unfold dict_get_default.
  destruct (dict_get k d) as [v|] eqn:Hk; [now apply (no_nan_get d k)|exact H0].
Qed.

Lemma no_nan_iter v l :
  no_nan v = true → py_iter v = Some l → Forall (λ x, no_nan x = true) l.
Proof.
  destruct v; try discriminate; cbn [py_iter no_nan]; intros Hv [= <-].
  - apply Forall_forall. intros x [c [-> _]]%list_elem_of_fmap. reflexivity.
  - apply Forall_forall. intros x Hx. rewrite forallb_forall in Hv.
    apply Hv. now apply list_elem_of_In.
  - apply Forall_forall. intros x [kv [-> _]]%list_elem_of_fmap. reflexivity.
Qed.

Lemma no_nan_nan_free d : no_nan (VDict d) = true → Inv.nan_free d.
Proof.
  cbn [no_nan]. intros Hd. apply Forall_forall. intros [k v] Hkv Hv. cbn in Hv. subst v.
  rewrite forallb_forall in Hd. apply list_elem_of_In in Hkv.
  specialize (Hd _ Hkv). discriminate Hd.
Qed.

(** ** Effect parameters *)

Section ParameterFacts.
Import AudioEffect.
Variables (kind : string) (param_defs : list (string * param_def)).

(** What the loop stores for an accepted item: the value itself, or its
    truth value for a parameter whose unit is ["bool"]. *)
Lemma check_item_stored param_name v w :
  check_item kind param_defs param_name v = Return w →
  ∃ def, dict_get param_name param_defs = Some def ∧
         w = (if String.eqb (units def) "bool" then VBool (truthy v) else v).
Proof.
  unfold check_item. destruct (dict_get param_name param_defs) as [def|]; [|discriminate].
  intros H. exists def. split; [reflexivity|].
  destruct (String.eqb (units def) "bool").
  - destruct (negb (in_bool_literals v)); [discriminate|]. now injection H.
  - destruct (negb (is_number v)); [discriminate|].
    destruct (_ || _); [discriminate|]. now injection H.
Qed.

Lemma update_loop_app xs ys self :
  update_loop kind param_defs (xs ++ ys) self =
  match update_loop kind param_defs xs self with
  | (Return _, self') => update_loop kind param_defs ys self'
  | (Raise e, self') => (Raise e, self')
  end.
Proof.
  revert self. induction xs as [|[k v] xs IH]; intros self; simpl.
  - reflexivity.
  - unfold mbind, M_bind, bind, lift, modify.
    destruct (check_item kind param_defs k v); [apply IH | reflexivity].
Qed.

Lemma update_loop_rejected k v e rest self :
  check_item kind param_defs k v = Raise e →
  update_loop kind param_defs ((k, v) :: rest) self = (Raise e, self).
Proof.
  intros H. simpl. unfold mbind, M_bind, bind, lift. now rewrite H.
Qed.

(** A run of accepted items with distinct keys: every one of them is
    stored, every other entry and every other field is left alone. *)
Lemma update_loop_accepted items : ∀ self,
  NoDup (dict_keys items) →
  Forall (λ kv, is_Return (check_item kind param_defs kv.1 kv.2) = true) items →
  ∃ ps,
    update_loop kind param_defs items self = (Return tt, set_parameters ps self) ∧
    (∀ k v, (k, v) ∈ items →
       ∃ w, check_item kind param_defs k v = Return w ∧ dict_get k ps = Some w) ∧
    (∀ k, k ∉ dict_keys items → dict_get k ps = dict_get k (parameters self)) ∧
    ((∀ k, k ∈ dict_keys items → k ∈ dict_keys (parameters self)) →
     dict_keys ps = dict_keys (parameters self)).
Proof.
  unfold dict_keys.
  induction items as [|[k v] items IH]; intros self Hnd Hok.
  - exists (parameters self). destruct self; simpl. repeat split; auto.
    intros ? ? H. now apply elem_of_nil in H.
  - simpl in Hnd. apply NoDup_cons in Hnd as [Hk Hnd].
    apply Forall_cons in Hok as [Hkv Hok]. simpl in Hkv.
    destruct (check_item kind param_defs k v) as [w|] eqn:Hc; [|discriminate].
    destruct (IH (set_parameters (dict_set k w (parameters self)) self) Hnd Hok)
      as (ps & Hrun & Hin & Hout & Hkeys).
    exists ps. simpl in *. repeat split.
    + unfold mbind, M_bind, bind, lift, modify. rewrite Hc. exact Hrun.
    + intros k' v' H. apply elem_of_cons in H as [H|H].
      * injection H as -> ->. exists w. split; [exact Hc|].
        rewrite (Hout k Hk). apply dict_get_set_eq.
      * auto.
    + intros k' Hk'. apply not_elem_of_cons in Hk' as [Hne Hk'].
      rewrite Hout by exact Hk'. apply dict_get_set_ne. congruence.
    + intros Hsub.
      assert (Hkin : k ∈ (parameters self).*1) by (apply Hsub, list_elem_of_here).
      rewrite Hkeys.
      * apply dict_keys_set. exact Hkin.
      * intros k' Hk'. fold (dict_keys (dict_set k w (parameters self))).
        rewrite dict_keys_set by exact Hkin. apply Hsub. now apply list_elem_of_further.
Qed.

End ParameterFacts.

(** C7: [update_parameters] checks each key before storing it and stops at
    the first key it refuses: the call raises that key's exception, the keys
    taken before it hold their new values, the refused key and the keys after
    it hold the values they had.  In particular [{"gain_db": 31.0}] on a
    Boost effect whose [gain_db] is 10.0 raises the out-of-range error and
    leaves the effect as it was. *)
Theorem update_parameters_stops_at_first_refused_key :
  (∀ (self : AudioEffect.t) (earlier later : dict) (k : string) (v : value) (e : exn),
     NoDup (dict_keys (earlier ++ (k, v) :: later)) →
     Forall (Spec.accepted (AudioEffect.type self)) earlier →
     AudioEffect.check_item (AudioEffect.EffectType_value (AudioEffect.type self))
       (AudioEffect.PARAMETER_DEFINITIONS (AudioEffect.type self)) k v = Raise e →
     ∃ ps,
       AudioEffect.update_parameters (earlier ++ (k, v) :: later) self
         = (Raise e, AudioEffect.set_parameters ps self) ∧
       AudioEffect.update_parameters earlier self
         = (Return tt, AudioEffect.set_parameters ps self) ∧
       (∀ k' v', (k', v') ∈ earlier →
          ∃ def, dict_get k' (AudioEffect.PARAMETER_DEFINITIONS (AudioEffect.type self))
                   = Some def ∧
                 dict_get k' ps = Some (Spec.coerced def v')) ∧
       (∀ k', k' ∈ k :: dict_keys later →
          dict_get k' ps = dict_get k' (AudioEffect.parameters self)))
  ∧
  (∀ self : AudioEffect.t,
     AudioEffect.type self = BOOST →
     dict_get "gain_db" (AudioEffect.parameters self) = Some (VFloat 10.0) →
     ∃ self',
       AudioEffect.update_parameters [("gain_db", VFloat 31.0)] self
         = (Raise (OutOfRange "gain_db" (-20.0) 30.0), self') ∧
       self' = self ∧
       dict_get "gain_db" (AudioEffect.parameters self') = Some (VFloat 10.0)).
Proof.
  split.
  - intros self earlier later k v e Hnd Hok Hbad.
    unfold dict_keys in Hnd. rewrite fmap_app in Hnd.
    apply NoDup_app in Hnd as (Hnd1 & Hdisj & Hnd2).
    destruct (update_loop_accepted _ _ earlier self Hnd1 Hok) as (ps & Hrun & Hin & Hout & _).
    exists ps. unfold AudioEffect.update_parameters, mbind, M_bind, bind, get.
    repeat split.
    + rewrite update_loop_app, Hrun. now apply update_loop_rejected.
    + exact Hrun.
    + intros k' v' H. destruct (Hin k' v' H) as (w & Hc & Hw).
      destruct (check_item_stored _ _ _ _ _ Hc) as (def & Hdef & ->).
      exists def. split; [exact Hdef | exact Hw].
    + intros k' Hk'. apply Hout. intros Hcontra.
      apply (Hdisj _ Hcontra). exact Hk'.
  - intros self Hty Hgain. exists self. repeat split; [|exact Hgain].
    unfold AudioEffect.update_parameters, mbind, M_bind, bind, get. rewrite Hty.
    reflexivity.
Qed.

Lemma update_parameters_stops_at_first_refused_key_witness :
  (∃ ps,
     AudioEffect.update_parameters
       ([("tone", VFloat 0.9)] ++ ("gain_db", VFloat 31.0) :: [("bogus", VInt 1)])
       Sample.boost10
       = (Raise (OutOfRange "gain_db" (-20.0) 30.0),
          AudioEffect.set_parameters ps Sample.boost10) ∧
     AudioEffect.update_parameters [("tone", VFloat 0.9)] Sample.boost10
       = (Return tt, AudioEffect.set_parameters ps Sample.boost10) ∧
     (∀ k' v', (k', v') ∈ [("tone", VFloat 0.9)] →
        ∃ def, dict_get k' (AudioEffect.PARAMETER_DEFINITIONS BOOST) = Some def ∧
               dict_get k' ps = Some (Spec.coerced def v')) ∧
     (∀ k', k' ∈ "gain_db" :: dict_keys [("bogus", VInt 1)] →
        dict_get k' ps = dict_get k' (AudioEffect.parameters Sample.boost10)))
  ∧
  (∃ self',
     AudioEffect.update_parameters [("gain_db", VFloat 31.0)] Sample.boost10
       = (Raise (OutOfRange "gain_db" (-20.0) 30.0), self') ∧
     self' = Sample.boost10 ∧
     dict_get "gain_db" (AudioEffect.parameters self') = Some (VFloat 10.0)).
Proof.
  split.
  - apply (proj1 update_parameters_stops_at_first_refused_key Sample.boost10).
    + apply (bool_decide_unpack _). vm_compute. reflexivity.
    + repeat constructor.
    + reflexivity.
  - apply (proj2 update_parameters_stops_at_first_refused_key Sample.boost10);
      reflexivity.
Defined.

(** ** Effect construction *)

Section SchemaFacts.
Import AudioEffect Spec.

Lemma defaults_get K n :
  dict_get n (defaults K) = default <$> dict_get n (PARAMETER_DEFINITIONS K).
Proof.
  destruct K; cbn;
    repeat match goal with |- context [String.eqb n ?s] => destruct (String.eqb n s) end;
    reflexivity.
Qed.

Lemma defaults_keys K : dict_keys (defaults K) = dict_keys (PARAMETER_DEFINITIONS K).
Proof. destruct K; reflexivity. Qed.

Lemma schema_keys_NoDup K : NoDup (dict_keys (PARAMETER_DEFINITIONS K)).
Proof. destruct K; apply (bool_decide_unpack _); vm_compute; reflexivity. Qed.

(** Every default of the table lies within its own bounds, and the only
    boolean field ranges over [[0, 1]]. *)
Lemma schema_entry K n def :
  dict_get n (PARAMETER_DEFINITIONS K) = Some def →
  in_range def (default def) ∧
  (String.eqb (units def) "bool" = true → min def = 0%Q ∧ max def = 1%Q).
Proof.
  destruct K; cbn;
    repeat match goal with |- context [String.eqb n ?s] => destruct (String.eqb n s) end;
    intros [= <-]; (split; [eexists; split; [reflexivity | split; discriminate]
                           | cbn; first [discriminate | intros _; split; reflexivity]]).
Qed.

Lemma py_eq_number v x b :
  py_num v = Some x → py_num b = Some 0%Q ∨ py_num b = Some 1%Q →
  ∀ y, py_num b = Some y → py_eq v b = Qeq_bool x y.
Proof.
  intros Hv Hb y Hy.
  destruct v; try discriminate; destruct b; try discriminate; cbn in *;
    congruence.
Qed.

Lemma in_bool_literals_number v x :
  py_num v = Some x → in_bool_literals v = Qeq_bool x 1 || Qeq_bool x 0.
Proof.
  intros Hv. unfold in_bool_literals.
  rewrite (py_eq_number v x (VBool true) Hv (or_intror eq_refl) 1%Q eq_refl).
  rewrite (py_eq_number v x (VBool false) Hv (or_introl eq_refl) 0%Q eq_refl).
  rewrite (py_eq_number v x (VInt 0) Hv (or_introl eq_refl) 0%Q eq_refl).
  rewrite (py_eq_number v x (VInt 1) Hv (or_intror eq_refl) 1%Q eq_refl).
  destruct (Qeq_bool x 1), (Qeq_bool x 0); reflexivity.
Qed.

Lemma check_item_legal kind defs k v def :
  dict_get k defs = Some def → legal_value def v →
  check_item kind defs k v = Return (coerced def v).
Proof.
  intros Hdef (x & Hx & Hlegal). unfold check_item, coerced. rewrite Hdef.
  destruct (String.eqb (units def) "bool").
  - rewrite (in_bool_literals_number v x Hx).
    destruct Hlegal as [H|H]; apply Qeq_bool_iff in H; rewrite H;
      [destruct (Qeq_bool x 1)|]; reflexivity.
  - destruct (number_tests v x (min def) Hx) as (-> & -> & _).
    destruct (number_tests v x (max def) Hx) as (_ & _ & ->).
    destruct Hlegal as [Hlo Hhi].
    apply Qle_bool_iff in Hlo, Hhi. unfold Qltb. now rewrite Hlo, Hhi.
Qed.

Lemma coerced_in_range K n def v :
  dict_get n (PARAMETER_DEFINITIONS K) = Some def →
  legal_value def v → in_range def (coerced def v).
Proof.
  intros Hdef (x & Hx & Hlegal). unfold coerced.
  destruct (schema_entry K n def Hdef) as [_ Hbool].
  destruct (String.eqb (units def) "bool").
  - destruct (Hbool eq_refl) as [Hmin Hmax]. unfold in_range. rewrite Hmin, Hmax.
    exists (if truthy v then 1%Q else 0%Q). split; [reflexivity|].
    destruct (truthy v); split; discriminate.
  - exists x. auto.
Qed.

End SchemaFacts.

(** Python's [==] on dictionaries, entry by entry. *)
Lemma py_eq_dict d e :
  py_eq (VDict d) (VDict e)
  = Nat.eqb (length d) (length e) &&
    forallb (λ kv, match dict_get kv.1 e with
                   | Some w => py_eq kv.2 w
                   | None => false
                   end) d.
Proof.
  cbn [py_eq]. f_equal. induction d as [|[k v] d IH]; [reflexivity|].
  cbn [forallb fst snd]. now rewrite <- IH.
Qed.

Lemma truthy_number v x : py_num v = Some x → truthy v = negb (Qeq_bool x 0).
Proof.
  destruct v; try discriminate; cbn; intros [= <-].
  - now destruct b.
  - unfold Qeq_bool. cbn. rewrite Z.mul_1_r. reflexivity.
  - reflexivity.
Qed.

(** A legal value and its stored form are equal in Python's sense. *)
Lemma py_eq_coerced def v : Spec.legal_value def v → py_eq v (Spec.coerced def v) = true.
Proof.
  intros (x & Hx & Hlegal). unfold Spec.coerced.
  destruct (String.eqb (AudioEffect.units def) "bool").
  - rewrite (truthy_number v x Hx).
    assert (Hb : ∀ t : bool, py_eq v (VBool t) = Qeq_bool x (if t then 1 else 0)%Q).
    { intros t. destruct v; try discriminate;
        reflexivity || (cbn in Hx; now injection Hx as <-). }
    rewrite Hb. destruct Hlegal as [H0|H1].
    + apply Qeq_bool_iff in H0. now rewrite H0.
    + destruct (Qeq_bool x 0) eqn:E0; cbn.
      * apply Qeq_bool_iff in E0. rewrite E0 in H1. discriminate.
      * now apply Qeq_bool_iff.
  - destruct v; try discriminate; cbn in *; injection Hx as <-;
      apply Qeq_bool_iff; reflexivity.
Qed.

Lemma py_eq_full K (O ps : dict) :
  Spec.respects_schema K O →
  dict_keys ps = dict_keys (AudioEffect.PARAMETER_DEFINITIONS K) →
  (∀ n def, dict_get n (AudioEffect.PARAMETER_DEFINITIONS K) = Some def →
     dict_get n ps = Some (match dict_get n O with
                           | Some v => Spec.coerced def v
                           | None => AudioEffect.default def
                           end)) →
  (∀ n, n ∈ dict_keys (AudioEffect.PARAMETER_DEFINITIONS K) → n ∈ dict_keys O) →
  py_eq (VDict O) (VDict ps) = true.
Proof.
  intros [Hnd Hlegal] Hkeys Hvalue Hfull. rewrite py_eq_dict. apply andb_true_iff. split.
  - apply Nat.eqb_eq.
    rewrite <- (length_fmap fst O), <- (length_fmap fst ps).
    fold (dict_keys O). fold (dict_keys ps). rewrite Hkeys.
    apply Permutation_length, NoDup_Permutation; [exact Hnd | apply schema_keys_NoDup|].
    intros n. split; [|apply Hfull].
    intros Hn. apply list_elem_of_fmap in Hn as ([k v] & -> & Hkv).
    rewrite Forall_forall in Hlegal. destruct (Hlegal _ Hkv) as (def & Hdef & _).
    eapply dict_get_elem_keys. exact Hdef.
  - apply forallb_forall. intros [k v] Hkv. apply list_elem_of_In in Hkv. cbn [fst snd].
    rewrite Forall_forall in Hlegal. destruct (Hlegal _ Hkv) as (def & Hdef & Hv).
    cbn [fst snd] in Hdef, Hv.
    rewrite (Hvalue k def Hdef), (dict_get_NoDup k v O Hnd Hkv).
    now apply py_eq_coerced.
Qed.

(** The constructor on overrides that respect the schema: the effect it
    returns, field by field. *)
Lemma init_overrides (K : EffectType) (O : dict) (r : runtime) :
  Spec.respects_schema K O →
  ∃ ps,
    AudioEffect.__init__ (AudioEffect.Member K) (VDict O) r
    = (Return (AudioEffect.Make (next_uuid r) K (VBool false) (VInt 0) VNone ps),
       Runtime (N.succ (next_uuid r)) (clock r)) ∧
    Spec.params_restored K O ps.
Proof.
  intros Hschema. pose proof Hschema as [Hnd Hlegal].
  set (self := AudioEffect.Make (next_uuid r) K (VBool false) (VInt 0) VNone
                                (AudioEffect.defaults K)).
  assert (Hok : Forall (Spec.accepted K) O).
  { eapply Forall_impl; [exact Hlegal|]. intros [k v] (def & Hdef & Hv). unfold Spec.accepted.
    cbn in *. now rewrite (check_item_legal _ _ k v def Hdef Hv). }
  destruct (update_loop_accepted (AudioEffect.EffectType_value K)
              (AudioEffect.PARAMETER_DEFINITIONS K) O self Hnd Hok)
    as (ps & Hrun & Hin & Hout & Hkeys).
  assert (Hsub : ∀ k, k ∈ dict_keys O → k ∈ dict_keys (AudioEffect.parameters self)).
  { intros k Hk. change (k ∈ dict_keys (AudioEffect.defaults K)). rewrite defaults_keys.
    apply list_elem_of_fmap in Hk as ([k' v] & -> & Hkv).
    rewrite Forall_forall in Hlegal. destruct (Hlegal _ Hkv) as (def & Hdef & _).
    eapply dict_get_elem_keys. exact Hdef. }
  specialize (Hkeys Hsub).
  change (AudioEffect.parameters self) with (AudioEffect.defaults K) in Hkeys, Hout.
  rewrite defaults_keys in Hkeys.
  assert (Hvalue : ∀ n def, dict_get n (AudioEffect.PARAMETER_DEFINITIONS K) = Some def →
            dict_get n ps = Some (match dict_get n O with
                                  | Some v => Spec.coerced def v
                                  | None => AudioEffect.default def
                                  end)).
  { intros n def Hdef. destruct (dict_get n O) as [v|] eqn:HnO.
    - apply dict_get_Some_elem in HnO. destruct (Hin n v HnO) as (w & Hc & Hw).
      rewrite Forall_forall in Hlegal. destruct (Hlegal _ HnO) as (def' & Hdef' & Hv).
      cbn in Hdef'. rewrite Hdef in Hdef'. injection Hdef' as <-.
      rewrite (check_item_legal _ _ n v def Hdef Hv) in Hc. injection Hc as <-. exact Hw.
    - apply dict_get_None in HnO. rewrite (Hout n HnO), defaults_get, Hdef. reflexivity. }
  exists ps. split.
  - unfold AudioEffect.__init__, mbind, M_bind, bind, lift, uuid4, mret, M_ret, ret. cbn.
    fold self. destruct O as [|kv O'].
    + cbn in Hrun. injection Hrun as <-. reflexivity.
    + unfold AudioEffect.update_parameters, mbind, M_bind, bind, get.
      change (AudioEffect.type self) with K. now rewrite Hrun.
  - split; [exact Hkeys|]. split; [exact Hvalue|]. split.
    + intros n def Hdef. eexists. split; [apply (Hvalue n def Hdef)|].
      destruct (dict_get n O) as [v|] eqn:HnO.
      * apply dict_get_Some_elem in HnO. rewrite Forall_forall in Hlegal.
        destruct (Hlegal _ HnO) as (def' & Hdef' & Hv). cbn in Hdef'.
        rewrite Hdef in Hdef'. injection Hdef' as <-.
        eapply coerced_in_range; eauto.
      * apply (schema_entry K n def Hdef).
    + intros Hfull. now apply (py_eq_full K).
Qed.

(** C8: for a kind [K] and an override map [O] that respects [K]'s schema,
    [AudioEffect (K, O)] returns an effect whose [parameters] have exactly
    the schema's fields, each holding [O]'s value for it (a boolean one
    coerced to [True]/[False]) when [O] has one and the schema default
    otherwise, and every value lies within its [[min, max]]. *)
Theorem create_is_defaults_overridden (K : EffectType) (O : dict) (r : runtime) :
  Spec.respects_schema K O →
  ∃ e r',
    AudioEffect.__init__ (AudioEffect.Member K) (VDict O) r = (Return e, r') ∧
    AudioEffect.type e = K ∧
    dict_keys (AudioEffect.parameters e) = dict_keys (AudioEffect.PARAMETER_DEFINITIONS K) ∧
    NoDup (dict_keys (AudioEffect.parameters e)) ∧
    (∀ n def, dict_get n (AudioEffect.PARAMETER_DEFINITIONS K) = Some def →
       dict_get n (AudioEffect.parameters e)
       = Some (match dict_get n O with
               | Some v => Spec.coerced def v
               | None => AudioEffect.default def
               end)) ∧
    (∀ n def, dict_get n (AudioEffect.PARAMETER_DEFINITIONS K) = Some def →
       ∃ v, dict_get n (AudioEffect.parameters e) = Some v ∧ Spec.in_range def v).
Proof.
  intros Hschema.
  destruct (init_overrides K O r Hschema) as (ps & Hinit & Hkeys & Hvalue & Hrange & _).
  eexists _, _. split; [exact Hinit|]. cbn [AudioEffect.type AudioEffect.parameters].
  split; [reflexivity|]. split; [exact Hkeys|]. split; [|split; assumption].
  rewrite Hkeys. apply schema_keys_NoDup.
Qed.

Lemma create_is_defaults_overridden_witness :
  ∃ e r',
    AudioEffect.__init__ (AudioEffect.Member DELAY)
      (VDict [("mix", VFloat 0.5); ("tempo_sync", VInt 1)]) Sample.r0 = (Return e, r') ∧
    AudioEffect.type e = DELAY ∧
    dict_keys (AudioEffect.parameters e)
    = dict_keys (AudioEffect.PARAMETER_DEFINITIONS DELAY) ∧
    NoDup (dict_keys (AudioEffect.parameters e)) ∧
    (∀ n def, dict_get n (AudioEffect.PARAMETER_DEFINITIONS DELAY) = Some def →
       dict_get n (AudioEffect.parameters e)
       = Some (match dict_get n [("mix", VFloat 0.5); ("tempo_sync", VInt 1)] with
               | Some v => Spec.coerced def v
               | None => AudioEffect.default def
               end)) ∧
    (∀ n def, dict_get n (AudioEffect.PARAMETER_DEFINITIONS DELAY) = Some def →
       ∃ v, dict_get n (AudioEffect.parameters e) = Some v ∧ Spec.in_range def v).
Proof.
  apply create_is_defaults_overridden. split.
  - apply (bool_decide_unpack _). vm_compute. reflexivity.
  - repeat constructor.
    + eexists. split; [reflexivity|]. exists 0.5%Q. split; [reflexivity|].
      split; discriminate.
    + eexists. split; [reflexivity|]. exists 1%Q. split; [reflexivity|].
      right. reflexivity.
Defined.

(** ** Chains *)

(** C3, at the input where the code departs from it.  The chain holds the
    effects with ids 1 and 2.  [reorder_effects ([1, 1])] repeats an id and
    misses one, so it is no permutation of the membership; the call returns
    all the same, and the chain then holds the first effect twice. *)
Theorem reorder_effects_accepts_repeated_id :
  Spec.effect_ids Sample.lead = [Some 1%N; Some 2%N] ∧
  (EffectsChain.reorder_effects [1%N; 1%N] Sample.lead).1 = Return tt ∧
  EffectsChain.effects (EffectsChain.reorder_effects [1%N; 1%N] Sample.lead).2.1
  = [0; 0]%nat ∧
  Spec.effect_ids (EffectsChain.reorder_effects [1%N; 1%N] Sample.lead).2
  = [Some 1%N; Some 1%N].
Proof. repeat split; vm_compute; reflexivity. Qed.

(** C2, at the sequence where the code departs from it: on a new chain,
    [add_effect] of two effects and then [reorder_effects] with the first
    id given twice.  All three calls return; afterwards the effect at index
    0 has position 1 and both entries of the chain have the same id. *)
Theorem chain_invariant_lost_by_repeated_id_reorder :
  Spec.positions_match Sample.lead_empty ∧
  Spec.ids_distinct Sample.lead_empty ∧
  Spec.positions_match Sample.lead ∧
  Spec.ids_distinct Sample.lead ∧
  ¬ Spec.positions_match (Spec.apply_ops [Spec.Reorder [1%N; 1%N]] Sample.lead) ∧
  ¬ Spec.ids_distinct (Spec.apply_ops [Spec.Reorder [1%N; 1%N]] Sample.lead).
Proof.
  repeat split.
  - intros i l H. cbn in H. now rewrite lookup_nil in H.
  - intros i j l l' e e' H. cbn in H. now rewrite lookup_nil in H.
  - intros [|[|i]] l H; vm_compute in H; try discriminate; injection H as <-;
      vm_compute; reflexivity.
  - intros [|[|i]] [|[|j]] l l' e e' Hi Hj; vm_compute in Hi, Hj; try discriminate;
      try reflexivity; injection Hi as <-; injection Hj as <-;
      intros He He'; vm_compute in He, He'; injection He as <-; injection He' as <-;
      discriminate.
  - intros H. specialize (H 0%nat 0%nat eq_refl). vm_compute in H. discriminate.
  - intros H.
    specialize (H 0%nat 1%nat 0%nat 0%nat
                  (AudioEffect.store_position (VInt 1) Sample.boost)
                  (AudioEffect.store_position (VInt 1) Sample.boost)).
    discriminate H; vm_compute; reflexivity.
Qed.

(** C10: [EffectsChain.from_dict] appends what the dictionary lists, with
    none of the checks of [add_effect].  From a dictionary listing nine
    effects it returns a chain of nine, all at position 0; from one whose
    two effects carry the same id and [position] 3 it returns a chain in
    which both have that id and that position. *)
Theorem from_dict_skips_the_checks_of_add_effect `{TextForms} :
  (∃ c h, EffectsChain.from_dict Sample.nine_effects Sample.h0 = (Return c, h) ∧
          length (EffectsChain.effects c) = 9%nat ∧
          (EffectsChain.MAX_EFFECTS < length (EffectsChain.effects c))%nat ∧
          ¬ Spec.positions_match (c, h)) ∧
  (∃ c h, EffectsChain.from_dict Sample.twin_ids Sample.h0 = (Return c, h) ∧
          Spec.effect_ids (c, h) = [Some 5%N; Some 5%N] ∧
          ¬ Spec.ids_distinct (c, h) ∧
          ¬ Spec.positions_match (c, h)).
Proof.
  destruct H as [ustr uparse Hlaw iso fromiso Hlaw']. split.
  - eexists _, _. split; [vm_compute; reflexivity|].
    split; [reflexivity|]. split; [vm_compute; lia|].
    intros Hp. specialize (Hp 1%nat 1%nat eq_refl). vm_compute in Hp. discriminate.
  - eexists _, _. split.
    { vm_compute. rewrite !Hlaw. vm_compute. rewrite ?Hlaw. vm_compute. reflexivity. }
    split; [vm_compute; reflexivity|]. split.
    + intros Hd.
      refine (_ (Hd 0%nat 1%nat 0%nat 1%nat _ _ eq_refl eq_refl _ _ _)).
      * discriminate.
      * vm_compute. reflexivity.
      * vm_compute. reflexivity.
      * reflexivity.
    + intros Hp. specialize (Hp 0%nat 0%nat eq_refl). vm_compute in Hp. discriminate.
Qed.

(** ** Managers *)

(** C6, at the inputs where the code departs from it: [update_chain] with
    an empty name, and with a name of 51 characters, returns the chain and
    the chain then bears that name, which the constructor of the chain
    refuses. *)
Theorem update_chain_stores_any_name :
  EffectsManager._chains Sample.manager !! 0%N = Some 0%nat ∧
  EffectsChain.name <$> EffectsManager.chain_objs Sample.manager !! 0%nat
  = Some "Default Chain" ∧
  (EffectsManager.update_chain 0 (EffectsManager.UpdateConfig (Some "") None)
     Sample.manager).1 = Return 0%nat ∧
  EffectsChain.name <$>
    EffectsManager.chain_objs
      (EffectsManager.update_chain 0 (EffectsManager.UpdateConfig (Some "") None)
         Sample.manager).2 !! 0%nat
  = Some "" ∧
  String.length Sample.fifty_one = 51%nat ∧
  (EffectsManager.update_chain 0
     (EffectsManager.UpdateConfig (Some Sample.fifty_one) None) Sample.manager).1
  = Return 0%nat ∧
  EffectsChain.name <$>
    EffectsManager.chain_objs
      (EffectsManager.update_chain 0
         (EffectsManager.UpdateConfig (Some Sample.fifty_one) None) Sample.manager).2
      !! 0%nat
  = Some Sample.fifty_one ∧
  (EffectsChain.__init__ "" Sample.r0).1 = Raise ChainNameLength ∧
  (EffectsChain.__init__ Sample.fifty_one Sample.r0).1 = Raise ChainNameLength.
Proof. repeat split; vm_compute; reflexivity. Qed.

Lemma preset_init_returns {C} name (config : C) description tags author version r p r' :
  Preset.__init__ name config description tags author version r = (Return p, r') →
  Preset.id p = next_uuid r ∧ Preset.name p = name ∧
  Preset.effects_chain_config p = config.
Proof.
  unfold Preset.__init__.
  repeat match goal with |- context [if ?b then _ else _] => destruct b end;
    run_monad; unfold uuid4, datetime_now; cbn; try discriminate.
  intros [= <- <-]. repeat split; reflexivity.
Qed.

(** [save_preset] keeps the two maps consistent whatever its outcome: the
    preset is indexed only once it was written. *)
Lemma save_preset_keeps_index_consistent `{TextForms} cfg m :
  PresetManager.consistent m →
  PresetManager._presets m !! next_uuid (PresetManager.runtime_ m) = None →
  PresetManager.consistent (PresetManager.save_preset cfg m).2.
Proof.
  intros Hc Hfresh. unfold PresetManager.save_preset.
  destruct (PresetManager.cfg_name cfg) as [name|]; [|exact Hc].
  destruct (PresetManager.cfg_effects_chain_config cfg) as [config|]; [|exact Hc].
  unfold PresetManager._preset_name_exists. run_monad. cbn.
  case_bool_decide as Hdup; [exact Hc|].
  unfold PresetManager.in_runtime, PresetManager._save_to_file. run_monad. cbn.
  destruct (Preset.__init__ _ _ _ _ _ _ _) as [[p|e] r'] eqn:Hinit; cbn; [|exact Hc].
  destruct (preset_init_returns _ _ _ _ _ _ _ _ _ Hinit) as (Hid & Hname & _).
  destruct (PresetManager.writable m); cbn; [|exact Hc].
  destruct Hc as [Hn Hp]. split; cbn.
  - intros n i. rewrite lookup_insert. case_decide as E.
    + intros [= <-]. exists p. rewrite lookup_insert_eq. split; congruence.
    + intros Hni. destruct (Hn n i Hni) as (q & Hq & Hqn). exists q. split; [|exact Hqn].
      rewrite lookup_insert_ne; [exact Hq|].
      intros E'. rewrite <- E', Hid, Hfresh in Hq. discriminate.
  - intros i q. rewrite lookup_insert. case_decide as E.
    + intros [= <-]. rewrite lookup_insert_eq. congruence.
    + intros Hq. rewrite lookup_insert_ne; [now apply Hp|].
      intros E'. apply Hdup. rewrite <- Hname, E', (Hp i q Hq). eauto.
Qed.

Lemma store_one_consistent `{TextForms} : PresetManager.consistent Sample.store_one.
Proof.
  apply save_preset_keeps_index_consistent; [|reflexivity].
  split; cbn; intros ? ? Hl; now rewrite lookup_empty in Hl.
Qed.

(** C4, at the input where the code departs from it.  The store holds one
    preset, "Clean", and is consistent.  [update_preset] with the patch
    [{"name": ""}] raises "Invalid preset data"; the preset is still named
    "Clean", but the index has lost "Clean" and maps the empty name to it. *)
Theorem update_preset_failure_breaks_name_index `{TextForms} :
  PresetManager.consistent Sample.store_one ∧
  Preset.name <$> PresetManager._presets Sample.store_one !! 0%N = Some "Clean" ∧
  PresetManager._preset_names Sample.store_one !! "Clean" = Some 0%N ∧
  (PresetManager.update_preset 0 Sample.rename_to_empty Sample.store_one).1
  = Raise (InvalidPresetData PresetNameLength) ∧
  Preset.name <$>
    PresetManager._presets
      (PresetManager.update_preset 0 Sample.rename_to_empty Sample.store_one).2 !! 0%N
  = Some "Clean" ∧
  PresetManager._preset_names
    (PresetManager.update_preset 0 Sample.rename_to_empty Sample.store_one).2 !! "Clean"
  = None ∧
  PresetManager._preset_names
    (PresetManager.update_preset 0 Sample.rename_to_empty Sample.store_one).2 !! ""
  = Some 0%N ∧
  ¬ PresetManager.consistent
      (PresetManager.update_preset 0 Sample.rename_to_empty Sample.store_one).2.
Proof.
  assert (Hbroken :
    PresetManager._preset_names
      (PresetManager.update_preset 0 Sample.rename_to_empty Sample.store_one).2 !! ""
    = Some 0%N) by (vm_compute; reflexivity).
  assert (Hname :
    Preset.name <$>
      PresetManager._presets
        (PresetManager.update_preset 0 Sample.rename_to_empty Sample.store_one).2 !! 0%N
    = Some "Clean") by (vm_compute; reflexivity).
  repeat split; try (vm_compute; reflexivity); try exact Hbroken; try exact Hname.
  - apply store_one_consistent.
  - apply store_one_consistent.
  - intros [Hn _]. destruct (Hn "" 0%N Hbroken) as (p & Hp & Hp').
    rewrite Hp in Hname. cbn in Hname. congruence.
Qed.

(** ** Presets *)

(** C5, at the input where the code departs from it.  [copy ()] gives the
    duplicate a new id, the name "Clean (Copy)" and a configuration
    dictionary of its own, but that dictionary holds the same [effects] list
    as the original's: an assignment to a parameter reached through the
    duplicate, or an [append] to the duplicate's list of effects, changes what
    the original's configuration denotes. *)
Theorem preset_copy_shares_nested_configuration :
  (∃ before after original duplicate,
     (Sample.copy_then_assign Sample.objects_empty).1
     = Return (before, after, original, duplicate) ∧
     Preset.id original = 0%N ∧ Preset.id duplicate = 1%N ∧
     Preset.name original = "Clean" ∧ Preset.name duplicate = "Clean (Copy)" ∧
     Preset.effects_chain_config original = SRef 3 ∧
     Preset.effects_chain_config duplicate = SRef 4 ∧
     before = Some (VDict Sample.clean_config) ∧
     after = Some (VDict
       [ ("name", VStr "Lead");
         ("effects",
          VList [ VDict [ ("type", VStr "BOOST");
                          ("parameters",
                           VDict [("gain_db", VFloat 12.0); ("tone", VFloat 0.6)]);
                          ("bypassed", VBool false) ] ]) ]) ∧
     before ≠ after) ∧
  (Sample.copy_then_append Sample.objects_empty).1
  = Return
      (Some (VDict Sample.clean_config),
       Some (VDict
         [ ("name", VStr "Lead");
           ("effects",
            VList [ VDict [ ("type", VStr "BOOST");
                            ("parameters",
                             VDict [("gain_db", VFloat 6.0); ("tone", VFloat 0.6)]);
                            ("bypassed", VBool false) ];
                    VNone ]) ])).
Proof.
  split.
  - eexists _, _, _, _. split; [vm_compute; reflexivity|].
    repeat split; try reflexivity. discriminate.
  - vm_compute. reflexivity.
Qed.

(** ** Rebuilding a chain from a preset *)

Section KeepsName.
Import EffectsChain Inv.

Lemma keeps_name_ret {A} (a : A) : keeps_name (mret a).
Proof. intros s. reflexivity. Qed.

Lemma keeps_name_raise {A} e : keeps_name (raise e : M state A).
Proof. intros s. reflexivity. Qed.

Lemma keeps_name_lift {A} (o : outcome A) : keeps_name (lift o).
Proof. intros s. reflexivity. Qed.

Lemma keeps_name_in_heap {A} (m : M heap A) : keeps_name (in_heap m).
Proof. intros [c h]. unfold in_heap, zoom. cbn. now destruct (m h). Qed.

Lemma keeps_name_self : keeps_name self_.
Proof. intros s. reflexivity. Qed.

Lemma keeps_name_update f :
  (∀ c, name (f c) = name c) → keeps_name (update_self f).
Proof. intros Hf [c h]. cbn. apply Hf. Qed.

Lemma keeps_name_bind {A B} (m : M state A) (k : A → M state B) :
  keeps_name m → (∀ a, keeps_name (k a)) → keeps_name (m ≫= k).
Proof.
  intros Hm Hk s. unfold mbind, M_bind, bind. specialize (Hm s).
  destruct (m s) as [[a|e] s1]; cbn in *; [|exact Hm].
  rewrite (Hk a s1). exact Hm.
Qed.

Lemma keeps_name_modified_time : keeps_name _update_modified_time.
Proof.
  apply keeps_name_bind; [apply keeps_name_in_heap|].
  intros d. now apply keeps_name_update.
Qed.

Lemma keeps_name_add_effect effect : keeps_name (add_effect effect).
Proof.
  unfold add_effect. apply keeps_name_bind; [apply keeps_name_self|]. intros self.
  destruct (_ <=? _)%nat; [apply keeps_name_raise|].
  apply keeps_name_bind; [apply keeps_name_in_heap|]. intros [|]; [apply keeps_name_raise|].
  apply keeps_name_bind; [apply keeps_name_in_heap|]. intros _.
  apply keeps_name_bind; [now apply keeps_name_update|]. intros _.
  apply keeps_name_modified_time.
Qed.

Lemma keeps_name_restore items : keeps_name (Preset.restore_effects items).
Proof.
  induction items as [|d items IH]; [apply keeps_name_ret|].
  destruct d; try apply keeps_name_raise. cbn [Preset.restore_effects].
  apply keeps_name_bind; [apply keeps_name_lift|]. intros type_v.
  apply keeps_name_bind; [apply keeps_name_lift|]. intros effect_type.
  apply keeps_name_bind; [apply keeps_name_in_heap|]. intros e.
  apply keeps_name_bind; [apply keeps_name_in_heap|]. intros effect.
  apply keeps_name_bind; [apply keeps_name_in_heap|]. intros _.
  apply keeps_name_bind.
  { destruct (dict_get "preset_name" d); [apply keeps_name_in_heap | apply keeps_name_ret]. }
  intros _. apply keeps_name_bind; [apply keeps_name_add_effect|]. intros _. exact IH.
Qed.

End KeepsName.

Lemma chain_init_returns name r c r' :
  EffectsChain.__init__ name r = (Return c, r') →
  EffectsChain.name c = name ∧ EffectsChain.effects c = [].
Proof.
  unfold EffectsChain.__init__. destruct (_ || _); [discriminate|].
  unfold mbind, M_bind, bind, uuid4, datetime_now, mret, M_ret, ret. cbn.
  intros [= <- _]. split; reflexivity.
Qed.

(** C9: whenever [to_effects_chain] returns a chain, the chain bears the
    preset's own name, whatever name is stored in [effects_chain_config]. *)
Theorem to_effects_chain_named_after_preset
        (p : Preset.t dict) (h h' : heap) (c : EffectsChain.t) :
  Preset.to_effects_chain p h = (Return c, h') →
  EffectsChain.name c = Preset.name p.
Proof.
  unfold Preset.to_effects_chain, with_runtime, zoom, mbind, M_bind, bind, lift.
  destruct (EffectsChain.__init__ (Preset.name p) (rt h)) as [[chain|e] r1] eqn:Hinit;
    [|discriminate].
  destruct (chain_init_returns _ _ _ _ Hinit) as [Hname _].
  destruct (py_iter _) as [items|]; [|discriminate].
  unfold EffectsChain.building.
  pose proof (keeps_name_restore items (chain, Heap r1 (effect_objs h) (next_loc h))) as Hk.
  destruct (Preset.restore_effects items _) as [[[]|e] [chain' h1]]; [|discriminate].
  intros [= <- _]. cbn in Hk. congruence.
Qed.

Lemma to_effects_chain_named_after_preset_witness :
  ∃ c h',
    Preset.to_effects_chain Sample.clean Sample.h0 = (Return c, h') ∧
    dict_get "name" (Preset.effects_chain_config Sample.clean) = Some (VStr "Lead") ∧
    EffectsChain.name c = Preset.name Sample.clean.
Proof.
  eexists _, _. split; [vm_compute; reflexivity|]. split; [reflexivity|].
  apply (to_effects_chain_named_after_preset Sample.clean Sample.h0
           (Preset.to_effects_chain Sample.clean Sample.h0).2).
  vm_compute. reflexivity.
Defined.

Lemma EffectType_of_value K :
  AudioEffect.EffectType_of (VStr (AudioEffect.EffectType_value K)) = Return K.
Proof. destruct K; reflexivity. Qed.

Lemma chain_init_ok name r :
  (1 ≤ String.length name ≤ 50)%nat →
  EffectsChain.__init__ name r
  = (Return (EffectsChain.Make (next_uuid r) name [] (VBool false) (clock r)
                               (N.succ (clock r))),
     Runtime (N.succ (next_uuid r)) (N.succ (N.succ (clock r)))).
Proof.
  intros [Hlo Hhi]. unfold EffectsChain.__init__.
  assert (H1 : negb (truthy (VStr name)) || (String.length name <? 1)%nat
               || (50 <? String.length name)%nat = false).
  { destruct name as [|c name]; [cbn in Hlo; lia|]. cbn [truthy String.eqb negb orb].
    apply orb_false_iff. split; apply Nat.ltb_ge; lia. }
  rewrite H1. reflexivity.
Qed.

(** The duplicate check of [add_effect] on an effect that is neither in the
    chain nor shares an id with one that is. *)
Lemma contains_absent effect e xs h :
  effect_objs h !! effect = Some e →
  (∀ x, x ∈ xs → x ≠ effect ∧
        ∃ a, effect_objs h !! x = Some a ∧ AudioEffect.id a ≠ AudioEffect.id e) →
  EffectsChain.contains effect xs h = (Return false, h).
Proof.
  intros He. induction xs as [|x xs IH]; intros Hxs; [reflexivity|].
  destruct (Hxs x (list_elem_of_here _ _)) as (Hne & a & Ha & Hid).
  cbn [EffectsChain.contains]. apply Nat.eqb_neq in Hne. rewrite Hne.
  unfold mbind, M_bind, bind, deref. rewrite Ha, He.
  unfold AudioEffect.eq. apply N.eqb_neq in Hid. rewrite Hid.
  apply IH. intros y Hy. apply Hxs. now apply list_elem_of_further.
Qed.

(** [add_effect] of such an effect to a chain that has room: the effect is
    given the next position and goes last. *)
Lemma add_effect_new effect e chain h :
  effect_objs h !! effect = Some e →
  (length (EffectsChain.effects chain) < EffectsChain.MAX_EFFECTS)%nat →
  (∀ x, x ∈ EffectsChain.effects chain → x ≠ effect ∧
        ∃ a, effect_objs h !! x = Some a ∧ AudioEffect.id a ≠ AudioEffect.id e) →
  EffectsChain.add_effect effect (chain, h) =
  (Return tt,
   (EffectsChain.set_modified_at (clock (rt h))
      (EffectsChain.set_effects (EffectsChain.effects chain ++ [effect]) chain),
    Heap (Runtime (next_uuid (rt h)) (N.succ (clock (rt h))))
         (<[effect := AudioEffect.store_position
                        (VInt (Z.of_nat (length (EffectsChain.effects chain)))) e]>
            (effect_objs h))
         (next_loc h))).
Proof.
  intros He Hlen Hxs. unfold EffectsChain.add_effect.
  unfold mbind, M_bind, bind, EffectsChain.self_. cbn [fst snd].
  apply Nat.leb_gt in Hlen. rewrite Hlen.
  unfold EffectsChain.in_heap, zoom. cbn [fst snd].
  rewrite (contains_absent effect e _ h He Hxs).
  cbn [fst snd]. unfold on_effect. rewrite He.
  unfold AudioEffect.set_position. cbn [is_number negb num_lt py_num].
  assert (Hpos : Qltb (inject_Z (Z.of_nat (length (EffectsChain.effects chain)))) 0 = false).
  { unfold Qltb. apply negb_false_iff. apply Qle_bool_iff.
    unfold Qle. cbn. lia. }
  rewrite Hpos. reflexivity.
Qed.

(** One turn of the loop of [to_effects_chain] on a well-formed descriptor. *)
Lemma restore_step cfg K rest chain h :
  dict_get "type" cfg = Some (VStr (AudioEffect.EffectType_value K)) →
  (dict_get "parameters" cfg = None ∨ ∃ O, dict_get "parameters" cfg = Some (VDict O)) →
  Spec.respects_schema K (Spec.descriptor_params cfg) →
  Inv.chain_wf (chain, h) →
  (length (EffectsChain.effects chain) < EffectsChain.MAX_EFFECTS)%nat →
  ∃ e chain' h',
    Preset.restore_effects (VDict cfg :: rest) (chain, h)
    = Preset.restore_effects rest (chain', h') ∧
    EffectsChain.effects chain' = (EffectsChain.effects chain ++ [next_loc h])%list ∧
    effect_objs h' !! next_loc h = Some e ∧
    Spec.restores e (VDict cfg) ∧
    (∀ x, x ≠ next_loc h → effect_objs h' !! x = effect_objs h !! x) ∧
    Inv.chain_wf (chain', h').
Proof.
  intros Hty Hpar Hschema Hwf Hlen.
  destruct (init_overrides K _ (rt h) Hschema) as (ps & Hinit & Hps).
  set (e0 := AudioEffect.Make (next_uuid (rt h)) K (VBool false) (VInt 0) VNone ps) in *.
  set (b := dict_get_default "bypassed" (VBool false) cfg).
  set (e1 := AudioEffect.Make (next_uuid (rt h)) K b (VInt 0) VNone ps).
  set (e2 := match dict_get "preset_name" cfg with
             | Some n => AudioEffect.Make (next_uuid (rt h)) K b (VInt 0) n ps
             | None => e1
             end).
  set (l := next_loc h).
  set (h2 := Heap (Runtime (N.succ (next_uuid (rt h))) (clock (rt h)))
                  (<[l := e2]> (effect_objs h)) (S l)).
  assert (Hpv : dict_get_default "parameters" (VDict []) cfg
                = VDict (Spec.descriptor_params cfg)).
  { unfold dict_get_default, Spec.descriptor_params.
    destruct Hpar as [-> | [O ->]]; reflexivity. }
  assert (Hrun : Preset.restore_effects (VDict cfg :: rest) (chain, h)
                 = (EffectsChain.add_effect l ;; Preset.restore_effects rest) (chain, h2)).
  { cbn [Preset.restore_effects]. unfold mbind at 1 2 3 4 5 6, M_bind, bind, lift.
    rewrite Hty, EffectType_of_value, Hpv.
    unfold EffectsChain.in_heap, with_runtime, zoom. cbn [fst snd]. rewrite Hinit.
    unfold alloc, on_effect. cbn [fst snd rt effect_objs next_loc].
    rewrite lookup_insert_eq. cbn [AudioEffect.set_bypassed modify].
    cbn [fst snd rt effect_objs next_loc]. rewrite insert_insert_eq.
    fold l. subst h2 e2 e1 b.
    destruct (dict_get "preset_name" cfg) as [n|].
    - cbn [fst snd rt effect_objs next_loc]. rewrite lookup_insert_eq.
      cbn [AudioEffect.set_preset_name modify fst snd rt effect_objs next_loc].
      rewrite insert_insert_eq. reflexivity.
    - reflexivity. }
  assert (Hl2 : effect_objs h2 !! l = Some e2) by apply lookup_insert_eq.
  assert (Hid2 : AudioEffect.id e2 = next_uuid (rt h)).
  { subst e2 e1. now destruct (dict_get "preset_name" cfg). }
  assert (Hold : ∀ x, x ∈ EffectsChain.effects chain →
            x ≠ l ∧ ∃ a, effect_objs h2 !! x = Some a ∧ AudioEffect.id a ≠ AudioEffect.id e2).
  { intros x Hx. destruct (Hwf x Hx) as (Hxl & a & Ha & Hida). cbn in Hxl, Hida.
    assert (x ≠ l) by (unfold l; lia). split; [assumption|].
    exists a. split; [cbn; now rewrite lookup_insert_ne|]. rewrite Hid2. lia. }
  pose proof (add_effect_new l e2 chain h2 Hl2 Hlen Hold) as Hadd.
  eexists _, _, _. split; [|split; [|split; [|split; [|split]]]].
  - rewrite Hrun. unfold mbind, M_bind, bind. rewrite Hadd. reflexivity.
  - reflexivity.
  - cbn. apply lookup_insert_eq.
  - assert (He2 : AudioEffect.type e2 = K ∧ AudioEffect.bypassed e2 = b ∧
                  AudioEffect.parameters e2 = ps).
    { subst e2 e1. destruct (dict_get "preset_name" cfg); repeat split. }
    destruct He2 as (Ht2 & Hb2 & Hp2).
    exists cfg, K.
    cbn [AudioEffect.type AudioEffect.bypassed AudioEffect.parameters
         AudioEffect.store_position].
    rewrite Hp2. split; [reflexivity|]. split; [exact Hty|]. split; [exact Ht2|].
    split; [exact Hb2 | exact Hps].
  - intros x Hx. cbn. rewrite !lookup_insert_ne by congruence. reflexivity.
  - intros x Hx. cbn in Hx |- *. apply elem_of_app in Hx as [Hx|Hx].
    + destruct (Hold x Hx) as (Hne & a & Ha & _).
      destruct (Hwf x Hx) as (Hxl & a' & Ha' & Hida).
      cbn in Hxl, Hida. split; [lia|]. exists a'. split; [|lia].
      rewrite !lookup_insert_ne by congruence. exact Ha'.
    + apply list_elem_of_singleton in Hx as ->. split; [unfold l; lia|].
      eexists. split; [apply lookup_insert_eq|].
      change (AudioEffect.id e2 < N.succ (next_uuid (rt h)))%N. lia.
Qed.

(** The whole loop on well-formed descriptors that fit in the chain. *)
Lemma restore_all items : ∀ chain h done,
  Forall Spec.descriptor_ok items →
  Inv.chain_wf (chain, h) →
  (length (EffectsChain.effects chain) + length items ≤ EffectsChain.MAX_EFFECTS)%nat →
  Forall2 (Inv.restored_at h) (EffectsChain.effects chain) done →
  ∃ chain' h',
    Preset.restore_effects items (chain, h) = (Return tt, (chain', h')) ∧
    Forall2 (Inv.restored_at h') (EffectsChain.effects chain') (done ++ items)%list.
Proof.
  induction items as [|d items IH]; intros chain h done Hok Hwf Hlen Hdone.
  - exists chain, h. split; [reflexivity|]. now rewrite app_nil_r.
  - apply Forall_cons in Hok as [(cfg & K & -> & Hty & Hpar & Hschema) Hok].
    cbn [length] in Hlen.
    destruct (restore_step cfg K items chain h Hty Hpar Hschema Hwf ltac:(lia))
      as (e & chain1 & h1 & Hrun & Heff & He & Hres & Hsame & Hwf1).
    assert (Hnext : (next_loc h < next_loc h1)%nat).
    { destruct (Hwf1 (next_loc h)) as [Hlt _]; [|exact Hlt].
      cbn. rewrite Heff. apply elem_of_app. right. apply list_elem_of_here. }
    destruct (IH chain1 h1 (done ++ [VDict cfg])%list Hok Hwf1)
      as (chain' & h' & Hrun' & Hall).
    + rewrite Heff, length_app. cbn. lia.
    + rewrite Heff. apply Forall2_app.
      * eapply Forall2_impl; [exact Hdone|]. intros l d (Hl & e' & He' & Hd).
        split; [lia|]. exists e'. split; [|exact Hd]. rewrite Hsame by lia. exact He'.
      * constructor; [|constructor]. split; [exact Hnext|]. eauto.
    + exists chain', h'. split; [now rewrite Hrun|]. now rewrite <- app_assoc in Hall.
Qed.

Lemma preset_init_ok {C} name (config : C) description tags author version r :
  (1 ≤ String.length name ≤ 100)%nat →
  match description with Some d => (String.length d ≤ 500)%nat | None => True end →
  Forall (λ tag, Preset.tag_matches tag = true) tags →
  Preset.__init__ name config description (Some tags) author version r
  = (Return (Preset.Make (next_uuid r) name description config (clock r)
                         (N.succ (clock r)) tags author version),
     Runtime (N.succ (next_uuid r)) (N.succ (N.succ (clock r)))).
Proof.
  intros [Hlo Hhi] Hd Ht. unfold Preset.__init__.
  assert (H1 : negb (truthy (VStr name)) || (String.length name <? 1)%nat
               || (100 <? String.length name)%nat = false).
  { destruct name as [|c name]; [cbn in Hlo; lia|]. cbn [truthy String.eqb negb orb].
    apply orb_false_iff. split; apply Nat.ltb_ge; lia. }
  rewrite H1.
  assert (H2 : match description with
               | Some d => (500 <? String.length d)%nat
               | None => false
               end = false).
  { destruct description; [apply Nat.ltb_ge; lia | reflexivity]. }
  rewrite H2.
  assert (H3 : negb (forallb Preset.tag_matches tags) = false).
  { apply negb_false_iff, forallb_forall. intros x Hx. rewrite Forall_forall in Ht.
    apply Ht. now apply list_elem_of_In. }
  rewrite H3. reflexivity.
Qed.

Lemma strs_of_strs l : Preset.strs_of (VStr <$> l) = Return l.
Proof. induction l as [|s l IH]; [reflexivity|]. cbn. now rewrite IH. Qed.

Lemma opt_str_of_opt_str o : Preset.opt_str_of (Preset.opt_str o) = Return o.
Proof. now destruct o. Qed.

(** Serializing a preset and reading it back gives the preset itself. *)
Lemma from_json_to_json `{TextForms} (P : Preset.t dict) r :
  Spec.constructed P →
  Preset.from_json (Preset.to_json P) r
  = (Return P, Runtime (N.succ (next_uuid r)) (N.succ (N.succ (clock r)))).
Proof.
  intros (Hname & Hdesc & Htags).
  unfold Preset.from_json, Preset.to_json, Preset.from_dict, Preset.to_dict, rethrow.
  unfold mbind, M_bind, bind, lift, mret, M_ret, ret.
  cbn [Preset.dict_of Preset.item dict_get dict_get_default String.eqb Ascii.eqb Bool.eqb
       Preset.name_of Preset.str_of Preset.tags_of].
  rewrite !opt_str_of_opt_str.
  change (map VStr (Preset.tags P)) with (VStr <$> Preset.tags P).
  rewrite strs_of_strs.
  rewrite (preset_init_ok _ _ _ _ _ _ r Hname Hdesc Htags).
  unfold UUID_of_value, fromisoformat_value.
  rewrite uuid_parse_str, !fromisoformat_isoformat.
  destruct P; reflexivity.
Qed.

(** What the constructor of [Preset] returns, when it returns. *)
Lemma preset_init_constructed {C} name (config : C) description tags author version r p r' :
  Preset.__init__ name config description tags author version r = (Return p, r') →
  Spec.constructed p ∧
  p = Preset.Make (next_uuid r) name description config (clock r) (N.succ (clock r))
                  (match tags with Some l => l | None => [] end) author version ∧
  r' = Runtime (N.succ (next_uuid r)) (N.succ (N.succ (clock r))).
Proof.
  unfold Preset.__init__.
  destruct (truthy (VStr name)) eqn:Ht; [|discriminate].
  destruct (Nat.ltb_spec (String.length name) 1) as [|Hlo]; [discriminate|].
  destruct (Nat.ltb_spec 100 (String.length name)) as [|Hhi]; [discriminate|].
  cbn [negb orb].
  destruct (match description with Some d => (500 <? String.length d)%nat | None => false end)
    eqn:Hd; [discriminate|].
  destruct (match tags with Some l => negb (forallb Preset.tag_matches l) | None => false end)
    eqn:Hg; [discriminate|].
  intros [= <- <-]. split; [|split; reflexivity].
  split; [cbn; lia|]. split; cbn [Preset.description Preset.tags].
  - destruct description as [d|]; [|exact I]. apply Nat.ltb_ge in Hd. exact Hd.
  - destruct tags as [l|]; [|constructor]. apply negb_false_iff in Hg.
    apply Forall_forall. intros tag Htag.
    apply (proj1 (forallb_forall _ _) Hg). now apply list_elem_of_In.
Qed.

(** Only a preset that passes the constructor's checks is read back. *)
Lemma from_json_to_json_inv `{TextForms} (P P' : Preset.t dict) r r' :
  Preset.from_json (Preset.to_json P) r = (Return P', r') → Spec.constructed P.
Proof.
  unfold Preset.from_json, Preset.to_json, Preset.from_dict, Preset.to_dict, rethrow.
  unfold mbind, M_bind, bind, lift, mret, M_ret, ret.
  cbn [Preset.dict_of Preset.item dict_get dict_get_default String.eqb Ascii.eqb Bool.eqb
       Preset.name_of Preset.str_of Preset.tags_of].
  rewrite !opt_str_of_opt_str.
  change (map VStr (Preset.tags P)) with (VStr <$> Preset.tags P).
  rewrite strs_of_strs.
  destruct (Preset.__init__ _ _ _ _ _ _ r) as [[p0|e] r0] eqn:Hinit; [|discriminate].
  apply preset_init_constructed in Hinit as (Hc & -> & _). intros _. exact Hc.
Qed.

(** The loop of [to_effects_chain], one descriptor at a time. *)
Lemma restore_effects_cons x rest s :
  Preset.restore_effects (x :: rest) s
  = match Preset.restore_effects [x] s with
    | (Return _, s') => Preset.restore_effects rest s'
    | (Raise e, s') => (Raise e, s')
    end.
Proof.
  destruct x as [| | | | | | | |cfg]; try reflexivity.
  cbn [Preset.restore_effects]. unfold mbind, M_bind, bind, lift, mret, M_ret, ret.
  destruct (dict_get "type" cfg); [|reflexivity].
  destruct (AudioEffect.EffectType_of _); [|reflexivity].
  destruct (EffectsChain.in_heap (with_runtime _) s) as [[e|] s1]; [|reflexivity].
  destruct (EffectsChain.in_heap (alloc e) s1) as [[l|] s2]; [|reflexivity].
  destruct (EffectsChain.in_heap (on_effect l _) s2) as [[[]|] s3]; [|reflexivity].
  destruct (match dict_get "preset_name" cfg with
            | Some n => EffectsChain.in_heap (on_effect l (AudioEffect.set_preset_name n))
            | None => λ s, (Return (), s)
            end s3) as [[[]|] s4]; [|reflexivity].
  destruct (EffectsChain.add_effect l s4) as [[[]|] s5]; reflexivity.
Qed.

(** An item that [update_parameters] refuses makes it raise, at that item
    or at an earlier one. *)
Lemma update_loop_refused kind defs items :
  Exists (λ kv, is_Return (AudioEffect.check_item kind defs kv.1 kv.2) ≠ true) items →
  ∀ self, ∃ e self', AudioEffect.update_loop kind defs items self = (Raise e, self').
Proof.
  induction items as [|[k v] items IH]; intros Hex self.
  - now apply Exists_nil in Hex.
  - cbn [AudioEffect.update_loop]. unfold mbind, M_bind, bind, lift, modify.
    destruct (AudioEffect.check_item kind defs k v) as [w|e] eqn:Hc; [|eauto].
    apply Exists_cons in Hex as [Hhd|Htl].
    + cbn [fst snd] in Hhd. rewrite Hc in Hhd. now contradiction Hhd.
    + apply IH. exact Htl.
Qed.

Lemma init_refused K O r :
  Exists (λ kv, ¬ Spec.accepted K kv) O →
  ∃ e r', AudioEffect.__init__ (AudioEffect.Member K) (VDict O) r = (Raise e, r').
Proof.
  intros Hex. unfold AudioEffect.__init__, mbind, M_bind, bind, lift, uuid4.
  cbn [AudioEffect.resolve_kind].
  assert (Ht : truthy (VDict O) = true).
  { destruct O; [now apply Exists_nil in Hex|reflexivity]. }
  rewrite Ht. unfold AudioEffect.update_parameters, mbind, M_bind, bind, get.
  cbn [AudioEffect.type].
  match goal with
  | |- context [AudioEffect.update_loop ?k ?d O ?self] =>
      destruct (update_loop_refused k d O Hex self) as (e & self' & ->)
  end.
  eauto.
Qed.

Lemma restore_refused_one d s :
  Spec.descriptor_refused d → ∃ e s', Preset.restore_effects [d] s = (Raise e, s').
Proof.
  intros (cfg & type_v & -> & Hty & Hbad). destruct s as [chain h].
  cbn [Preset.restore_effects]. unfold mbind at 1, M_bind, bind, lift. rewrite Hty.
  unfold mbind at 1, M_bind, bind.
  destruct Hbad as [->|(K & O & -> & Hpar & Hex)]; [eauto|].
  unfold mbind at 1, M_bind, bind, EffectsChain.in_heap, with_runtime, zoom.
  cbn [fst snd]. unfold dict_get_default. rewrite Hpar.
  destruct (init_refused K O (rt h) Hex) as (e & r' & ->). eauto.
Qed.

(** The loop stops at a descriptor it cannot rebuild, or earlier. *)
Lemma restore_effects_refused items :
  Exists Spec.descriptor_refused items →
  ∀ s, ∃ e s', Preset.restore_effects items s = (Raise e, s').
Proof.
  induction items as [|d items IH]; intros Hex s.
  - now apply Exists_nil in Hex.
  - rewrite restore_effects_cons. apply Exists_cons in Hex as [Hhd|Htl].
    + destruct (restore_refused_one d s Hhd) as (e & s' & ->). eauto.
    + destruct (Preset.restore_effects [d] s) as [[[]|e] s1]; [now apply IH|eauto].
Qed.

(** C1, as amended: for a preset that can be restored (a name of at most
    50 characters, at most 8 descriptors, each naming a kind, with parameters
    that respect its schema), serializing, reading back and rebuilding
    returns a chain with one effect per descriptor, in order; each effect has
    the descriptor's kind and bypassed flag, and its parameters are the
    schema defaults overridden by the descriptor's, equal to the descriptor's
    own whenever it gives every field of the schema.  For any preset one of
    whose descriptors names an unknown kind, or holds a parameter that
    [update_parameters] refuses, the same call raises instead. *)
Theorem round_trip_restores_descriptors `{TextForms} (P : Preset.t dict) (h : heap) :
  (Spec.restorable P →
   ∃ c h',
     Spec.round_trip P h = (Return c, h') ∧
     EffectsChain.name c = Preset.name P ∧
     Forall2 (λ l d, ∃ e, effect_objs h' !! l = Some e ∧ Spec.restores e d)
             (EffectsChain.effects c) (Spec.descriptors P)) ∧
  (Exists Spec.descriptor_refused (Spec.descriptors P) →
   ∃ e h', Spec.round_trip P h = (Raise e, h')).
Proof.
  split.
  - intros (Hcons & Hname & (ds & Hds) & Hlen & Hok).
    pose proof Hcons as ((Hlo & _) & _).
    unfold Spec.round_trip, with_runtime, zoom.
    unfold mbind at 1, M_bind, bind.
    rewrite (from_json_to_json P (rt h) Hcons).
    unfold Preset.to_effects_chain, with_runtime, zoom, mbind, M_bind, bind, lift.
    cbn [rt effect_objs next_loc].
    rewrite chain_init_ok by lia.
    unfold Spec.descriptors in Hlen, Hok |- *. rewrite Hds in Hlen, Hok |- *.
    cbn [py_iter]. unfold EffectsChain.building.
    match goal with
    | |- context [Preset.restore_effects ds (?c0, ?h0)] =>
        destruct (restore_all ds c0 h0 []) as (chain' & h' & Hrun & Hall)
    end.
    + exact Hok.
    + intros l Hl. now apply elem_of_nil in Hl.
    + cbn. lia.
    + constructor.
    + rewrite Hrun. exists chain', h'. split; [reflexivity|]. split.
      * match type of Hrun with
        | Preset.restore_effects ds ?s = _ =>
            pose proof (keeps_name_restore ds s) as Hk
        end.
        rewrite Hrun in Hk. exact Hk.
      * eapply Forall2_impl; [exact Hall|]. intros l d (_ & e & He & Hd). eauto.
  - intros Hex.
    unfold Spec.round_trip, with_runtime, zoom.
    unfold mbind at 1, M_bind, bind.
    destruct (Preset.from_json (Preset.to_json P) (rt h)) as [[P'|e] r'] eqn:Hread;
      [|eauto].
    pose proof (from_json_to_json_inv P P' _ _ Hread) as Hcons.
    rewrite (from_json_to_json P (rt h) Hcons) in Hread. injection Hread as <- <-.
    unfold Preset.to_effects_chain, with_runtime, zoom, mbind, M_bind, bind, lift.
    cbn [rt effect_objs next_loc].
    destruct (EffectsChain.__init__ (Preset.name P) _) as [[chain|e] r1]; [|eauto].
    unfold Spec.descriptors in Hex.
    destruct (dict_get_default "effects" (VList []) (Preset.effects_chain_config P))
      as [| | | | | | |ds|]; try (now apply Exists_nil in Hex).
    cbn [py_iter]. unfold EffectsChain.building.
    match goal with
    | |- context [Preset.restore_effects ds ?s] =>
        destruct (restore_effects_refused ds Hex s) as (e & [chain' h'] & ->)
    end.
    eauto.
Qed.

Lemma round_trip_restores_descriptors_witness :
  (∃ c h',
     Spec.round_trip Sample.clean Sample.h0 = (Return c, h') ∧
     EffectsChain.name c = Preset.name Sample.clean ∧
     Forall2 (λ l d, ∃ e, effect_objs h' !! l = Some e ∧ Spec.restores e d)
             (EffectsChain.effects c) (Spec.descriptors Sample.clean)) ∧
  (∃ e h', Spec.round_trip Sample.hot Sample.h0 = (Raise e, h')) ∧
  (∃ e h', Spec.round_trip Sample.fuzz Sample.h0 = (Raise e, h')).
Proof.
  split; [|split].
  - apply (proj1 (round_trip_restores_descriptors Sample.clean Sample.h0)).
    split; [|split; [|split; [|split]]].
    + split; [cbn; lia|]. split; [exact I|]. repeat constructor.
    + cbn. lia.
    + eexists. reflexivity.
    + vm_compute. lia.
    + constructor; [|constructor].
      eexists _, BOOST. split; [reflexivity|]. split; [reflexivity|].
      split; [right; eexists; reflexivity|]. split.
      * apply (bool_decide_unpack _). vm_compute. reflexivity.
      * repeat constructor.
        -- eexists. split; [reflexivity|]. exists 6.0%Q. split; [reflexivity|].
           split; discriminate.
        -- eexists. split; [reflexivity|]. exists 0.6%Q. split; [reflexivity|].
           split; discriminate.
  - apply (proj2 (round_trip_restores_descriptors Sample.hot Sample.h0)).
    apply Exists_cons_hd. eexists _, _. split; [reflexivity|]. split; [reflexivity|].
    right. exists BOOST, [("gain_db", VFloat 31.0)].
    split; [reflexivity|]. split; [reflexivity|].
    apply Exists_cons_hd. discriminate.
  - apply (proj2 (round_trip_restores_descriptors Sample.fuzz Sample.h0)).
    apply Exists_cons_tl, Exists_cons_hd.
    eexists _, _. split; [reflexivity|]. split; [reflexivity|]. left. reflexivity.
Defined.

(** C1 as stated fails on presets the constructor accepts.  A stored
    [gain_db] of 31.0 is refused when the chain is rebuilt, so no chain
    comes back; and for a descriptor that gives [gain_db] alone the rebuilt
    effect also has [tone], at its default, so its parameters are not the
    descriptor's. *)
Lemma round_trip_fails_or_fills_in :
  Spec.constructed Sample.hot ∧
  (Spec.round_trip Sample.hot Sample.h0).1 = Raise (OutOfRange "gain_db" (-20.0) 30.0) ∧
  Spec.constructed Sample.sparse ∧
  ∃ c h' e,
    Spec.round_trip Sample.sparse Sample.h0 = (Return c, h') ∧
    EffectsChain.effects c = [0%nat] ∧
    effect_objs h' !! 0%nat = Some e ∧
    Spec.descriptors Sample.sparse
    = [VDict [("type", VStr "BOOST"); ("parameters", VDict [("gain_db", VFloat 6.0)])]] ∧
    AudioEffect.parameters e = [("gain_db", VFloat 6.0); ("tone", VFloat 0.5)] ∧
    py_eq (VDict [("gain_db", VFloat 6.0)]) (VDict (AudioEffect.parameters e)) = false.
Proof.
  split; [|split; [|split]].
  - split; [cbn; lia|]. split; [exact I | constructor].
  - vm_compute. reflexivity.
  - split; [cbn; lia|]. split; [exact I | constructor].
  - eexists _, _, _. split; [vm_compute; reflexivity|].
    split; [reflexivity|]. split; [vm_compute; reflexivity|].
    split; [reflexivity|]. split; reflexivity.
Qed.

(** ** The chain's mutators and its invariant *)

Section ChainInvariant.
Import EffectsChain Inv.

Lemma find_by_id_spec u xs h :
  (∀ l, l ∈ xs → is_Some (effect_objs h !! l)) →
  find_by_id u xs h = (Return (find (has_id h u) xs), h).
Proof.
  induction xs as [|x xs IH]; intros Hall; [reflexivity|].
  destruct (Hall x (list_elem_of_here _ _)) as [e He].
  cbn [find_by_id find]. unfold mbind, M_bind, bind, deref. rewrite He.
  unfold has_id at 1, id_at. rewrite He. cbn [fmap option_fmap option_map].
  destruct (N.eqb_spec (AudioEffect.id e) u) as [->|Hne].
  - rewrite bool_decide_eq_true_2 by reflexivity. reflexivity.
  - rewrite bool_decide_eq_false_2 by congruence.
    apply IH. intros l Hl. apply Hall. now apply list_elem_of_further.
Qed.

Lemma collect_spec current : ∀ ids acc h,
  (∀ l, l ∈ current → is_Some (effect_objs h !! l)) →
  collect current ids acc h =
  match mapM (λ u, find (has_id h u) current) ids with
  | Some ls => (Return (acc ++ ls)%list, h)
  | None => (Raise IdNotInChain, h)
  end.
Proof.
  induction ids as [|u ids IH]; intros acc h Hall.
  - cbn. now rewrite app_nil_r.
  - cbn [collect mapM]. unfold mbind at 1, M_bind, bind.
    rewrite (find_by_id_spec u current h Hall).
    destruct (find (has_id h u) current) as [l|] eqn:Hf; cbn; [|reflexivity].
    rewrite (IH _ _ Hall).
    destruct (mapM _ ids) as [ls|]; cbn; [|reflexivity].
    now rewrite <- app_assoc.
Qed.

(** X1: [reorder_effects] with a list of another length, or naming an id that
    no effect of the chain has, is refused, and nothing changes. *)
Theorem reorder_effects_refuses_foreign_ids (effect_ids : list UUID) (s : state) :
  allocated s →
  length effect_ids ≠ length (effects s.1) ∨
  (∃ u, u ∈ effect_ids ∧ ∀ l, l ∈ effects s.1 → id_at s.2 l ≠ Some u) →
  ∃ e, reorder_effects effect_ids s = (Raise e, s) ∧
       (e = IdListLength ∨ e = IdNotInChain).
Proof.
  intros Hall Hbad. destruct s as [chain h]. unfold reorder_effects.
  unfold mbind at 1, M_bind, bind, self_. cbn [fst snd] in *.
  destruct (Nat.eqb_spec (length effect_ids) (length (effects chain))) as [Hlen|Hlen]; cbn [negb].
  - destruct Hbad as [Hbad|(u & Hu & Hnone)]; [contradiction|].
    unfold mbind, M_bind, bind, in_heap, zoom. cbn [fst snd].
    rewrite (collect_spec _ _ _ _ Hall).
    destruct (mapM _ effect_ids) as [ls|] eqn:Hm; [|eauto].
    exfalso. apply mapM_Some_1 in Hm.
    apply list_elem_of_lookup in Hu as [i Hi].
    destruct (Forall2_lookup_l _ _ _ _ _ Hm Hi) as (l & _ & Hl).
    apply find_some in Hl as [Hin Hid]. apply list_elem_of_In in Hin.
    unfold has_id in Hid. apply bool_decide_eq_true in Hid. now apply (Hnone l).
  - eauto.
Qed.

Lemma set_position_index (i : nat) e :
  AudioEffect.set_position (VInt (Z.of_nat i)) e
  = (Return tt, AudioEffect.store_position (VInt (Z.of_nat i)) e).
Proof.
  unfold AudioEffect.set_position. cbn [is_number negb num_lt py_num].
  assert (Hpos : Qltb (inject_Z (Z.of_nat i)) 0 = false).
  { unfold Qltb. apply negb_false_iff, Qle_bool_iff. unfold Qle. cbn. lia. }
  now rewrite Hpos.
Qed.

Lemma set_positions_from_spec ls : ∀ i h,
  NoDup ls →
  (∀ l, l ∈ ls → is_Some (effect_objs h !! l)) →
  ∃ objs',
    set_positions_from i ls h = (Return tt, Heap (rt h) objs' (next_loc h)) ∧
    (∀ j l, ls !! j = Some l →
       ∃ e, effect_objs h !! l = Some e ∧
            objs' !! l = Some (AudioEffect.store_position (VInt (Z.of_nat (i + j))) e)) ∧
    (∀ l, l ∉ ls → objs' !! l = effect_objs h !! l).
Proof.
  induction ls as [|x ls IH]; intros i h Hnd Hall.
  - exists (effect_objs h). split; [now destruct h|]. split; [|reflexivity].
    intros j l Hj. now rewrite lookup_nil in Hj.
  - apply NoDup_cons in Hnd as [Hx Hnd].
    destruct (Hall x (list_elem_of_here _ _)) as [e He].
    set (h1 := Heap (rt h) (<[x := AudioEffect.store_position (VInt (Z.of_nat i)) e]>
                              (effect_objs h)) (next_loc h)).
    destruct (IH (S i) h1 Hnd) as (objs' & Hrun & Hin & Hout).
    { intros l Hl. cbn. rewrite lookup_insert_ne; [apply Hall; now apply list_elem_of_further|].
      intros ->. contradiction. }
    exists objs'. split; [|split].
    + cbn [set_positions_from]. unfold mbind, M_bind, bind, on_effect.
      rewrite He, set_position_index. exact Hrun.
    + intros [|j] l Hj; cbn in Hj.
      * injection Hj as <-. exists e. split; [exact He|].
        rewrite (Hout x Hx). cbn. rewrite lookup_insert_eq. do 3 f_equal. lia.
      * destruct (Hin j l Hj) as (e1 & He1 & Hl).
        assert (l ≠ x).
        { intros ->. apply Hx. apply list_elem_of_lookup. eauto. }
        cbn in He1. rewrite lookup_insert_ne in He1 by congruence.
        exists e1. split; [exact He1|]. rewrite Hl. do 3 f_equal. lia.
    + intros l Hl. apply not_elem_of_cons in Hl as [Hne Hl].
      rewrite (Hout l Hl). cbn. now rewrite lookup_insert_ne.
Qed.

Lemma ids_distinct_NoDup (s : state) :
  allocated s → Spec.ids_distinct s → NoDup (Spec.effect_ids s).
Proof.
  intros Hall Hd. apply NoDup_alt. intros i j x Hi Hj.
  unfold Spec.effect_ids in Hi, Hj. rewrite list_lookup_fmap in Hi, Hj.
  destruct (effects s.1 !! i) as [l|] eqn:Hli; [|discriminate].
  destruct (effects s.1 !! j) as [l'|] eqn:Hlj; [|discriminate].
  cbn in Hi, Hj.
  destruct (Hall l) as [e He]; [apply list_elem_of_lookup; eauto|].
  destruct (Hall l') as [e' He']; [apply list_elem_of_lookup; eauto|].
  rewrite He in Hi. rewrite He' in Hj. cbn in Hi, Hj.
  apply (Hd i j l l' e e' Hli Hlj He He'). congruence.
Qed.

(** X2: [reorder_effects] accepts a permutation of the ids of the chain: the
    chain then holds the same effects in the order given, renumbered. *)
Theorem reorder_effects_takes_permutation (effect_ids : list UUID) (s : state) :
  allocated s →
  Spec.ids_distinct s →
  Some <$> effect_ids ≡ₚ Spec.effect_ids s →
  ∃ s',
    reorder_effects effect_ids s = (Return tt, s') ∧
    Spec.effect_ids s' = Some <$> effect_ids ∧
    length (effects s'.1) = length (effects s.1) ∧
    effects s'.1 ≡ₚ effects s.1 ∧
    Spec.positions_match s' ∧
    Spec.ids_distinct s'.
Proof.
  intros Hall Hd Hperm. destruct s as [chain h]. cbn [fst snd] in *.
  assert (Hlen : length effect_ids = length (effects chain)).
  { apply Permutation_length in Hperm. unfold Spec.effect_ids in Hperm.
    now rewrite !length_fmap in Hperm. }
  assert (Hndids : NoDup effect_ids).
  { apply (NoDup_fmap_1 Some). rewrite Hperm. now apply ids_distinct_NoDup. }
  (* every id is found *)
  assert (Hfound : ∀ u, u ∈ effect_ids →
            ∃ l, find (has_id h u) (effects chain) = Some l).
  { intros u Hu.
    assert (Hin : Some u ∈ Spec.effect_ids (chain, h)).
    { rewrite <- Hperm. now apply list_elem_of_fmap_2. }
    apply list_elem_of_fmap in Hin as (l & Hl & Hlin).
    destruct (find (has_id h u) (effects chain)) as [l'|] eqn:Hf; [eauto|].
    exfalso. apply list_elem_of_In in Hlin.
    pose proof (find_none _ _ Hf l Hlin) as Hno.
    unfold has_id in Hno. apply bool_decide_eq_false in Hno. apply Hno.
    exact (eq_sym Hl). }
  assert (Hm : ∃ ls, mapM (λ u, find (has_id h u) (effects chain)) effect_ids = Some ls).
  { apply mapM_is_Some. apply Forall_forall. intros u Hu.
    destruct (Hfound u Hu) as [l Hl]. unfold compose. rewrite Hl. eauto. }
  destruct Hm as [ls Hm]. pose proof Hm as Hm2. apply mapM_Some_1 in Hm2.
  assert (Hls : ∀ i l, ls !! i = Some l →
            ∃ u, effect_ids !! i = Some u ∧ l ∈ effects chain ∧ id_at h l = Some u).
  { intros i l Hi. destruct (Forall2_lookup_r _ _ _ _ _ Hm2 Hi) as (u & Hu & Hf).
    exists u. split; [exact Hu|]. apply find_some in Hf as [Hin Hid].
    split; [now apply list_elem_of_In|].
    unfold has_id in Hid. now apply bool_decide_eq_true in Hid. }
  assert (Hndls : NoDup ls).
  { apply NoDup_alt. intros i j l Hi Hj.
    destruct (Hls i l Hi) as (u & Hu & _ & Hidu).
    destruct (Hls j l Hj) as (u' & Hu' & _ & Hidu').
    rewrite Hidu in Hidu'. injection Hidu' as <-.
    apply NoDup_alt with (1 := Hndids) (2 := Hu) (3 := Hu'). }
  assert (Hallls : ∀ l, l ∈ ls → is_Some (effect_objs h !! l)).
  { intros l Hl. apply list_elem_of_lookup in Hl as [i Hi].
    destruct (Hls i l Hi) as (_ & _ & Hin & _). now apply Hall. }
  destruct (set_positions_from_spec ls 0 h Hndls Hallls) as (objs' & Hset & Hin & Hout).
  eexists. split.
  { unfold reorder_effects, _update_positions, _update_modified_time, update_self,
      in_heap, with_runtime, self_, datetime_now.
    unfold mbind, M_bind, bind, modify, zoom. cbn [fst snd].
    apply Nat.eqb_eq in Hlen. rewrite Hlen. cbn [negb].
    cbn [fst snd]. rewrite (collect_spec (effects chain) effect_ids [] h Hall), Hm.
    cbn [app fst snd set_effects effects]. rewrite Hset.
    cbn [fst snd rt effect_objs next_loc]. reflexivity. }
  cbn [fst snd set_modified_at set_effects effects effect_objs].
  assert (Hids' : ∀ i l, ls !! i = Some l →
            ∃ u e', effect_ids !! i = Some u ∧ objs' !! l = Some e' ∧
                    AudioEffect.id e' = u ∧
                    AudioEffect.position e' = VInt (Z.of_nat i)).
  { intros i l Hi. destruct (Hls i l Hi) as (u & Hu & _ & Hidu).
    destruct (Hin i l Hi) as (e & He & He').
    exists u, (AudioEffect.store_position (VInt (Z.of_nat (0 + i))) e).
    split; [exact Hu|]. split; [exact He'|]. unfold id_at in Hidu. rewrite He in Hidu.
    split; [now injection Hidu|reflexivity]. }
  split; [|split; [|split; [|split]]].
  - unfold Spec.effect_ids. cbn [fst snd effects effect_objs set_modified_at set_effects].
    apply list_eq. intros i. rewrite !list_lookup_fmap.
    destruct (ls !! i) as [l|] eqn:Hi.
    + destruct (Hids' i l Hi) as (u & e' & Hu & He' & Hid & _).
      rewrite Hu. cbn [fmap option_fmap option_map]. rewrite He'.
      cbn [fmap option_fmap option_map]. now rewrite Hid.
    + apply lookup_ge_None in Hi. apply Forall2_length in Hm2.
      rewrite (proj2 (lookup_ge_None effect_ids i)); [reflexivity | lia].
  - apply Forall2_length in Hm2. lia.
  - apply submseteq_length_Permutation.
    + apply NoDup_submseteq; [exact Hndls|].
      intros l Hl. apply list_elem_of_lookup in Hl as [i Hi].
      now destruct (Hls i l Hi) as (_ & _ & Hl & _).
    + apply Forall2_length in Hm2. lia.
  - intros i l Hi. cbn [fst snd effects effect_objs set_modified_at set_effects] in *.
    destruct (Hids' i l Hi) as (u & e' & _ & He' & _ & Hpos).
    rewrite He'. cbn [fmap option_fmap option_map]. now rewrite Hpos.
  - intros i j l l' e e' Hi Hj He He' Hid.
    cbn [fst snd effects effect_objs set_modified_at set_effects] in *.
    destruct (Hids' i l Hi) as (u & e1 & Hu & He1 & Hid1 & _).
    destruct (Hids' j l' Hj) as (u' & e2 & Hu' & He2 & Hid2 & _).
    rewrite He in He1. rewrite He' in He2. injection He1 as <-. injection He2 as <-.
    apply NoDup_alt with (1 := Hndids) (2 := Hu). congruence.
Qed.

Lemma chain_ok_NoDup s : chain_ok s → NoDup (effects s.1).
Proof.
  intros (Hall & _ & Hd). apply NoDup_alt. intros i j l Hi Hj.
  destruct (Hall l) as [e He]; [apply list_elem_of_lookup; eauto|].
  exact (Hd i j l l e e Hi Hj He He eq_refl).
Qed.

Lemma contains_outcome effect xs h :
  (∀ x, x ∈ xs → is_Some (effect_objs h !! x)) →
  (contains effect xs h).2 = h ∧
  ((contains effect xs h).1 = Return false →
   ∀ x, x ∈ xs → x ≠ effect ∧
     ∀ a e, effect_objs h !! x = Some a → effect_objs h !! effect = Some e →
            AudioEffect.id a ≠ AudioEffect.id e).
Proof.
  induction xs as [|x xs IH]; intros Hall.
  - split; [reflexivity|]. intros _ x Hx. now apply elem_of_nil in Hx.
  - cbn [contains]. destruct (Nat.eqb_spec x effect) as [->|Hne].
    + split; [reflexivity|]. discriminate.
    + destruct (Hall x (list_elem_of_here _ _)) as [a Ha].
      unfold mbind, M_bind, bind, deref. rewrite Ha.
      destruct (effect_objs h !! effect) as [e|] eqn:He; [|split; [reflexivity|discriminate]].
      unfold AudioEffect.eq. destruct (N.eqb_spec (AudioEffect.id a) (AudioEffect.id e)) as [Hid|Hid].
      * split; [reflexivity|]. discriminate.
      * destruct IH as [IH1 IH2].
        { intros y Hy. apply Hall. now apply list_elem_of_further. }
        split; [exact IH1|]. intros Hf y Hy. apply elem_of_cons in Hy as [->|Hy].
        -- split; [exact Hne|]. intros a' e' Ha' He'. congruence.
        -- now apply IH2.
Qed.

Lemma add_effect_keeps_chain_ok effect s :
  chain_ok s → chain_ok (add_effect effect s).2.
Proof.
  intros Hok. pose proof Hok as (Hall & Hpos & Hd). destruct s as [chain h].
  unfold add_effect. unfold mbind at 1, M_bind, bind, self_. cbn [fst snd] in *.
  destruct (MAX_EFFECTS <=? length (effects chain))%nat; [exact Hok|].
  unfold mbind at 1, M_bind, bind, in_heap, zoom. cbn [fst snd].
  destruct (contains_outcome effect (effects chain) h Hall) as [Hh Hfalse].
  destruct (contains effect (effects chain) h) as [[[|]|e] h1] eqn:Hc;
    cbn [fst snd] in Hh, Hfalse; subst h1; try exact Hok.
  specialize (Hfalse eq_refl).
  unfold mbind at 1, M_bind, bind, on_effect. cbn [fst snd].
  destruct (effect_objs h !! effect) as [e|] eqn:He; [|exact Hok].
  rewrite set_position_index.
  unfold update_self, modify, _update_modified_time, in_heap, with_runtime, datetime_now.
  unfold mbind, M_bind, bind, update_self, modify, zoom.
  cbn [fst snd rt effect_objs next_loc effects set_effects set_modified_at].
  assert (Hold : ∀ i l, effects chain !! i = Some l → l ≠ effect).
  { intros i l Hi. apply (Hfalse l). apply list_elem_of_lookup. eauto. }
  split; [|split].
  - intros l Hl. cbn [fst snd effects effect_objs set_modified_at set_effects] in *.
    apply elem_of_app in Hl as [Hl|Hl].
    + rewrite lookup_insert_ne; [now apply Hall|].
      intros <-. apply list_elem_of_lookup in Hl as [i Hi]. now apply (Hold i effect).
    + apply list_elem_of_singleton in Hl as ->. rewrite lookup_insert_eq. eauto.
  - intros i l Hi. cbn [fst snd effects effect_objs set_modified_at set_effects] in *.
    apply lookup_app_Some in Hi as [Hi|[Hlen Hi]].
    + rewrite lookup_insert_ne by (intros <-; now apply (Hold i effect)).
      now apply Hpos.
    + apply list_lookup_singleton_Some in Hi as [Hi <-].
      rewrite lookup_insert_eq. cbn. do 3 f_equal. lia.
  - intros i j l l' a a' Hi Hj Ha Ha' Hid.
    cbn [fst snd effects effect_objs set_modified_at set_effects] in *.
    apply lookup_app_Some in Hi as [Hi|[Hleni Hi]];
      apply lookup_app_Some in Hj as [Hj|[Hlenj Hj]].
    + rewrite lookup_insert_ne in Ha by (intros <-; now apply (Hold i effect)).
      rewrite lookup_insert_ne in Ha' by (intros <-; now apply (Hold j effect)).
      exact (Hd i j l l' a a' Hi Hj Ha Ha' Hid).
    + exfalso. apply list_lookup_singleton_Some in Hj as [_ <-].
      rewrite lookup_insert_ne in Ha by (intros <-; now apply (Hold i effect)).
      rewrite lookup_insert_eq in Ha'. injection Ha' as <-.
      destruct (Hfalse l) as [_ Hne]; [apply list_elem_of_lookup; eauto|].
      now apply (Hne a e Ha eq_refl).
    + exfalso. apply list_lookup_singleton_Some in Hi as [_ <-].
      rewrite lookup_insert_ne in Ha' by (intros <-; now apply (Hold j effect)).
      rewrite lookup_insert_eq in Ha. injection Ha as <-.
      destruct (Hfalse l') as [_ Hne]; [apply list_elem_of_lookup; eauto|].
      apply (Hne a' e Ha' eq_refl). now symmetry.
    + apply list_lookup_singleton_Some in Hi as [Hi _].
      apply list_lookup_singleton_Some in Hj as [Hj _]. lia.
Qed.

Lemma renumber_ok chain h :
  allocated (chain, h) → Spec.ids_distinct (chain, h) →
  ∃ s', (_update_positions ;; _update_modified_time) (chain, h) = (Return tt, s') ∧
        effects s'.1 = effects chain ∧ chain_ok s'.
Proof.
  intros Hall Hd.
  assert (Hnd : NoDup (effects chain)).
  { apply NoDup_alt. intros i j l Hi Hj.
    destruct (Hall l) as [e He]; [apply list_elem_of_lookup; eauto|].
    exact (Hd i j l l e e Hi Hj He He eq_refl). }
  destruct (set_positions_from_spec (effects chain) 0 h Hnd Hall) as (objs' & Hset & Hin & Hout).
  eexists. split.
  { unfold _update_positions, _update_modified_time, update_self, in_heap, with_runtime,
      self_, datetime_now.
    unfold mbind, M_bind, bind, modify, zoom. cbn [fst snd]. rewrite Hset.
    cbn [fst snd rt effect_objs next_loc]. reflexivity. }
  cbn [fst snd effects set_modified_at]. split; [reflexivity|].
  split; [|split].
  - intros l Hl. cbn [fst snd effects effect_objs set_modified_at] in *.
    apply list_elem_of_lookup in Hl as [i Hi].
    destruct (Hin i l Hi) as (e & _ & He). rewrite He. eauto.
  - intros i l Hi. cbn [fst snd effects effect_objs set_modified_at] in *.
    destruct (Hin i l Hi) as (e & _ & He). rewrite He. reflexivity.
  - intros i j l l' a a' Hi Hj Ha Ha' Hid.
    cbn [fst snd effects effect_objs set_modified_at] in *.
    destruct (Hin i l Hi) as (e & He & He1). destruct (Hin j l' Hj) as (e' & He' & He2).
    rewrite Ha in He1. rewrite Ha' in He2. injection He1 as ->. injection He2 as ->.
    exact (Hd i j l l' e e' Hi Hj He He' Hid).
Qed.

Lemma index_of_id_outcome u xs : ∀ i h,
  (∀ x, x ∈ xs → is_Some (effect_objs h !! x)) →
  ∃ r, index_of_id u xs i h = (Return r, h).
Proof.
  induction xs as [|x xs IH]; intros i h Hall; [eexists; reflexivity|].
  destruct (Hall x (list_elem_of_here _ _)) as [e He].
  cbn [index_of_id]. unfold mbind, M_bind, bind, deref. rewrite He.
  destruct (N.eqb _ _); [eexists; reflexivity|].
  apply IH. intros y Hy. apply Hall. now apply list_elem_of_further.
Qed.

Lemma sublist_keeps_distinct chain h ls :
  sublist ls (effects chain) →
  allocated (chain, h) → Spec.ids_distinct (chain, h) →
  allocated (set_effects ls chain, h) ∧ Spec.ids_distinct (set_effects ls chain, h).
Proof.
  intros Hsub Hall Hd.
  assert (Hnd : NoDup (Spec.effect_ids (chain, h))) by now apply ids_distinct_NoDup.
  split.
  - intros l Hl. apply Hall. cbn in *. eapply sublist_submseteq, elem_of_submseteq in Hsub; eauto.
  - assert (Hnd' : NoDup (Spec.effect_ids (set_effects ls chain, h))).
    { apply (sublist_NoDup _ (Spec.effect_ids (chain, h))); [exact Hnd|].
      unfold Spec.effect_ids. cbn [fst snd effects set_effects].
      now apply fmap_sublist. }
    intros i j l l' e e' Hi Hj He He' Hid. cbn [fst snd effects set_effects effect_objs] in *.
    eapply NoDup_alt; [exact Hnd'| |].
    + unfold Spec.effect_ids. cbn [fst snd effects set_effects]. rewrite list_lookup_fmap, Hi.
      cbn. rewrite He. reflexivity.
    + unfold Spec.effect_ids. cbn [fst snd effects set_effects]. rewrite list_lookup_fmap, Hj.
      cbn. rewrite He'. cbn. now rewrite Hid.
Qed.

Lemma remove_effect_keeps_chain_ok u s :
  chain_ok s → chain_ok (remove_effect u s).2.
Proof.
  intros Hok. pose proof Hok as (Hall & Hpos & Hd). destruct s as [chain h].
  unfold remove_effect. unfold mbind at 1, M_bind, bind, self_. cbn [fst snd] in *.
  unfold mbind at 1, M_bind, bind, in_heap, zoom. cbn [fst snd].
  destruct (index_of_id_outcome u (effects chain) 0 h Hall) as [r Hr]. rewrite Hr.
  destruct r as [i|]; [|exact Hok].
  unfold mbind at 1, M_bind, bind, update_self, modify. cbn [fst snd].
  destruct (sublist_keeps_distinct chain h (delete i (effects chain))) as [Hall' Hd'];
    [apply sublist_delete | exact Hall | exact Hd |].
  destruct (renumber_ok _ h Hall' Hd') as (s' & Hrun & _ & Hok').
  unfold mbind at 1, M_bind, bind.
  unfold mbind, M_bind, bind in Hrun.
  destruct (_update_positions _) as [[[]|e] s1]; [|discriminate].
  unfold mbind, M_bind, bind.
  destruct (_update_modified_time s1) as [[[]|e] s2]; [|discriminate].
  injection Hrun as ->. exact Hok'.
Qed.

Lemma reorder_effects_keeps_chain_ok ids s :
  NoDup ids → chain_ok s → chain_ok (reorder_effects ids s).2.
Proof.
  intros Hndids Hok. pose proof Hok as (Hall & Hpos & Hd). destruct s as [chain h].
  unfold reorder_effects. unfold mbind at 1, M_bind, bind, self_. cbn [fst snd] in *.
  destruct (negb _); [exact Hok|].
  unfold mbind at 1, M_bind, bind, in_heap, zoom. cbn [fst snd].
  rewrite (collect_spec (effects chain) ids [] h Hall).
  destruct (mapM _ ids) as [ls|] eqn:Hm; [|exact Hok]. cbn [app].
  unfold mbind at 1, M_bind, bind, update_self, modify. cbn [fst snd].
  apply mapM_Some_1 in Hm.
  assert (Hls : ∀ i l, ls !! i = Some l →
            ∃ u, ids !! i = Some u ∧ l ∈ effects chain ∧ id_at h l = Some u).
  { intros i l Hi. destruct (Forall2_lookup_r _ _ _ _ _ Hm Hi) as (u & Hu & Hf).
    exists u. split; [exact Hu|]. apply find_some in Hf as [Hin Hid].
    split; [now apply list_elem_of_In|].
    unfold has_id in Hid. now apply bool_decide_eq_true in Hid. }
  assert (Hall' : allocated (set_effects ls chain, h)).
  { intros l Hl. cbn in Hl. apply list_elem_of_lookup in Hl as [i Hi].
    destruct (Hls i l Hi) as (_ & _ & Hin & _). now apply Hall. }
  assert (Hd' : Spec.ids_distinct (set_effects ls chain, h)).
  { intros i j l l' e e' Hi Hj He He' Hid. cbn [fst snd effects set_effects effect_objs] in *.
    destruct (Hls i l Hi) as (u & Hu & _ & Hidu).
    destruct (Hls j l' Hj) as (u' & Hu' & _ & Hidu').
    unfold id_at in Hidu, Hidu'. rewrite He in Hidu. rewrite He' in Hidu'.
    cbn in Hidu, Hidu'. apply NoDup_alt with (1 := Hndids) (2 := Hu). congruence. }
  destruct (renumber_ok _ h Hall' Hd') as (s' & Hrun & _ & Hok').
  unfold mbind at 1, M_bind, bind.
  unfold mbind, M_bind, bind in Hrun.
  destruct (_update_positions _) as [[[]|e] s1]; [|discriminate].
  destruct (_update_modified_time s1) as [[[]|e] s2]; [|discriminate].
  injection Hrun as ->. exact Hok'.
Qed.

(** X3: the invariant of a chain survives every sequence of the three
    mutators in which no [reorder_effects] is given a repeated id. *)
Theorem chain_invariant_kept_without_repeated_ids (ops : list Spec.chain_op) (s : state) :
  chain_ok s →
  Forall (λ op, match op with Spec.Reorder ids => NoDup ids | _ => True end) ops →
  chain_ok (Spec.apply_ops ops s).
Proof.
  revert s. induction ops as [|op ops IH]; intros s Hok Hops; [exact Hok|].
  apply Forall_cons in Hops as [Hop Hops]. cbn [Spec.apply_ops fold_left].
  apply IH; [|exact Hops]. destruct op; cbn [Spec.apply_op].
  - now apply add_effect_keeps_chain_ok.
  - now apply remove_effect_keeps_chain_ok.
  - now apply reorder_effects_keeps_chain_ok.
Qed.

Lemma lead_empty_chain_ok : chain_ok Sample.lead_empty.
Proof.
  split; [|split].
  - intros l Hl. now apply elem_of_nil in Hl.
  - intros i l Hi. discriminate Hi.
  - intros i j l l' e e' Hi. discriminate Hi.
Qed.

Lemma lead_chain_ok : chain_ok Sample.lead.
Proof.
  unfold Sample.lead. cbn [Spec.apply_ops fold_left Spec.apply_op].
  do 2 apply add_effect_keeps_chain_ok. exact lead_empty_chain_ok.
Qed.

Lemma reorder_effects_refuses_foreign_ids_witness :
  ∃ e, reorder_effects [1%N; 9%N] Sample.lead = (Raise e, Sample.lead) ∧
       (e = IdListLength ∨ e = IdNotInChain).
Proof.
  apply reorder_effects_refuses_foreign_ids; [exact (proj1 lead_chain_ok)|].
  right. exists 9%N. split; [set_solver|].
  intros l Hl. apply list_elem_of_In in Hl. vm_compute in Hl.
  destruct Hl as [<-|[<-|[]]]; vm_compute; discriminate.
Defined.

Lemma reorder_effects_takes_permutation_witness :
  ∃ s',
    reorder_effects [2%N; 1%N] Sample.lead = (Return tt, s') ∧
    Spec.effect_ids s' = Some <$> [2%N; 1%N] ∧
    length (effects s'.1) = length (effects Sample.lead.1) ∧
    effects s'.1 ≡ₚ effects Sample.lead.1 ∧
    Spec.positions_match s' ∧
    Spec.ids_distinct s'.
Proof.
  apply reorder_effects_takes_permutation.
  - exact (proj1 lead_chain_ok).
  - exact (proj2 (proj2 lead_chain_ok)).
  - vm_compute. apply perm_swap.
Defined.

Lemma chain_invariant_kept_without_repeated_ids_witness :
  chain_ok (Spec.apply_ops
              [Spec.Add 0%nat; Spec.Add 1%nat; Spec.Reorder [2%N; 1%N]; Spec.Remove 1%N]
              Sample.lead_empty).
Proof.
  apply chain_invariant_kept_without_repeated_ids; [exact lead_empty_chain_ok|].
  repeat (apply Forall_cons; split); try exact I; [|apply Forall_nil_2].
  apply (bool_decide_unpack _). vm_compute. exact I.
Defined.

End ChainInvariant.

(** ** The parameters of an effect *)

Section EffectInvariant.
Import AudioEffect Spec Inv.

(** What [update_parameters] stores is a boolean or a number within the
    range, NaN apart: NaN is a number that is neither below [min] nor above
    [max]. *)
Lemma check_item_stored_ok kind defs k v w def :
  dict_get k defs = Some def → v ≠ VNaN →
  check_item kind defs k v = Return w → stored_ok def w.
Proof.
  intros Hdef Hnan. unfold check_item, stored_ok. rewrite Hdef.
  destruct (String.eqb (units def) "bool").
  - destruct (negb _); [discriminate|]. intros [= <-]. eauto.
  - destruct (is_number v) eqn:Hn; [|discriminate]. cbn [negb].
    destruct (num_lt v (min def)) eqn:Hlo; [discriminate|].
    destruct (num_gt v (max def)) eqn:Hhi; [discriminate|].
    intros [= <-]. now apply number_within.
Qed.


Lemma update_loop_params_ok K items : ∀ self,
  type self = K → params_ok self → nan_free items →
  let self' := (update_loop (EffectType_value K) (PARAMETER_DEFINITIONS K) items self).2 in
  params_ok self' ∧ type self' = K ∧ id self' = id self ∧ bypassed self' = bypassed self ∧
  position self' = position self ∧ preset_name self' = preset_name self.
Proof.
  induction items as [|[k v] items IH]; intros self HK Hok Hfree; cbn zeta.
  - cbn. auto 10.
  - apply Forall_cons in Hfree as [Hv Hfree]. cbn [snd] in Hv.
    cbn [update_loop]. unfold mbind, M_bind, bind, lift, modify.
    destruct (check_item _ _ k v) as [w|e] eqn:Hc; [|cbn; auto 10].
    destruct (check_item_stored _ _ _ _ _ Hc) as (def & Hdef & _).
    pose proof (check_item_stored_ok _ _ _ _ _ _ Hdef Hv Hc) as Hw.
    destruct Hok as [Hkeys Hvals]. rewrite HK in Hkeys, Hvals.
    assert (Hk : k ∈ dict_keys (parameters self)).
    { rewrite Hkeys. eapply dict_get_elem_keys, Hdef. }
    specialize (IH (set_parameters (dict_set k w (parameters self)) self)).
    cbn zeta in IH. destruct IH as (H1 & H2 & H3 & H4 & H5 & H6); [exact HK| |exact Hfree|].
    + split; cbn [type parameters set_parameters]; rewrite HK.
      * now rewrite dict_keys_set.
      * intros n def' Hn. destruct (String.eqb_spec k n) as [->|Hne].
        -- rewrite dict_get_set_eq. rewrite Hdef in Hn. injection Hn as <-. eauto.
        -- rewrite dict_get_set_ne by exact Hne. now apply Hvals.
    + cbn in *. auto 10.
Qed.

Lemma update_parameters_params_ok new_parameters self :
  params_ok self → nan_free new_parameters →
  let self' := (update_parameters new_parameters self).2 in
  params_ok self' ∧ type self' = type self ∧ id self' = id self ∧
  bypassed self' = bypassed self ∧ position self' = position self ∧
  preset_name self' = preset_name self.
Proof.
  intros Hok Hfree. unfold update_parameters, mbind, M_bind, bind, get.
  now apply update_loop_params_ok.
Qed.


Lemma stored_ok_default K n def :
  dict_get n (PARAMETER_DEFINITIONS K) = Some def → stored_ok def (default def).
Proof.
  intros Hn. unfold stored_ok.
  destruct (String.eqb (units def) "bool") eqn:Hb.
  - destruct K; cbn in Hn;
      repeat match type of Hn with
             | (if ?c then _ else _) = _ => destruct c
             end; try discriminate; injection Hn as <-; try discriminate Hb; cbn; eauto.
  - now apply (schema_entry K n def).
Qed.

Lemma defaults_params_ok u K b p n :
  params_ok (Make u K b p n (defaults K)).
Proof.
  split; cbn [parameters type].
  - apply defaults_keys.
  - intros k def Hk. rewrite defaults_get, Hk. cbn. eexists. split; [reflexivity|].
    eapply stored_ok_default, Hk.
Qed.

Lemma init_params_ok effect_type parameters_ r e r' :
  (∀ new_parameters, parameters_ = VDict new_parameters → nan_free new_parameters) →
  __init__ effect_type parameters_ r = (Return e, r') →
  params_ok e ∧ resolve_kind effect_type = Return (type e) ∧ id e = next_uuid r ∧
  bypassed e = VBool false ∧ position e = VInt 0 ∧ preset_name e = VNone ∧
  r' = Runtime (N.succ (next_uuid r)) (clock r).
Proof.
  intros Hfree. unfold __init__, mbind, M_bind, bind, lift, uuid4.
  destruct (resolve_kind effect_type) as [K|]; [|discriminate].
  pose proof (defaults_params_ok (next_uuid r) K (VBool false) (VInt 0) VNone) as Hd.
  destruct (truthy parameters_).
  - destruct parameters_ as [| | | | | | | |new]; try discriminate.
    pose proof (update_parameters_params_ok new _ Hd (Hfree new eq_refl)) as Hu.
    cbn zeta in Hu.
    destruct (update_parameters new _) as [[[]|] self']; [|discriminate].
    intros [= <- <-]. cbn [snd type id bypassed position preset_name] in Hu.
    destruct Hu as (H1 & H2 & H3 & H4 & H5 & H6). rewrite H2. auto 10.
  - intros [= <- <-]. cbn. auto 10.
Qed.

Lemma dict_ext {A} (d e : list (string * A)) :
  dict_keys d = dict_keys e → NoDup (dict_keys d) →
  (∀ k, k ∈ dict_keys d → dict_get k d = dict_get k e) → d = e.
Proof.
  revert e. induction d as [|[k v] d IH]; intros [|[k' v'] e] Hk Hnd Hget;
    try discriminate; [reflexivity|].
  cbn in Hk. injection Hk as <- Hk. cbn in Hnd. apply NoDup_cons in Hnd as [Hnotin Hnd].
  pose proof (Hget k (list_elem_of_here _ _)) as H0. cbn in H0.
  rewrite String.eqb_refl in H0. injection H0 as <-. f_equal.
  apply IH; [exact Hk|exact Hnd|]. intros n Hn.
  pose proof (Hget n (list_elem_of_further _ _ _ Hn)) as H1. cbn in H1.
  destruct (String.eqb_spec n k) as [->|Hne]; [contradiction|exact H1].
Qed.

Lemma stored_ok_legal def v : stored_ok def v → legal_value def v ∧ coerced def v = v.
Proof.
  unfold stored_ok, legal_value, coerced.
  destruct (String.eqb (units def) "bool").
  - intros [b ->]. split; [|reflexivity]. destruct b; eexists; (split; [reflexivity|]).
    + right. reflexivity.
    + left. reflexivity.
  - intros Hr. split; [exact Hr|reflexivity].
Qed.

Lemma params_ok_entries e k v :
  params_ok e → (k, v) ∈ parameters e →
  ∃ def, dict_get k (PARAMETER_DEFINITIONS (type e)) = Some def ∧ stored_ok def v.
Proof.
  intros [Hkeys Hvals] Hin.
  assert (Hnd : NoDup (dict_keys (parameters e))) by (rewrite Hkeys; apply schema_keys_NoDup).
  assert (Hk : k ∈ dict_keys (PARAMETER_DEFINITIONS (type e))).
  { rewrite <- Hkeys. apply list_elem_of_fmap. exists (k, v). auto. }
  destruct (dict_get k (PARAMETER_DEFINITIONS (type e))) as [def|] eqn:Hdef.
  - exists def. split; [reflexivity|]. destruct (Hvals k def Hdef) as (w & Hw & Hok).
    rewrite (dict_get_NoDup k v _ Hnd Hin) in Hw. now injection Hw as <-.
  - apply dict_get_None in Hdef. contradiction.
Qed.

Lemma params_ok_respects_schema e :
  params_ok e → respects_schema (type e) (parameters e).
Proof.
  intros Hok. split.
  - destruct Hok as [-> _]. apply schema_keys_NoDup.
  - apply Forall_forall. intros [k v] Hin.
    destruct (params_ok_entries e k v Hok Hin) as (def & Hdef & Hs).
    exists def. split; [exact Hdef|]. now apply stored_ok_legal.
Qed.

Lemma init_own_parameters e r :
  params_ok e →
  __init__ (Member (type e)) (VDict (parameters e)) r
  = (Return (Make (next_uuid r) (type e) (VBool false) (VInt 0) VNone (parameters e)),
     Runtime (N.succ (next_uuid r)) (clock r)).
Proof.
  intros Hok.
  destruct (init_overrides (type e) (parameters e) r (params_ok_respects_schema e Hok))
    as (ps & Hinit & Hkeys & Hget & _).
  rewrite Hinit. do 3 f_equal. destruct Hok as [Hk Hvals].
  apply dict_ext.
  - now rewrite Hkeys.
  - rewrite Hkeys. apply schema_keys_NoDup.
  - intros k Hin. rewrite Hkeys in Hin.
    destruct (dict_get k (PARAMETER_DEFINITIONS (type e))) as [def|] eqn:Hdef.
    + rewrite (Hget k def Hdef). destruct (Hvals k def Hdef) as (v & -> & Hs).
      f_equal. now apply stored_ok_legal.
    + apply dict_get_None in Hdef. contradiction.
Qed.

Lemma from_dict_to_dict `{TextForms} e r :
  params_ok e →
  from_dict (to_dict e) r = (Return e, Runtime (N.succ (next_uuid r)) (clock r)).
Proof.
  intros Hok. unfold from_dict, to_dict.
  cbn [dict_get dict_get_default String.eqb Ascii.eqb Bool.eqb].
  unfold mbind, M_bind, bind, lift, mret, M_ret, ret.
  rewrite EffectType_of_value, (init_own_parameters e r Hok).
  cbn [UUID_of_value]. rewrite uuid_parse_str. destruct e; reflexivity.
Qed.

Lemma copy_spec `{TextForms} e r :
  params_ok e →
  copy e r = (Return (set_id (N.succ (next_uuid r)) e),
              Runtime (N.succ (N.succ (next_uuid r))) (clock r)).
Proof.
  intros Hok. unfold copy, mbind, M_bind, bind. rewrite (from_dict_to_dict e r Hok).
  reflexivity.
Qed.

Lemma boost10_params_ok : params_ok Sample.boost10.
Proof.
  apply (update_parameters_params_ok [("gain_db", VFloat 10.0)]
           (Make 7 BOOST (VBool false) (VInt 0) VNone (defaults BOOST)));
    [apply defaults_params_ok | repeat constructor; discriminate].
Qed.


(** X5: an effect that the constructor returns, when no NaN was among
    the parameters given to it, has the parameters of its kind's schema, each
    within its range, a new id, and is neither bypassed nor placed nor named;
    one identifier was drawn. *)
Theorem init_establishes_parameter_invariant
        (effect_type : kind_arg) (parameters_ : value) (r r' : runtime) (e : t) :
  (∀ new_parameters, parameters_ = VDict new_parameters → nan_free new_parameters) →
  __init__ effect_type parameters_ r = (Return e, r') →
  params_ok e ∧ resolve_kind effect_type = Return (type e) ∧ id e = next_uuid r ∧
  bypassed e = VBool false ∧ position e = VInt 0 ∧ preset_name e = VNone ∧
  r' = Runtime (N.succ (next_uuid r)) (clock r).
Proof. apply init_params_ok. Qed.

Lemma init_establishes_parameter_invariant_witness :
  params_ok Sample.delay_mix ∧
  resolve_kind (Plain (VStr "DELAY")) = Return (type Sample.delay_mix) ∧
  id Sample.delay_mix = next_uuid Sample.r0 ∧
  bypassed Sample.delay_mix = VBool false ∧ position Sample.delay_mix = VInt 0 ∧
  preset_name Sample.delay_mix = VNone ∧
  Runtime 1 0 = Runtime (N.succ (next_uuid Sample.r0)) (clock Sample.r0).
Proof.
  apply (init_establishes_parameter_invariant (Plain (VStr "DELAY"))
           (VDict [("mix", VFloat 0.5); ("tempo_sync", VInt 1)])).
  - intros new_parameters [= <-]. repeat constructor; discriminate.
  - reflexivity.
Defined.

(** X6: [AudioEffect.from_dict (e.to_dict ())] is an effect with the fields
    of [e], id included, for an effect [e] that satisfies the invariant. *)
Theorem effect_dict_round_trip `{TextForms} (e : t) (r : runtime) :
  params_ok e →
  from_dict (to_dict e) r = (Return e, Runtime (N.succ (next_uuid r)) (clock r)).
Proof. apply from_dict_to_dict. Qed.

Lemma effect_dict_round_trip_witness :
  from_dict (to_dict Sample.boost10) Sample.r0
  = (Return Sample.boost10, Runtime (N.succ (next_uuid Sample.r0)) (clock Sample.r0)).
Proof. apply effect_dict_round_trip. exact boost10_params_ok. Defined.

(** X7: [e.copy ()] differs from [e] in its id only, and the id is new. *)
Theorem effect_copy_differs_in_id_only `{TextForms} (e : t) (r : runtime) :
  params_ok e →
  copy e r = (Return (set_id (N.succ (next_uuid r)) e),
              Runtime (N.succ (N.succ (next_uuid r))) (clock r)).
Proof. apply copy_spec. Qed.

Lemma effect_copy_differs_in_id_only_witness :
  copy Sample.boost10 Sample.r0
  = (Return (set_id (N.succ (next_uuid Sample.r0)) Sample.boost10),
     Runtime (N.succ (N.succ (next_uuid Sample.r0))) (clock Sample.r0)).
Proof. apply effect_copy_differs_in_id_only. exact boost10_params_ok. Defined.
End EffectInvariant.

(** ** The methods of a chain *)

Section ChainMethods.
Import EffectsChain Inv.

Lemma contains_present effect e xs h :
  effect_objs h !! effect = Some e →
  (∀ x, x ∈ xs → is_Some (effect_objs h !! x)) →
  (∃ x, x ∈ xs ∧ (x = effect ∨ id_at h x = Some (AudioEffect.id e))) →
  contains effect xs h = (Return true, h).
Proof.
  intros He. induction xs as [|x xs IH]; intros Hall (y & Hy & Hdup).
  - now apply elem_of_nil in Hy.
  - cbn [contains]. destruct (Nat.eqb_spec x effect) as [->|Hne]; [reflexivity|].
    destruct (Hall x (list_elem_of_here _ _)) as [a Ha].
    unfold mbind, M_bind, bind, deref. rewrite Ha, He. unfold AudioEffect.eq.
    destruct (N.eqb_spec (AudioEffect.id a) (AudioEffect.id e)) as [Heq|Hneq]; [reflexivity|].
    apply IH.
    + intros z Hz. apply Hall. now apply list_elem_of_further.
    + exists y. split; [|exact Hdup].
      apply elem_of_cons in Hy as [->|Hy]; [|exact Hy].
      exfalso. destruct Hdup as [->|Hid]; [now apply Hne|].
      unfold id_at in Hid. rewrite Ha in Hid. cbn in Hid. congruence.
Qed.

(** X8: [add_effect] on a chain that already holds [MAX_EFFECTS] effects, or
    that holds the effect or one with its id, raises and changes nothing;
    the limit is tested first. *)
Theorem add_effect_refuses_full_or_duplicate (effect : loc) (e : AudioEffect.t) (s : state) :
  allocated s →
  effect_objs s.2 !! effect = Some e →
  (MAX_EFFECTS ≤ length (effects s.1))%nat ∨
  (∃ x, x ∈ effects s.1 ∧ (x = effect ∨ id_at s.2 x = Some (AudioEffect.id e))) →
  ∃ err, add_effect effect s = (Raise err, s) ∧
         (err = TooManyEffects ∨ err = DuplicateEffect) ∧
         (err = TooManyEffects ↔ (MAX_EFFECTS ≤ length (effects s.1))%nat).
Proof.
  intros Hall He Hbad. destruct s as [chain h]. cbn [fst snd] in *.
  unfold add_effect. unfold mbind at 1, M_bind, bind, self_. cbn [fst snd].
  destruct (Nat.leb_spec MAX_EFFECTS (length (effects chain))) as [Hfull|Hroom].
  - exists TooManyEffects. split; [reflexivity|]. split; [now left|]. tauto.
  - destruct Hbad as [Hfull|Hdup]; [lia|].
    unfold mbind at 1, M_bind, bind, in_heap, zoom. cbn [fst snd].
    rewrite (contains_present effect e (effects chain) h He Hall Hdup).
    exists DuplicateEffect. split; [reflexivity|]. split; [now right|].
    split; [discriminate|lia].
Qed.

Lemma find_app_r {A} (P : A → bool) (xs ys : list A) :
  (∀ x, x ∈ xs → P x = false) → find P (xs ++ ys) = find P ys.
Proof.
  induction xs as [|x xs IH]; intros Hno; [reflexivity|].
  cbn. rewrite (Hno x (list_elem_of_here _ _)). apply IH.
  intros y Hy. apply Hno. now apply list_elem_of_further.
Qed.

Lemma get_effect_by_id_spec u s :
  allocated s →
  get_effect_by_id u s = (Return (find (has_id s.2 u) (effects s.1)), s).
Proof.
  intros Hall. destruct s as [chain h]. unfold get_effect_by_id.
  unfold mbind, M_bind, bind, self_, in_heap, zoom. cbn [fst snd] in *.
  now rewrite (find_by_id_spec u (effects chain) h Hall).
Qed.

(** X9: [add_effect] of an effect that is not in a chain with room puts it
    last, at the position that is its index, touches no other effect, and
    [get_effect_by_id] then finds it. *)
Theorem add_effect_appends_and_is_found (effect : loc) (e : AudioEffect.t) (s : state) :
  allocated s →
  effect_objs s.2 !! effect = Some e →
  (length (effects s.1) < MAX_EFFECTS)%nat →
  (∀ x, x ∈ effects s.1 → x ≠ effect ∧ id_at s.2 x ≠ Some (AudioEffect.id e)) →
  ∃ s',
    add_effect effect s = (Return tt, s') ∧
    effects s'.1 = (effects s.1 ++ [effect])%list ∧
    effect_objs s'.2 !! effect
    = Some (AudioEffect.store_position (VInt (Z.of_nat (length (effects s.1)))) e) ∧
    (∀ x, x ≠ effect → effect_objs s'.2 !! x = effect_objs s.2 !! x) ∧
    get_effect_by_id (AudioEffect.id e) s' = (Return (Some effect), s').
Proof.
  intros Hall He Hroom Hnew. destruct s as [chain h]. unfold allocated in Hall.
  cbn [fst snd] in *.
  eexists. split.
  { apply (add_effect_new effect e chain h He Hroom).
    intros x Hx. destruct (Hnew x Hx) as [Hne Hid]. split; [exact Hne|].
    destruct (Hall x Hx) as [a Ha]. exists a. split; [exact Ha|].
    intros Heq. apply Hid. unfold id_at. rewrite Ha. cbn. now rewrite Heq. }
  cbn [fst snd effects set_effects set_modified_at effect_objs].
  split; [reflexivity|]. split; [apply lookup_insert_eq|].
  split; [intros x Hx; now apply lookup_insert_ne|].
  rewrite get_effect_by_id_spec.
  - cbn [fst snd effects set_effects set_modified_at]. rewrite find_app_r.
    + cbn [find]. unfold has_id, id_at. cbn [effect_objs]. rewrite lookup_insert_eq. cbn.
      now rewrite bool_decide_eq_true_2.
    + intros x Hx. destruct (Hnew x Hx) as [Hne Hid].
      unfold has_id, id_at in *. cbn [effect_objs]. rewrite lookup_insert_ne by congruence.
      now apply bool_decide_eq_false_2.
  - intros l Hl. cbn [fst snd effects set_effects set_modified_at effect_objs] in *.
    apply elem_of_app in Hl as [Hl|Hl].
    + rewrite lookup_insert_ne; [now apply Hall|]. intros <-.
      destruct (Hnew effect Hl) as [Hne _]. now apply Hne.
    + apply list_elem_of_singleton in Hl as ->. rewrite lookup_insert_eq. eauto.
Qed.

Lemma index_of_id_absent u xs : ∀ i h,
  (∀ x, x ∈ xs → is_Some (effect_objs h !! x) ∧ id_at h x ≠ Some u) →
  index_of_id u xs i h = (Return None, h).
Proof.
  induction xs as [|x xs IH]; intros i h Hno; [reflexivity|].
  destruct (Hno x (list_elem_of_here _ _)) as [[a Ha] Hid].
  cbn [index_of_id]. unfold mbind, M_bind, bind, deref. rewrite Ha.
  unfold id_at in Hid. rewrite Ha in Hid. cbn in Hid.
  destruct (N.eqb_spec (AudioEffect.id a) u) as [Heq|Hne]; [congruence|].
  apply IH. intros y Hy. apply Hno. now apply list_elem_of_further.
Qed.

Lemma index_of_id_present u pre l post : ∀ i h,
  (∀ x, x ∈ pre → is_Some (effect_objs h !! x) ∧ id_at h x ≠ Some u) →
  id_at h l = Some u →
  index_of_id u (pre ++ l :: post) i h = (Return (Some (i + length pre)%nat), h).
Proof.
  induction pre as [|x pre IH]; intros i h Hno Hl.
  - cbn [app index_of_id length]. unfold mbind, M_bind, bind, deref.
    unfold id_at in Hl. destruct (effect_objs h !! l) as [a|]; [|discriminate].
    cbn in Hl. injection Hl as ->. rewrite N.eqb_refl. now rewrite Nat.add_0_r.
  - destruct (Hno x (list_elem_of_here _ _)) as [[a Ha] Hid].
    cbn [app index_of_id length]. unfold mbind, M_bind, bind, deref. rewrite Ha.
    unfold id_at in Hid. rewrite Ha in Hid. cbn in Hid.
    destruct (N.eqb_spec (AudioEffect.id a) u) as [Heq|Hne]; [congruence|].
    rewrite IH; [now rewrite Nat.add_succ_r| |exact Hl].
    intros y Hy. apply Hno. now apply list_elem_of_further.
Qed.

(** X10: [remove_effect] with an id that no effect of the chain has returns
    [False] and changes nothing, the modification time included. *)
Theorem remove_effect_unknown_id (u : UUID) (s : state) :
  allocated s →
  (∀ x, x ∈ effects s.1 → id_at s.2 x ≠ Some u) →
  remove_effect u s = (Return false, s).
Proof.
  intros Hall Hno. destruct s as [chain h]. unfold allocated in Hall. cbn [fst snd] in *.
  unfold remove_effect. unfold mbind, M_bind, bind, self_, in_heap, zoom. cbn [fst snd].
  rewrite index_of_id_absent; [reflexivity|]. intros x Hx. split; [now apply Hall|now apply Hno].
Qed.

Lemma renumber_spec chain h :
  allocated (chain, h) → NoDup (effects chain) →
  ∃ objs',
    (_update_positions ;; _update_modified_time) (chain, h)
    = (Return tt, (set_modified_at (clock (rt h)) chain,
                   Heap (Runtime (next_uuid (rt h)) (N.succ (clock (rt h)))) objs'
                        (next_loc h))) ∧
    (∀ j l, effects chain !! j = Some l →
       ∃ e, effect_objs h !! l = Some e ∧
            objs' !! l = Some (AudioEffect.store_position (VInt (Z.of_nat j)) e)) ∧
    (∀ l, l ∉ effects chain → objs' !! l = effect_objs h !! l).
Proof.
  intros Hall Hnd.
  destruct (set_positions_from_spec (effects chain) 0 h Hnd Hall) as (objs' & Hset & Hin & Hout).
  exists objs'. split; [|split; [exact Hin|exact Hout]].
  unfold _update_positions, _update_modified_time, update_self, in_heap, with_runtime,
    self_, datetime_now.
  unfold mbind, M_bind, bind, modify, zoom. cbn [fst snd]. rewrite Hset.
  cbn [fst snd rt effect_objs next_loc]. reflexivity.
Qed.

Lemma renumber_keeps_ids chain h objs' :
  (∀ j l, effects chain !! j = Some l →
     ∃ e, effect_objs h !! l = Some e ∧
          objs' !! l = Some (AudioEffect.store_position (VInt (Z.of_nat j)) e)) →
  (∀ l, l ∉ effects chain → objs' !! l = effect_objs h !! l) →
  ∀ x r n, id_at (Heap r objs' n) x = id_at h x.
Proof.
  intros Hin Hout x r n. unfold id_at. cbn [effect_objs].
  destruct (decide (x ∈ effects chain)) as [Hx|Hx].
  - apply list_elem_of_lookup in Hx as [j Hj].
    destruct (Hin j x Hj) as (e & -> & ->). reflexivity.
  - now rewrite Hout.
Qed.

Lemma find_none_2 {A} (P : A → bool) (xs : list A) :
  (∀ x, x ∈ xs → P x = false) → find P xs = None.
Proof.
  intros Hno. rewrite <- (app_nil_r xs). now rewrite find_app_r.
Qed.

(** X11: [remove_effect] with the id of an effect of a chain that satisfies
    the invariant returns [True]; the effect is gone, the others keep their
    order and are renumbered, and [get_effect_by_id] no longer finds the id. *)
Theorem remove_effect_takes_the_effect_out
        (u : UUID) (pre post : list loc) (l : loc) (s : state) :
  chain_ok s →
  effects s.1 = (pre ++ l :: post)%list →
  id_at s.2 l = Some u →
  ∃ s',
    remove_effect u s = (Return true, s') ∧
    effects s'.1 = (pre ++ post)%list ∧
    chain_ok s' ∧
    (∀ x, id_at s'.2 x = id_at s.2 x) ∧
    get_effect_by_id u s' = (Return None, s').
Proof.
  intros Hok Heff Hl. pose proof Hok as (Hall & Hpos & Hd).
  pose proof (chain_ok_NoDup s Hok) as Hnd.
  destruct s as [chain h]. unfold allocated in Hall. cbn [fst snd] in *.
  assert (Hother : ∀ x, x ∈ (pre ++ post)%list → id_at h x ≠ Some u).
  { intros x Hx Hid. rewrite Heff in Hnd.
    assert (Hxl : x ≠ l).
    { intros ->. apply NoDup_app in Hnd as (_ & Hdisj & Hnd2).
      apply NoDup_cons in Hnd2 as [Hnotin _].
      apply elem_of_app in Hx as [Hx|Hx]; [|contradiction].
      apply (Hdisj l Hx). apply list_elem_of_here. }
    assert (Hxin : x ∈ effects chain).
    { rewrite Heff. apply elem_of_app in Hx as [Hx|Hx]; apply elem_of_app; [now left|].
      right. now apply list_elem_of_further. }
    assert (Hlin : l ∈ effects chain).
    { rewrite Heff. apply elem_of_app. right. apply list_elem_of_here. }
    apply list_elem_of_lookup in Hxin as [i Hi]. apply list_elem_of_lookup in Hlin as [j Hj].
    unfold id_at in Hid, Hl.
    destruct (effect_objs h !! x) as [a|] eqn:Ha; [|discriminate].
    destruct (effect_objs h !! l) as [b|] eqn:Hb; [|discriminate].
    cbn in Hid, Hl. assert (i = j) by (apply (Hd i j x l a b Hi Hj Ha Hb); congruence).
    subst j. rewrite Hi in Hj. congruence. }
  unfold remove_effect. unfold mbind at 1, M_bind, bind, self_. cbn [fst snd].
  unfold mbind at 1, M_bind, bind, in_heap, zoom. cbn [fst snd].
  rewrite Heff, (index_of_id_present u pre l post 0 h); [|
    intros x Hx; split; [apply Hall; rewrite Heff; apply elem_of_app; now left|
                         apply Hother, elem_of_app; now left] | exact Hl].
  cbn [Nat.add]. unfold mbind at 1, M_bind, bind, update_self, modify. cbn [fst snd].
  cbn [effects set_effects]. rewrite Heff, delete_middle.
  assert (Hsub : sublist (pre ++ post)%list (effects chain)).
  { rewrite Heff. apply sublist_app; [reflexivity|]. now apply sublist_cons. }
  destruct (sublist_keeps_distinct chain h (pre ++ post) Hsub Hall Hd) as [Hall' Hd'].
  assert (Hnd' : NoDup (pre ++ post)%list) by (eapply sublist_NoDup; eauto).
  destruct (renumber_ok _ h Hall' Hd') as (s1 & Hrun1 & _ & Hok1).
  destruct (renumber_spec _ h Hall' Hnd') as (objs' & Hrun & Hin & Hout).
  rewrite Hrun in Hrun1. injection Hrun1 as <-.
  unfold mbind at 1, M_bind, bind. unfold mbind at 1, M_bind, bind in Hrun.
  destruct (_update_positions _) as [[[]|e] s2]; [|discriminate].
  unfold mbind, M_bind, bind. rewrite Hrun. cbn [mret M_ret ret].
  eexists. split; [reflexivity|]. cbn [fst snd effects set_modified_at set_effects].
  split; [reflexivity|]. split; [exact Hok1|].
  pose proof (renumber_keeps_ids _ h objs' Hin Hout) as Hids.
  split; [intros x; apply Hids|].
  rewrite get_effect_by_id_spec by apply Hok1.
  cbn [fst snd effects set_modified_at set_effects]. rewrite find_none_2; [reflexivity|].
  intros x Hx. unfold has_id. rewrite Hids. apply bool_decide_eq_false_2. now apply Hother.
Qed.

Lemma lead_one_chain_ok : chain_ok Sample.lead_one.
Proof.
  unfold Sample.lead_one. cbn [Spec.apply_ops fold_left Spec.apply_op].
  apply add_effect_keeps_chain_ok. exact lead_empty_chain_ok.
Qed.

Lemma add_effect_refuses_full_or_duplicate_witness :
  ∃ err, add_effect 0%nat Sample.lead = (Raise err, Sample.lead) ∧
         (err = TooManyEffects ∨ err = DuplicateEffect) ∧
         (err = TooManyEffects ↔ (MAX_EFFECTS ≤ length (effects Sample.lead.1))%nat).
Proof.
  apply (add_effect_refuses_full_or_duplicate 0%nat
           (AudioEffect.store_position (VInt 0) Sample.boost)).
  - exact (proj1 lead_chain_ok).
  - reflexivity.
  - right. exists 0%nat. split; [apply list_elem_of_here|]. now left.
Defined.

Lemma add_effect_appends_and_is_found_witness :
  ∃ s',
    add_effect 1%nat Sample.lead_one = (Return tt, s') ∧
    effects s'.1 = (effects Sample.lead_one.1 ++ [1%nat])%list ∧
    effect_objs s'.2 !! 1%nat
    = Some (AudioEffect.store_position
              (VInt (Z.of_nat (length (effects Sample.lead_one.1)))) Sample.distortion) ∧
    (∀ x, x ≠ 1%nat → effect_objs s'.2 !! x = effect_objs Sample.lead_one.2 !! x) ∧
    get_effect_by_id (AudioEffect.id Sample.distortion) s' = (Return (Some 1%nat), s').
Proof.
  apply add_effect_appends_and_is_found.
  - exact (proj1 lead_one_chain_ok).
  - reflexivity.
  - vm_compute. lia.
  - intros x Hx. apply list_elem_of_In in Hx. vm_compute in Hx.
    destruct Hx as [<-|[]]. split; [discriminate|]. vm_compute. discriminate.
Defined.

Lemma remove_effect_unknown_id_witness :
  remove_effect 9%N Sample.lead = (Return false, Sample.lead).
Proof.
  apply remove_effect_unknown_id; [exact (proj1 lead_chain_ok)|].
  intros x Hx. apply list_elem_of_In in Hx. vm_compute in Hx.
  destruct Hx as [<-|[<-|[]]]; vm_compute; discriminate.
Defined.

Lemma remove_effect_takes_the_effect_out_witness :
  ∃ s',
    remove_effect 1%N Sample.lead = (Return true, s') ∧
    effects s'.1 = ([] ++ [1%nat])%list ∧
    chain_ok s' ∧
    (∀ x, id_at s'.2 x = id_at Sample.lead.2 x) ∧
    get_effect_by_id 1%N s' = (Return None, s').
Proof.
  apply (remove_effect_takes_the_effect_out 1%N [] [1%nat] 0%nat).
  - exact lead_chain_ok.
  - reflexivity.
  - reflexivity.
Defined.
End ChainMethods.

(** ** Chains as dictionaries, and copies of chains *)

Section ChainDict.
Import EffectsChain Inv.
Context `{TextForms}.

Lemma allocated_objects (ls : list loc) (h : heap) :
  (∀ l, l ∈ ls → is_Some (effect_objs h !! l)) →
  ∃ es, Forall2 (λ l e, effect_objs h !! l = Some e) ls es.
Proof.
  induction ls as [|l ls IH]; intros Hall; [exists []; constructor|].
  destruct (Hall l (list_elem_of_here _ _)) as [e He].
  destruct IH as [es Hes]; [intros x Hx; apply Hall; now apply list_elem_of_further|].
  exists (e :: es). now constructor.
Qed.

Lemma effects_to_dict_spec ls es h :
  Forall2 (λ l e, effect_objs h !! l = Some e) ls es →
  effects_to_dict ls h = (Return ((λ e, VDict (AudioEffect.to_dict e)) <$> es), h).
Proof.
  induction 1 as [|l e ls es He _ IH]; [reflexivity|].
  cbn [effects_to_dict]. unfold mbind, M_bind, bind, deref. rewrite He.
  unfold mbind, M_bind, bind in IH. now rewrite IH.
Qed.

Lemma append_effects_spec es : ∀ chain h,
  Forall params_ok es →
  ∃ objs',
    append_effects ((λ e, VDict (AudioEffect.to_dict e)) <$> es) (chain, h)
    = (Return tt,
       (set_effects (effects chain ++ seq (next_loc h) (length es)) chain,
        Heap (Runtime (next_uuid (rt h) + N.of_nat (length es)) (clock (rt h)))
             objs' (next_loc h + length es))) ∧
    (∀ i e, es !! i = Some e → objs' !! (next_loc h + i)%nat = Some e) ∧
    (∀ x, (x < next_loc h)%nat → objs' !! x = effect_objs h !! x).
Proof.
  induction es as [|e es IH]; intros chain h Hok.
  - exists (effect_objs h). split; [|split; [intros i e Hi; now rewrite lookup_nil in Hi|auto]].
    cbn. rewrite app_nil_r, N.add_0_r, Nat.add_0_r. destruct chain, h as [[] ? ?]; reflexivity.
  - apply Forall_cons in Hok as [He Hok]. cbn [fmap list_fmap append_effects].
    unfold mbind at 1, M_bind, bind, in_heap, zoom. cbn [fst snd effect_from_value].
    unfold mbind at 1, M_bind, bind, with_runtime, zoom.
    rewrite (from_dict_to_dict e (rt h) He). unfold alloc. cbn [fst snd rt effect_objs next_loc].
    unfold mbind at 1, M_bind, bind, update_self, modify. cbn [fst snd].
    destruct (IH (set_effects (effects chain ++ [next_loc h]) chain)
                 (Heap (Runtime (N.succ (next_uuid (rt h))) (clock (rt h)))
                       (<[next_loc h := e]> (effect_objs h)) (S (next_loc h))) Hok)
      as (objs' & Hrun & Hnew & Hold).
    cbn [fst snd rt effect_objs next_loc next_uuid clock effects set_effects] in *.
    exists objs'. split; [|split].
    + rewrite Hrun. cbn [length seq]. rewrite <- app_assoc. cbn [app].
      replace (N.succ (next_uuid (rt h)) + N.of_nat (length es))%N
        with (next_uuid (rt h) + N.of_nat (S (length es)))%N by lia.
      replace (S (next_loc h) + length es)%nat with (next_loc h + S (length es))%nat by lia.
      reflexivity.
    + intros [|i] a Hi.
      * cbn in Hi. injection Hi as <-. rewrite Nat.add_0_r, Hold by lia.
        apply lookup_insert_eq.
      * cbn in Hi. rewrite <- Nat.add_succ_comm. now apply Hnew.
    + intros x Hx. rewrite Hold by lia. apply lookup_insert_ne. lia.
Qed.

Lemma chain_from_dict_to_dict chain h es h0 :
  Forall2 (λ l e, effect_objs h !! l = Some e) (effects chain) es →
  Forall params_ok es →
  (1 ≤ String.length (name chain) ≤ 50)%nat →
  ∃ d objs',
    to_dict (chain, h) = (Return d, (chain, h)) ∧
    from_dict d h0
    = (Return (set_effects (seq (next_loc h0) (length es)) chain),
       Heap (Runtime (N.succ (next_uuid (rt h0)) + N.of_nat (length es))
                     (N.succ (N.succ (clock (rt h0)))))
            objs' (next_loc h0 + length es)) ∧
    (∀ i e, es !! i = Some e → objs' !! (next_loc h0 + i)%nat = Some e) ∧
    (∀ x, (x < next_loc h0)%nat → objs' !! x = effect_objs h0 !! x).
Proof.
  intros Hes Hok Hname.
  destruct (append_effects_spec es
              (Make (id chain) (name chain) [] (active chain) (created_at chain)
                    (modified_at chain))
              (Heap (Runtime (N.succ (next_uuid (rt h0))) (N.succ (N.succ (clock (rt h0)))))
                    (effect_objs h0) (next_loc h0)) Hok)
    as (objs' & Hrun & Hnew & Hold).
  cbn [rt effect_objs next_loc next_uuid clock effects app] in *.
  eexists _, objs'. split; [|split; [|split; [exact Hnew|exact Hold]]].
  - unfold to_dict. unfold mbind, M_bind, bind, self_, in_heap, zoom. cbn [fst snd].
    rewrite (effects_to_dict_spec _ _ _ Hes). reflexivity.
  - unfold from_dict. unfold mbind, M_bind, bind, lift, mret, M_ret, ret.
    cbn [dict_get dict_get_default String.eqb Ascii.eqb Bool.eqb name_of_value py_iter].
    unfold with_runtime, zoom. rewrite (chain_init_ok _ _ Hname).
    unfold UUID_of_value, fromisoformat_value.
    rewrite uuid_parse_str, !fromisoformat_isoformat.
    cbn [set_id set_active set_created_at set_modified_at id name effects active
         created_at modified_at].
    unfold building, set_id, set_active, set_created_at, set_modified_at.
    cbn [id name effects active created_at modified_at].
    destruct (append_effects _ _) as [o [c' h']].
    injection Hrun as -> -> ->. destruct chain; reflexivity.
Qed.

(** X12: [EffectsChain.from_dict (chain.to_dict ())] rebuilds a chain with
    the same id, name, active flag and timestamps, whose effects are new
    objects with the fields of the old ones, in order; no object that was
    there is touched, and the invariant of the chain carries over. *)
Theorem chain_dict_round_trip (s : state) (h0 : heap) :
  allocated s →
  (∀ l e, l ∈ effects s.1 → effect_objs s.2 !! l = Some e → params_ok e) →
  (1 ≤ String.length (name s.1) ≤ 50)%nat →
  ∃ d c h',
    to_dict s = (Return d, s) ∧
    from_dict d h0 = (Return c, h') ∧
    id c = id s.1 ∧ name c = name s.1 ∧ active c = active s.1 ∧
    created_at c = created_at s.1 ∧ modified_at c = modified_at s.1 ∧
    Forall2 (λ l l', effect_objs h' !! l' = effect_objs s.2 !! l) (effects s.1) (effects c) ∧
    (∀ x, (x < next_loc h0)%nat → effect_objs h' !! x = effect_objs h0 !! x) ∧
    (chain_ok s → chain_ok (c, h')).
Proof.
  intros Hall Hpar Hname. destruct s as [chain h]. unfold allocated in Hall.
  cbn [fst snd] in *.
  destruct (allocated_objects _ _ Hall) as [es Hes].
  assert (Hok : Forall params_ok es).
  { apply Forall_forall. intros e He. apply list_elem_of_lookup in He as [i Hi].
    destruct (Forall2_lookup_r _ _ _ _ _ Hes Hi) as (l & Hl & Hle).
    apply (Hpar l e); [apply list_elem_of_lookup; eauto|exact Hle]. }
  destruct (chain_from_dict_to_dict chain h es h0 Hes Hok Hname)
    as (d & objs' & Hto & Hfrom & Hnew & Hold).
  pose proof (Forall2_length _ _ _ Hes) as Hlen.
  assert (Hat : ∀ i l l', effects chain !! i = Some l →
                 seq (next_loc h0) (length es) !! i = Some l' →
                 objs' !! l' = effect_objs h !! l).
  { intros i l l' Hi Hi'. apply lookup_seq in Hi' as [-> Hlt].
    destruct (Forall2_lookup_l _ _ _ _ _ Hes Hi) as (e & He & Hle).
    rewrite Hle. now apply Hnew. }
  eexists d, _, _. split; [exact Hto|]. split; [exact Hfrom|].
  cbn [id name active created_at modified_at effects set_effects effect_objs].
  do 5 (split; [reflexivity|]). split; [|split; [exact Hold|]].
  - apply Forall2_same_length_lookup. split; [now rewrite length_seq|exact Hat].
  - intros (_ & Hpos & Hd). split; [|split].
    + intros l' Hl'. cbn [fst snd effects set_effects effect_objs] in *.
      apply list_elem_of_lookup in Hl' as [i Hi']. pose proof Hi' as Hi''.
      apply lookup_seq in Hi'' as [_ Hlt].
      destruct (lookup_lt_is_Some_2 (effects chain) i) as [l Hl]; [lia|].
      rewrite (Hat i l l' Hl Hi'). apply Hall, list_elem_of_lookup. eauto.
    + intros i l' Hi'. cbn [fst snd effects set_effects effect_objs] in *.
      pose proof Hi' as Hi''. apply lookup_seq in Hi'' as [_ Hlt].
      destruct (lookup_lt_is_Some_2 (effects chain) i) as [l Hl]; [lia|].
      rewrite (Hat i l l' Hl Hi'). now apply (Hpos i l).
    + intros i j l1 l2 e1 e2 Hi Hj He1 He2 Hid.
      cbn [fst snd effects set_effects effect_objs] in *.
      pose proof Hi as Hi'. apply lookup_seq in Hi' as [_ Hlti].
      pose proof Hj as Hj'. apply lookup_seq in Hj' as [_ Hltj].
      destruct (lookup_lt_is_Some_2 (effects chain) i) as [k1 Hk1]; [lia|].
      destruct (lookup_lt_is_Some_2 (effects chain) j) as [k2 Hk2]; [lia|].
      rewrite (Hat i k1 l1 Hk1 Hi) in He1. rewrite (Hat j k2 l2 Hk2 Hj) in He2.
      exact (Hd i j k1 k2 e1 e2 Hk1 Hk2 He1 He2 Hid).
Qed.

Lemma copy_step l e rest chain' h :
  effect_objs h !! l = Some e → params_ok e →
  chain_wf (chain', h) → (length (effects chain') < MAX_EFFECTS)%nat →
  copy_effects (l :: rest) (chain', h)
  = copy_effects rest
      (set_modified_at (clock (rt h)) (set_effects (effects chain' ++ [next_loc h]) chain'),
       Heap (Runtime (N.succ (N.succ (next_uuid (rt h)))) (N.succ (clock (rt h))))
            (<[next_loc h :=
                 AudioEffect.store_position (VInt (Z.of_nat (length (effects chain'))))
                   (AudioEffect.set_id (N.succ (next_uuid (rt h))) e)]> (effect_objs h))
            (S (next_loc h))).
Proof.
  intros He Hok Hwf Hroom. cbn [copy_effects].
  unfold mbind at 1, M_bind, bind, in_heap, zoom, deref. cbn [fst snd]. rewrite He.
  unfold mbind at 1, M_bind, bind, with_runtime, zoom. cbn [fst snd].
  rewrite (copy_spec e (rt h) Hok).
  unfold mbind at 1, M_bind, bind, alloc. cbn [fst snd rt effect_objs next_loc].
  set (e1 := AudioEffect.set_id (N.succ (next_uuid (rt h))) e).
  set (h1 := Heap (Runtime (N.succ (N.succ (next_uuid (rt h)))) (clock (rt h)))
                  (<[next_loc h := e1]> (effect_objs h)) (S (next_loc h))).
  assert (Hadd := add_effect_new (next_loc h) e1 chain' h1).
  unfold mbind at 1, M_bind, bind. rewrite Hadd; clear Hadd.
  - subst h1. cbn [rt effect_objs next_loc next_uuid clock]. now rewrite insert_insert_eq.
  - apply lookup_insert_eq.
  - exact Hroom.
  - intros x Hx. destruct (Hwf x Hx) as (Hlt & a & Ha & Hid). cbn [fst snd] in *.
    split; [lia|]. exists a. split; [subst h1; cbn; rewrite lookup_insert_ne; [exact Ha|lia]|].
    subst e1. destruct e. cbn in *. lia.
Qed.

Lemma copy_effects_spec ls : ∀ es chain' h,
  Forall2 (λ l e, effect_objs h !! l = Some e) ls es →
  Forall params_ok es →
  (∀ l, l ∈ ls → (l < next_loc h)%nat) →
  chain_wf (chain', h) →
  (length (effects chain') + length ls ≤ MAX_EFFECTS)%nat →
  ∃ chain'' objs' c',
    copy_effects ls (chain', h)
    = (Return tt,
       (chain'', Heap (Runtime (next_uuid (rt h) + 2 * N.of_nat (length ls)) c') objs'
                      (next_loc h + length ls))) ∧
    effects chain'' = (effects chain' ++ seq (next_loc h) (length ls))%list ∧
    name chain'' = name chain' ∧ id chain'' = id chain' ∧
    (∀ i e, es !! i = Some e →
       objs' !! (next_loc h + i)%nat
       = Some (AudioEffect.store_position
                 (VInt (Z.of_nat (length (effects chain') + i)))
                 (AudioEffect.set_id (next_uuid (rt h) + 2 * N.of_nat i + 1) e))) ∧
    (∀ x, (x < next_loc h)%nat → objs' !! x = effect_objs h !! x).
Proof.
  induction ls as [|l ls IH]; intros es chain' h Hes Hok Hlt Hwf Hlen.
  - apply Forall2_nil_inv_l in Hes as ->.
    exists chain', (effect_objs h), (clock (rt h)). cbn [length copy_effects seq].
    rewrite app_nil_r, N.mul_0_r, N.add_0_r, Nat.add_0_r.
    split; [destruct h as [[] ? ?]; reflexivity|]. do 3 (split; [reflexivity|]).
    split; [intros i e Hi; now rewrite lookup_nil in Hi|auto].
  - apply Forall2_cons_inv_l in Hes as (e & es' & He & Hes & ->).
    apply Forall_cons in Hok as [Hoke Hok]. cbn [length] in Hlen.
    rewrite (copy_step l e ls chain' h He Hoke Hwf) by lia.
    set (e1 := AudioEffect.store_position (VInt (Z.of_nat (length (effects chain'))))
                 (AudioEffect.set_id (N.succ (next_uuid (rt h))) e)).
    set (c1 := set_modified_at (clock (rt h))
                 (set_effects (effects chain' ++ [next_loc h]) chain')).
    set (h1 := Heap _ _ _).
    assert (Hc1 : effects c1 = (effects chain' ++ [next_loc h])%list) by reflexivity.
    destruct (IH es' c1 h1) as (chain'' & objs' & c' & Hrun & Heff & Hn & Hi & Hnew & Hold).
    + apply Forall2_same_length_lookup. split; [eapply Forall2_length; eauto|].
      intros i x a Hx Ha. subst h1. cbn [effect_objs].
      rewrite lookup_insert_ne; [exact (Forall2_lookup_lr _ _ _ _ _ _ Hes Hx Ha)|].
      assert (x < next_loc h)%nat; [|lia].
      apply Hlt, list_elem_of_further, list_elem_of_lookup. eauto.
    + exact Hok.
    + intros x Hx. subst h1. cbn [next_loc]. specialize (Hlt x (list_elem_of_further _ _ _ Hx)). lia.
    + unfold chain_wf. cbn [fst snd]. intros x Hx. rewrite Hc1 in Hx. subst h1.
      cbn [fst snd next_loc effect_objs rt next_uuid].
      apply elem_of_app in Hx as [Hx|Hx].
      * destruct (Hwf x Hx) as (Hxl & a & Ha & Hid). cbn [fst snd] in *. split; [lia|].
        exists a. split; [rewrite lookup_insert_ne; [exact Ha|lia]|lia].
      * apply list_elem_of_singleton in Hx as ->. split; [lia|].
        exists e1. split; [apply lookup_insert_eq|]. subst e1. destruct e; cbn. lia.
    + rewrite Hc1, length_app. cbn [length]. lia.
    + subst h1. cbn [rt next_uuid next_loc effect_objs clock] in *.
      exists chain'', objs', c'. split; [|split; [|split; [|split; [|split]]]].
      * rewrite Hrun. cbn [length].
        replace (N.succ (N.succ (next_uuid (rt h))) + 2 * N.of_nat (length ls))%N
          with (next_uuid (rt h) + 2 * N.of_nat (S (length ls)))%N by lia.
        replace (S (next_loc h) + length ls)%nat with (next_loc h + S (length ls))%nat by lia.
        reflexivity.
      * rewrite Heff, Hc1, <- app_assoc. reflexivity.
      * rewrite Hn. reflexivity.
      * rewrite Hi. reflexivity.
      * intros [|i] a Ha.
        -- cbn in Ha. injection Ha as <-. rewrite Nat.add_0_r, Hold by lia.
           rewrite lookup_insert_eq. subst e1.
           replace (next_uuid (rt h) + 2 * N.of_nat 0 + 1)%N with (N.succ (next_uuid (rt h)))
             by lia.
           now rewrite Nat.add_0_r.
        -- cbn in Ha. rewrite <- Nat.add_succ_comm, (Hnew i a Ha), Hc1, length_app.
           cbn [length].
           replace (N.succ (N.succ (next_uuid (rt h))) + 2 * N.of_nat i + 1)%N
             with (next_uuid (rt h) + 2 * N.of_nat (S i) + 1)%N by lia.
           replace (length (effects chain') + 1 + i)%nat
             with (length (effects chain') + S i)%nat by lia.
           reflexivity.
      * intros x Hx. rewrite Hold by lia. apply lookup_insert_ne. lia.
Qed.

Lemma string_length_app (a b : string) :
  String.length (a ++ b) = (String.length a + String.length b)%nat.
Proof. induction a as [|c a IH]; simpl; [reflexivity|now f_equal]. Qed.

(** X13: [copy] of a chain of at most [MAX_EFFECTS] valid effects, under a
    name of 1 to 50 characters, returns a new chain with that name whose
    effects are copies of the original's, in order, with new pairwise
    distinct ids and positions equal to their indices; the original's
    effects are not touched. *)
Theorem chain_copy_holds_renumbered_copies
        (self : t) (new_name : option string) (h : heap) :
  (∀ l, l ∈ effects self →
        (l < next_loc h)%nat ∧ ∃ e, effect_objs h !! l = Some e ∧ params_ok e) →
  (length (effects self) ≤ MAX_EFFECTS)%nat →
  (1 ≤ String.length (copy_name (name self) new_name) ≤ 50)%nat →
  ∃ c h',
    copy self new_name h = (Return c, h') ∧
    name c = copy_name (name self) new_name ∧
    id c = next_uuid (rt h) ∧
    length (effects c) = length (effects self) ∧
    (∀ i l, effects self !! i = Some l →
       ∃ l' e, effects c !! i = Some l' ∧ effect_objs h !! l = Some e ∧
               effect_objs h' !! l'
               = Some (AudioEffect.store_position (VInt (Z.of_nat i))
                         (AudioEffect.set_id (next_uuid (rt h) + 2 * N.of_nat i + 2) e))) ∧
    (∀ x, (x < next_loc h)%nat → effect_objs h' !! x = effect_objs h !! x) ∧
    chain_ok (c, h').
Proof.
  intros Hsrc Hlen Hname.
  destruct (allocated_objects (effects self) h) as [es Hes].
  { intros l Hl. destruct (Hsrc l Hl) as (_ & e & -> & _). eauto. }
  assert (Hok : Forall params_ok es).
  { apply Forall_forall. intros e He. apply list_elem_of_lookup in He as [i Hi].
    destruct (Forall2_lookup_r _ _ _ _ _ Hes Hi) as (l & Hl & Hle).
    destruct (Hsrc l) as (_ & e' & He' & Hp); [apply list_elem_of_lookup; eauto|].
    rewrite Hle in He'. now injection He' as <-. }
  unfold copy. fold (copy_name (name self) new_name).
  unfold mbind, M_bind, bind, with_runtime, zoom.
  rewrite (chain_init_ok _ _ Hname). unfold building.
  set (c0 := Make _ _ _ _ _ _). set (h0 := Heap _ _ _).
  destruct (copy_effects_spec (effects self) es c0 h0)
    as (c & objs' & c' & Hrun & Heff & Hn & Hi & Hnew & Hold).
  - exact Hes.
  - exact Hok.
  - intros l Hl. now destruct (Hsrc l Hl).
  - intros l Hl. now apply elem_of_nil in Hl.
  - cbn. lia.
  - subst h0 c0. cbn [rt next_uuid next_loc effect_objs clock effects name id app length] in *.
    destruct (copy_effects _ _) as [o [c1 h1]]. injection Hrun as -> -> ->.
    pose proof (Forall2_length _ _ _ Hes) as Hlen'.
    eexists _, _. split; [reflexivity|]. cbn [effect_objs].
    split; [exact Hn|]. split; [exact Hi|]. split; [now rewrite Heff, length_seq|].
    split; [|split; [exact Hold|]].
    + intros i l Hl. destruct (Forall2_lookup_l _ _ _ _ _ Hes Hl) as (e & He & Hle).
      exists (next_loc h + i)%nat, e. split; [|split; [exact Hle|]].
      * rewrite Heff. apply lookup_seq. split; [reflexivity|].
        apply lookup_lt_Some in Hl. lia.
      * rewrite (Hnew i e He). cbn [Nat.add].
        replace (N.succ (next_uuid (rt h)) + 2 * N.of_nat i + 1)%N
          with (next_uuid (rt h) + 2 * N.of_nat i + 2)%N by lia.
        reflexivity.
    + assert (Hat : ∀ i l', effects c !! i = Some l' →
                ∃ e, es !! i = Some e ∧
                     objs' !! l' = Some (AudioEffect.store_position (VInt (Z.of_nat i))
                       (AudioEffect.set_id (N.succ (next_uuid (rt h)) + 2 * N.of_nat i + 1) e))).
      { intros i l' Hl'. rewrite Heff in Hl'. apply lookup_seq in Hl' as [-> Hlt].
        destruct (lookup_lt_is_Some_2 es i) as [e He]; [lia|].
        exists e. split; [exact He|]. now rewrite (Hnew i e He). }
      split; [|split].
      * intros l' Hl'. cbn [fst snd effect_objs] in *.
        apply list_elem_of_lookup in Hl' as [i Hl'].
        destruct (Hat i l' Hl') as (e & _ & ->). eauto.
      * intros i l' Hl'. cbn [fst snd effect_objs] in *.
        destruct (Hat i l' Hl') as (e & _ & ->). reflexivity.
      * intros i j l1 l2 e1 e2 Hl1 Hl2 He1 He2 Hid. cbn [fst snd effect_objs] in *.
        destruct (Hat i l1 Hl1) as (a1 & _ & Ha1). destruct (Hat j l2 Hl2) as (a2 & _ & Ha2).
        rewrite Ha1 in He1. rewrite Ha2 in He2. injection He1 as <-. injection He2 as <-.
        destruct a1, a2. cbn in Hid. lia.
Qed.

(** X14: [copy] without a new name appends [" (Copy)"], seven characters,
    to the name: for a chain whose name has more than 43 characters it raises
    the name-length error, and nothing is created. *)
Theorem chain_copy_default_name_too_long (self : t) (h : heap) :
  (43 < String.length (name self))%nat →
  copy self None h = (Raise ChainNameLength, h).
Proof.
  intros Hlong. unfold copy, mbind, M_bind, bind, with_runtime, zoom, __init__.
  assert (Hlen : (50 <? String.length (name self ++ " (Copy)"))%nat = true).
  { apply Nat.ltb_lt. rewrite string_length_app. cbn. lia. }
  rewrite Hlen, orb_true_r. destruct h; reflexivity.
Qed.
End ChainDict.

Section ChainDictSamples.
Import EffectsChain Inv.

Lemma lead_effects_valid l :
  l ∈ effects Sample.lead.1 →
  (l < next_loc Sample.lead.2)%nat ∧
  ∃ e, effect_objs Sample.lead.2 !! l = Some e ∧ params_ok e.
Proof.
  intros Hl. apply list_elem_of_In in Hl. vm_compute in Hl.
  destruct Hl as [<-|[<-|[]]]; (split; [vm_compute; lia|]).
  - exists (AudioEffect.store_position (VInt 0) Sample.boost).
    split; [reflexivity|apply defaults_params_ok].
  - exists (AudioEffect.store_position (VInt 1) Sample.distortion).
    split; [reflexivity|apply defaults_params_ok].
Qed.

Lemma chain_dict_round_trip_witness :
  ∃ d c h',
    to_dict Sample.lead = (Return d, Sample.lead) ∧
    from_dict d Sample.h0 = (Return c, h') ∧
    id c = id Sample.lead.1 ∧ name c = name Sample.lead.1 ∧
    active c = active Sample.lead.1 ∧
    created_at c = created_at Sample.lead.1 ∧ modified_at c = modified_at Sample.lead.1 ∧
    Forall2 (λ l l', effect_objs h' !! l' = effect_objs Sample.lead.2 !! l)
            (effects Sample.lead.1) (effects c) ∧
    (∀ x, (x < next_loc Sample.h0)%nat → effect_objs h' !! x = effect_objs Sample.h0 !! x) ∧
    (chain_ok Sample.lead → chain_ok (c, h')).
Proof.
  apply chain_dict_round_trip.
  - exact (proj1 lead_chain_ok).
  - intros l e Hl He. destruct (lead_effects_valid l Hl) as (_ & e' & He' & Hok).
    rewrite He in He'. now injection He' as <-.
  - vm_compute. lia.
Defined.

Lemma chain_copy_holds_renumbered_copies_witness :
  ∃ c h',
    copy Sample.lead.1 None Sample.lead.2 = (Return c, h') ∧
    name c = copy_name (name Sample.lead.1) None ∧
    id c = next_uuid (rt Sample.lead.2) ∧
    length (effects c) = length (effects Sample.lead.1) ∧
    (∀ i l, effects Sample.lead.1 !! i = Some l →
       ∃ l' e, effects c !! i = Some l' ∧ effect_objs Sample.lead.2 !! l = Some e ∧
               effect_objs h' !! l'
               = Some (AudioEffect.store_position (VInt (Z.of_nat i))
                         (AudioEffect.set_id
                            (next_uuid (rt Sample.lead.2) + 2 * N.of_nat i + 2) e))) ∧
    (∀ x, (x < next_loc Sample.lead.2)%nat →
          effect_objs h' !! x = effect_objs Sample.lead.2 !! x) ∧
    chain_ok (c, h').
Proof.
  apply chain_copy_holds_renumbered_copies.
  - exact lead_effects_valid.
  - vm_compute. lia.
  - vm_compute. lia.
Defined.

Lemma chain_copy_default_name_too_long_witness :
  copy Sample.long_named None Sample.h0 = (Raise ChainNameLength, Sample.h0).
Proof. apply chain_copy_default_name_too_long. vm_compute. lia. Defined.
End ChainDictSamples.

(** ** Presets: chains saved and rebuilt, validation, copies *)

Section PresetOfChain.
Import Inv.

Lemma effects_config_spec ls es h :
  Forall2 (λ l e, effect_objs h !! l = Some e) ls es →
  Preset.effects_config ls h = (Return ((λ e, VDict (Preset.effect_config e)) <$> es), h).
Proof.
  induction 1 as [|l e ls es He _ IH]; [reflexivity|].
  cbn [Preset.effects_config]. unfold mbind, M_bind, bind, deref. rewrite He.
  unfold mbind, M_bind, bind in IH. now rewrite IH.
Qed.

Lemma effect_config_get e :
  dict_get "type" (Preset.effect_config e)
  = Some (VStr (AudioEffect.EffectType_value (AudioEffect.type e))) ∧
  dict_get "parameters" (Preset.effect_config e) = Some (VDict (AudioEffect.parameters e)) ∧
  dict_get "bypassed" (Preset.effect_config e) = Some (AudioEffect.bypassed e).
Proof.
  unfold Preset.effect_config. destruct (truthy _); repeat split.
Qed.

Lemma effect_config_ok e : params_ok e → Spec.descriptor_ok (VDict (Preset.effect_config e)).
Proof.
  intros Hok. destruct (effect_config_get e) as (Hty & Hpar & _).
  exists (Preset.effect_config e), (AudioEffect.type e).
  split; [reflexivity|]. split; [exact Hty|]. split; [right; eauto|].
  unfold Spec.descriptor_params. rewrite Hpar. now apply params_ok_respects_schema.
Qed.

Lemma restores_own_config e e' :
  params_ok e → Spec.restores e' (VDict (Preset.effect_config e)) →
  AudioEffect.type e' = AudioEffect.type e ∧
  AudioEffect.parameters e' = AudioEffect.parameters e ∧
  AudioEffect.bypassed e' = AudioEffect.bypassed e.
Proof.
  intros Hok (cfg & K & [= <-] & Hty & HK & Hb & Hkeys & Hget & _).
  destruct (effect_config_get e) as (Hty' & Hpar & Hbyp).
  rewrite Hty' in Hty. injection Hty as Hty.
  assert (K = AudioEffect.type e) as ->.
  { destruct K, (AudioEffect.type e); try reflexivity; discriminate. }
  unfold Spec.descriptor_params in Hget. rewrite Hpar in Hget.
  unfold dict_get_default in Hb. rewrite Hbyp in Hb.
  split; [exact HK|]. split; [|exact Hb].
  destruct Hok as [Hk Hvals]. apply dict_ext.
  - now rewrite Hkeys.
  - rewrite Hkeys. apply schema_keys_NoDup.
  - intros k Hin. rewrite Hkeys in Hin.
    destruct (dict_get k (AudioEffect.PARAMETER_DEFINITIONS (AudioEffect.type e)))
      as [def|] eqn:Hdef.
    + rewrite (Hget k def Hdef). destruct (Hvals k def Hdef) as (v & -> & Hs).
      f_equal. now apply stored_ok_legal.
    + apply dict_get_None in Hdef. contradiction.
Qed.

(** X15: saving a chain as a preset and rebuilding a chain from the preset
    ([from_effects_chain] then [to_effects_chain]) gives a chain named after
    the preset with one new effect per effect of the original, in order, of
    the same kind, with the same parameters and the same bypassed flag. *)
Theorem chain_to_preset_and_back
        (s : EffectsChain.state) (name : string) (description : option string)
        (tags : list string) (author : option string) (version : string) :
  allocated s →
  (∀ l e, l ∈ EffectsChain.effects s.1 → effect_objs s.2 !! l = Some e → params_ok e) →
  (length (EffectsChain.effects s.1) ≤ EffectsChain.MAX_EFFECTS)%nat →
  (1 ≤ String.length name ≤ 50)%nat →
  match description with Some d => (String.length d ≤ 500)%nat | None => True end →
  Forall (λ tag, Preset.tag_matches tag = true) tags →
  ∃ p h1 c h2,
    Preset.from_effects_chain s.1 name description (Some tags) author version s.2
    = (Return p, h1) ∧
    Preset.to_effects_chain p h1 = (Return c, h2) ∧
    EffectsChain.name c = name ∧
    Forall2 (λ l l', ∃ e e', effect_objs s.2 !! l = Some e ∧ effect_objs h2 !! l' = Some e' ∧
                             AudioEffect.type e' = AudioEffect.type e ∧
                             AudioEffect.parameters e' = AudioEffect.parameters e ∧
                             AudioEffect.bypassed e' = AudioEffect.bypassed e)
            (EffectsChain.effects s.1) (EffectsChain.effects c).
Proof.
  intros Hall Hpar Hlen Hname Hdesc Htags. destruct s as [chain h]. unfold allocated in Hall.
  cbn [fst snd] in *.
  destruct (allocated_objects _ _ Hall) as [es Hes].
  assert (Hok : Forall params_ok es).
  { apply Forall_forall. intros e He. apply list_elem_of_lookup in He as [i Hi].
    destruct (Forall2_lookup_r _ _ _ _ _ Hes Hi) as (l & Hl & Hle).
    apply (Hpar l e); [apply list_elem_of_lookup; eauto|exact Hle]. }
  pose proof (Forall2_length _ _ _ Hes) as Hlen'.
  unfold Preset.from_effects_chain. unfold mbind, M_bind, bind.
  rewrite (effects_config_spec _ _ _ Hes). unfold with_runtime, zoom.
  rewrite preset_init_ok; [|lia|exact Hdesc|exact Htags].
  cbn [rt effect_objs next_loc].
  set (h1 := Heap _ _ _).
  set (cs := (λ e, VDict (Preset.effect_config e)) <$> es).
  eexists _, h1.
  assert (Hinit := chain_init_ok name (rt h1) Hname).
  set (c0 := EffectsChain.Make _ _ _ _ _ _) in Hinit. set (r2 := Runtime _ _) in Hinit.
  destruct (restore_all cs c0 (Heap r2 (effect_objs h1) (next_loc h1)) [])
    as (c & h3 & Hrun & Hres).
  { apply Forall_fmap, Forall_forall. intros e He. apply effect_config_ok.
    now apply (proj1 (Forall_forall _ _) Hok). }
  { intros l Hl. now apply elem_of_nil in Hl. }
  { subst cs. cbn. rewrite length_fmap. lia. }
  { constructor. }
  exists c, h3. split; [reflexivity|]. split; [|split].
  - unfold Preset.to_effects_chain, with_runtime, zoom, mbind, M_bind, bind, lift.
    cbn [Preset.name Preset.effects_chain_config dict_get_default dict_get
         String.eqb Ascii.eqb Bool.eqb py_iter].
    rewrite Hinit. unfold EffectsChain.building. now rewrite Hrun.
  - pose proof (keeps_name_restore cs (c0, Heap r2 (effect_objs h1) (next_loc h1))) as Hn.
    rewrite Hrun in Hn. exact Hn.
  - subst cs. cbn [app] in Hres. rewrite Forall2_fmap_r in Hres.
    apply Forall2_same_length_lookup. split.
    + rewrite (Forall2_length _ _ _ Hres). exact Hlen'.
    + intros i l l' Hl Hl'.
      destruct (Forall2_lookup_l _ _ _ _ _ Hes Hl) as (e & He & Hle).
      pose proof (Forall2_lookup_lr _ _ _ _ _ _ Hres Hl' He) as (_ & e' & He' & Hrest).
      exists e, e'. split; [exact Hle|]. split; [exact He'|].
      apply restores_own_config; [|exact Hrest].
      now apply (proj1 (Forall_forall _ _) Hok), list_elem_of_lookup_2 with i.
Qed.

Lemma chain_to_preset_and_back_witness :
  ∃ p h1 c h2,
    Preset.from_effects_chain Sample.lead.1 "Crunch" None (Some ["rock"]) None "1.0.0"
      Sample.lead.2 = (Return p, h1) ∧
    Preset.to_effects_chain p h1 = (Return c, h2) ∧
    EffectsChain.name c = "Crunch" ∧
    Forall2 (λ l l', ∃ e e', effect_objs Sample.lead.2 !! l = Some e ∧
                             effect_objs h2 !! l' = Some e' ∧
                             AudioEffect.type e' = AudioEffect.type e ∧
                             AudioEffect.parameters e' = AudioEffect.parameters e ∧
                             AudioEffect.bypassed e' = AudioEffect.bypassed e)
            (EffectsChain.effects Sample.lead.1) (EffectsChain.effects c).
Proof.
  apply chain_to_preset_and_back.
  - exact (proj1 lead_chain_ok).
  - intros l e Hl He. destruct (lead_effects_valid l Hl) as (_ & e' & He' & Hok).
    rewrite He in He'. now injection He' as <-.
  - vm_compute. lia.
  - vm_compute. lia.
  - exact I.
  - repeat constructor.
Defined.
End PresetOfChain.

Section PresetValidity.
Import Preset Inv.

(** X16: [Preset.from_json (P.to_json ())] is [P], field by field, for every
    preset that passes the constructor's checks. *)
Theorem preset_json_round_trip `{TextForms} (P : t dict) (r : runtime) :
  Spec.constructed P →
  from_json (to_json P) r
  = (Return P, Runtime (N.succ (next_uuid r)) (N.succ (N.succ (clock r)))).
Proof. apply from_json_to_json. Qed.

Lemma preset_json_round_trip_witness :
  from_json (to_json Sample.clean) Sample.r0
  = (Return Sample.clean,
     Runtime (N.succ (next_uuid Sample.r0)) (N.succ (N.succ (clock Sample.r0)))).
Proof.
  apply preset_json_round_trip.
  split; [vm_compute; lia|]. split; [exact I|]. repeat constructor.
Defined.

(** X17: every preset that [Preset.from_dict] returns for a dictionary
    whose entries have the annotated types went through the constructor's
    checks: a name of 1 to 100 characters, a description of at most 500,
    well-formed tags. *)
Theorem preset_from_dict_is_validated `{TextForms}
        (data : dict) (r r' : runtime) (p : t dict) :
  well_typed data →
  from_dict data r = (Return p, r') → Spec.constructed p.
Proof.
  intros _. unfold from_dict, mbind, M_bind, bind, lift, mret, M_ret, ret.
  destruct (item "name" data) as [name_v|]; [|discriminate].
  destruct (item "effects_chain_config" data) as [config_v|]; [|discriminate].
  destruct (name_of name_v) as [name|]; [|discriminate].
  destruct (dict_of config_v) as [config|]; [|discriminate].
  destruct (opt_str_of _) as [description|]; [|discriminate].
  destruct (tags_of _) as [tags|]; [|discriminate].
  destruct (opt_str_of _) as [author|]; [|discriminate].
  destruct (str_of _) as [version|]; [|discriminate].
  destruct (__init__ _ _ _ _ _ _ r) as [[p0|] r0] eqn:Hinit; [|discriminate].
  apply preset_init_constructed in Hinit as (Hc & _ & _).
  assert (Hid : ∀ (q : t dict) u, Spec.constructed q → Spec.constructed (set_id u q))
    by (intros q u Hq; exact Hq).
  assert (Hcr : ∀ (q : t dict) d, Spec.constructed q → Spec.constructed (set_created_at d q))
    by (intros q d Hq; exact Hq).
  assert (Hmo : ∀ (q : t dict) d, Spec.constructed q → Spec.constructed (set_modified_at d q))
    by (intros q d Hq; exact Hq).
  destruct (dict_get "id" data) as [v|].
  - destruct (UUID_of_value v) as [u|]; [|discriminate].
    destruct (dict_get "created_at" data) as [v1|].
    + destruct (fromisoformat_value v1) as [d1|]; [|discriminate].
      destruct (dict_get "modified_at" data) as [v2|].
      * destruct (fromisoformat_value v2) as [d2|]; [|discriminate]. intros [= <- _]. auto.
      * intros [= <- _]. auto.
    + destruct (dict_get "modified_at" data) as [v2|].
      * destruct (fromisoformat_value v2) as [d2|]; [|discriminate]. intros [= <- _]. auto.
      * intros [= <- _]. auto.
  - destruct (dict_get "created_at" data) as [v1|].
    + destruct (fromisoformat_value v1) as [d1|]; [|discriminate].
      destruct (dict_get "modified_at" data) as [v2|].
      * destruct (fromisoformat_value v2) as [d2|]; [|discriminate]. intros [= <- _]. auto.
      * intros [= <- _]. auto.
    + destruct (dict_get "modified_at" data) as [v2|].
      * destruct (fromisoformat_value v2) as [d2|]; [|discriminate]. intros [= <- _]. auto.
      * intros [= <- _]. auto.
Qed.

Lemma preset_from_dict_is_validated_witness : Spec.constructed Sample.clean.
Proof.
  apply (preset_from_dict_is_validated (to_dict Sample.clean) Sample.r0
           (Runtime (N.succ (next_uuid Sample.r0)) (N.succ (N.succ (clock Sample.r0))))).
  - repeat split; intros v Hv; vm_compute in Hv; injection Hv as <-; eauto.
    right. now exists ["rock"].
  - reflexivity.
Defined.

Lemma bind_keeps {S A B} (I : S → Prop) (m : M S A) (k : A → M S B) :
  (∀ s, I s → I (m s).2) → (∀ a s, I s → I (k a s).2) →
  ∀ s, I s → I ((m ≫= k) s).2.
Proof.
  intros Hm Hk s Hs. unfold mbind, M_bind, bind. specialize (Hm s Hs).
  destruct (m s) as [[a|e] s1]; [now apply Hk|exact Hm].
Qed.

(** X18: [Preset.update], whether it returns or raises part-way, leaves a
    preset that still passes the constructor's checks, with the id, creation
    time, author and version it had. *)
Theorem preset_update_keeps_validity {C}
        (name description : option string) (tags : option (list string))
        (effects_chain_config : option C) (p : t C) (r : runtime) :
  Spec.constructed p →
  Spec.constructed (update name description tags effects_chain_config (p, r)).2.1 ∧
  id (update name description tags effects_chain_config (p, r)).2.1 = id p ∧
  created_at (update name description tags effects_chain_config (p, r)).2.1 = created_at p ∧
  author (update name description tags effects_chain_config (p, r)).2.1 = author p ∧
  version (update name description tags effects_chain_config (p, r)).2.1 = version p.
Proof.
  intros Hp.
  set (I := λ s : t C * runtime,
         Spec.constructed s.1 ∧ id s.1 = id p ∧ created_at s.1 = created_at p ∧
         author s.1 = author p ∧ version s.1 = version p).
  change (I (update name description tags effects_chain_config (p, r)).2).
  assert (I (p, r)) as H0 by (subst I; cbn; auto).
  revert H0. generalize (p, r). unfold update.
  apply bind_keeps; [|intros []; apply bind_keeps;
    [|intros []; apply bind_keeps; [|intros []; apply bind_keeps;
      [|intros []; apply bind_keeps]]]].
  - intros s Hs. destruct name as [n|]; [|exact Hs].
    destruct (Nat.ltb_spec (String.length n) 1) as [|Hlo]; [exact Hs|].
    destruct (Nat.ltb_spec 100 (String.length n)) as [|Hhi]; [exact Hs|].
    destruct Hs as ((Hn & Hd & Ht) & Hrest). split; [|exact Hrest].
    split; [cbn; lia|]. split; assumption.
  - intros s Hs. destruct description as [d|]; [|exact Hs].
    destruct (Nat.ltb_spec 500 (String.length d)) as [|Hdd]; [exact Hs|].
    destruct Hs as ((Hn & Hd & Ht) & Hrest). split; [|exact Hrest].
    split; [exact Hn|]. split; [exact Hdd|exact Ht].
  - intros s Hs. destruct tags as [l|]; [|exact Hs].
    destruct (forallb tag_matches l) eqn:Hl; [|exact Hs].
    destruct Hs as ((Hn & Hd & Ht) & Hrest). split; [|exact Hrest].
    split; [exact Hn|]. split; [exact Hd|]. apply Forall_forall. intros tag Htag.
    apply (proj1 (forallb_forall _ _) Hl). now apply list_elem_of_In.
  - intros s Hs. destruct effects_chain_config; exact Hs.
  - intros s Hs. exact Hs.
  - intros d s Hs. exact Hs.
Qed.

Lemma preset_update_keeps_validity_witness :
  Spec.constructed
    (update (Some "Crunch") (Some "") (Some ["bad tag"]) None (Sample.clean, Sample.r0)).2.1 ∧
  id (update (Some "Crunch") (Some "") (Some ["bad tag"]) None (Sample.clean, Sample.r0)).2.1
  = id Sample.clean ∧
  created_at
    (update (Some "Crunch") (Some "") (Some ["bad tag"]) None (Sample.clean, Sample.r0)).2.1
  = created_at Sample.clean ∧
  author (update (Some "Crunch") (Some "") (Some ["bad tag"]) None (Sample.clean, Sample.r0)).2.1
  = author Sample.clean ∧
  version (update (Some "Crunch") (Some "") (Some ["bad tag"]) None (Sample.clean, Sample.r0)).2.1
  = version Sample.clean.
Proof.
  apply preset_update_keeps_validity.
  split; [vm_compute; lia|]. split; [exact I|]. repeat constructor.
Defined.

Lemma tag_rest_chars (s : string) :
  Forall (λ c, tag_char c = true) (list_ascii_of_string s) → tag_rest s = true.
Proof.
  induction s as [|c s IH]; intros Hall; [reflexivity|].
  cbn [list_ascii_of_string] in Hall. apply Forall_cons in Hall as [Hc Hall]. cbv beta in Hc.
  cbn [tag_rest]. rewrite Hc. now apply IH.
Qed.

Lemma tag_rest_newline (s : string) :
  Forall (λ c, tag_char c = true) (list_ascii_of_string s) →
  tag_rest (s ++ String "010" "") = true.
Proof.
  induction s as [|c s IH]; intros Hall; [reflexivity|].
  cbn [list_ascii_of_string] in Hall. apply Forall_cons in Hall as [Hc Hall]. cbv beta in Hc.
  change (tag_rest (String c (s ++ String "010" "")) = true).
  cbn [tag_rest]. rewrite Hc. now apply IH.
Qed.

Lemma tag_rest_inv (s : string) :
  tag_rest s = true →
  ∃ body, Forall (λ c, tag_char c = true) (list_ascii_of_string body) ∧
          (s = body ∨ s = body ++ String "010" "").
Proof.
  induction s as [|c s IH]; intros Hs.
  - exists "". split; [constructor|now left].
  - cbn [tag_rest] in Hs. destruct (tag_char c) eqn:Hc.
    + destruct (IH Hs) as (body & Hb & Hor). exists (String c body).
      split; [cbn [list_ascii_of_string]; now constructor|].
      destruct Hor as [->| ->]; [now left|now right].
    + apply andb_true_iff in Hs as [Hnl Hend]. apply Nat.eqb_eq in Hnl.
      apply String.eqb_eq in Hend as ->. exists "". split; [constructor|]. right.
      change (String c "" = String "010" ""). f_equal.
      rewrite <- (ascii_nat_embedding c), Hnl. reflexivity.
Qed.

(** X19: the tag test ([re.match] of [^[a-zA-Z0-9_-]+$]) accepts exactly the
    non-empty runs of letters, digits, [_] and [-], and such a run followed
    by one newline. *)
Theorem tag_matches_characterised (tag : string) :
  tag_matches tag = true ↔
  ∃ body, body ≠ "" ∧
          Forall (λ c, tag_char c = true) (list_ascii_of_string body) ∧
          (tag = body ∨ tag = body ++ String "010" "").
Proof.
  split.
  - destruct tag as [|c s]; [discriminate|]. cbn [tag_matches]. intros Ht.
    apply andb_true_iff in Ht as [Hc Hs].
    destruct (tag_rest_inv s Hs) as (body & Hb & Hor).
    exists (String c body). split; [discriminate|].
    split; [cbn [list_ascii_of_string]; now constructor|].
    destruct Hor as [->| ->]; [now left|now right].
  - intros ([|c body] & Hne & Hall & Hor); [contradiction|].
    cbn [list_ascii_of_string] in Hall. apply Forall_cons in Hall as [Hc Hall]. cbv beta in Hc.
    destruct Hor as [->| ->].
    + cbn [tag_matches]. rewrite Hc. now apply tag_rest_chars.
    + change (tag_char c && tag_rest (body ++ String "010" "") = true).
      rewrite Hc. now apply tag_rest_newline.
Qed.

Lemma copy_name_length (name : string) (new_name : option string) :
  (1 ≤ String.length (copy_name name new_name))%nat.
Proof.
  unfold copy_name. destruct new_name as [[|c n]|]; cbn [truthy String.eqb negb];
    try (rewrite string_length_app; cbn; lia). cbn. lia.
Qed.

Lemma init_no_tags {C} name (config : C) description author version :
  __init__ name config description None author version
  = __init__ name config description (Some []) author version.
Proof. reflexivity. Qed.

(** X20: [Preset.copy] of a valid preset, under a name of at most 100
    characters, returns a preset with a new id, that name, new timestamps,
    the same description, tags, author and version, and, as configuration,
    a new dictionary object with the entries of the original's. *)
Theorem preset_copy_is_a_renamed_duplicate
        (self : t slot) (new_name : option string) (o : objects) (l : loc) (c : container) :
  Spec.constructed self →
  effects_chain_config self = SRef l →
  containers o !! l = Some c →
  (String.length (copy_name (name self) new_name) ≤ 100)%nat →
  copy self new_name o
  = (Return (Make (next_uuid (obj_rt o)) (copy_name (name self) new_name) (description self)
                  (SRef (next_obj o)) (clock (obj_rt o)) (N.succ (clock (obj_rt o)))
                  (tags self) (author self) (version self)),
     Objects (Runtime (N.succ (next_uuid (obj_rt o))) (N.succ (N.succ (clock (obj_rt o)))))
             (<[next_obj o := c]> (containers o)) (S (next_obj o))).
Proof.
  intros (_ & Hd & Ht) Hcfg Hl Hlen. unfold copy. fold (copy_name (name self) new_name).
  rewrite Hcfg. unfold PyObj.copy, PyObj.read, PyObj.new.
  unfold mbind, M_bind, bind, zoom, mret, M_ret, ret. rewrite Hl.
  cbn [obj_rt containers next_obj].
  pose proof (copy_name_length (name self) new_name) as Hlo.
  destruct (tags self) as [|tag tags] eqn:Htags.
  - rewrite init_no_tags, preset_init_ok; [reflexivity|lia|exact Hd|constructor].
  - rewrite preset_init_ok; [reflexivity|lia|exact Hd|exact Ht].
Qed.

Lemma preset_copy_is_a_renamed_duplicate_witness :
  copy Sample.clean_ref None Sample.clean_objects
  = (Return (Make (next_uuid (obj_rt Sample.clean_objects))
                  (copy_name (name Sample.clean_ref) None) (description Sample.clean_ref)
                  (SRef (next_obj Sample.clean_objects))
                  (clock (obj_rt Sample.clean_objects))
                  (N.succ (clock (obj_rt Sample.clean_objects)))
                  (tags Sample.clean_ref) (author Sample.clean_ref)
                  (version Sample.clean_ref)),
     Objects (Runtime (N.succ (next_uuid (obj_rt Sample.clean_objects)))
                      (N.succ (N.succ (clock (obj_rt Sample.clean_objects)))))
             (<[next_obj Sample.clean_objects :=
                  CDict [("name", SStr "Lead"); ("effects", SRef 2)]]>
                (containers Sample.clean_objects))
             (S (next_obj Sample.clean_objects))).
Proof.
  apply (preset_copy_is_a_renamed_duplicate Sample.clean_ref None Sample.clean_objects 3%nat).
  - split; [vm_compute; lia|]. split; [exact I|]. repeat constructor.
  - reflexivity.
  - reflexivity.
  - vm_compute. lia.
Defined.

(** X21: [Preset.copy] without a new name appends [" (Copy)"], seven
    characters, to the name: for a preset whose name has more than 93
    characters the constructor refuses the name. *)
Theorem preset_copy_default_name_too_long
        (self : t slot) (o : objects) (l : loc) (c : container) :
  effects_chain_config self = SRef l →
  containers o !! l = Some c →
  (93 < String.length (name self))%nat →
  (copy self None o).1 = Raise PresetNameLength.
Proof.
  intros Hcfg Hl Hlong. unfold copy. rewrite Hcfg. unfold PyObj.copy, PyObj.read, PyObj.new.
  unfold mbind, M_bind, bind, zoom, mret, M_ret, ret. rewrite Hl.
  cbn [obj_rt containers next_obj]. unfold __init__.
  assert (Hlen : (100 <? String.length (name self ++ " (Copy)"))%nat = true).
  { apply Nat.ltb_lt. rewrite string_length_app. cbn. lia. }
  rewrite Hlen, orb_true_r. reflexivity.
Qed.

Lemma preset_copy_default_name_too_long_witness :
  (copy Sample.long_preset None Sample.clean_objects).1 = Raise PresetNameLength.
Proof.
  apply (preset_copy_default_name_too_long Sample.long_preset Sample.clean_objects 3%nat
           (CDict [("name", SStr "Lead"); ("effects", SRef 2)])).
  - reflexivity.
  - reflexivity.
  - vm_compute. lia.
Defined.
End PresetValidity.

(** ** The preset store *)

Section PresetStore.
Import PresetManager Inv.
Context `{TextForms}.

Lemma save_preset_returns cfg m p m' :
  save_preset cfg m = (Return p, m') →
  ∃ name config,
    cfg_name cfg = Some name ∧ cfg_effects_chain_config cfg = Some config ∧
    _preset_names m !! name = None ∧ writable m = true ∧
    Spec.constructed p ∧
    p = Preset.Make (next_uuid (runtime_ m)) name (cfg_description cfg) config
          (clock (runtime_ m)) (N.succ (clock (runtime_ m)))
          (match cfg_tags cfg with Some l => l | None => [] end) (cfg_author cfg)
          (match cfg_version cfg with Some v => v | None => "1.0.0" end) ∧
    m' = Make (<[Preset.id p := p]> (_presets m))
              (<[Preset.name p := Preset.id p]> (_preset_names m))
              (<[Preset.id p := Preset.to_json p]> (files m)) true
              (Runtime (N.succ (next_uuid (runtime_ m))) (N.succ (N.succ (clock (runtime_ m))))).
Proof.
  unfold save_preset.
  destruct (cfg_name cfg) as [name|]; [|discriminate].
  destruct (cfg_effects_chain_config cfg) as [config|]; [|discriminate].
  unfold mbind at 1, M_bind, bind, _preset_name_exists, get, mret, M_ret, ret.
  unfold mbind at 1, M_bind, bind.
  destruct (_preset_names m !! name) as [i|] eqn:Hn.
  { rewrite bool_decide_eq_true_2 by eauto. discriminate. }
  rewrite bool_decide_eq_false_2 by (intros [? ?]; discriminate).
  unfold rethrow, mbind, M_bind, bind, in_runtime, zoom.
  destruct (Preset.__init__ _ _ _ _ _ _ _) as [[p0|e] r0] eqn:Hinit; [|discriminate].
  apply preset_init_constructed in Hinit as (Hc & -> & ->).
  unfold _save_to_file, mbind, M_bind, bind, get, put, modify, mret, M_ret, ret.
  cbn [writable]. destruct (writable m) eqn:Hw; [|discriminate].
  intros [= <- <-]. exists name, config. cbn. auto 10.
Qed.

Lemma save_preset_ok cfg m name config :
  cfg_name cfg = Some name → cfg_effects_chain_config cfg = Some config →
  _preset_names m !! name = None → writable m = true →
  (1 ≤ String.length name ≤ 100)%nat →
  match cfg_description cfg with Some d => (String.length d ≤ 500)%nat | None => True end →
  match cfg_tags cfg with
  | Some l => Forall (λ tag, Preset.tag_matches tag = true) l
  | None => True
  end →
  ∃ p m', save_preset cfg m = (Return p, m').
Proof.
  intros Hname Hconfig Hfree Hw Hlen Hd Ht. unfold save_preset. rewrite Hname, Hconfig.
  unfold mbind at 1, M_bind, bind, _preset_name_exists, get, mret, M_ret, ret.
  unfold mbind at 1, M_bind, bind. rewrite Hfree.
  rewrite bool_decide_eq_false_2 by (intros [? ?]; discriminate).
  unfold rethrow, mbind, M_bind, bind, in_runtime, zoom.
  destruct (cfg_tags cfg) as [l|].
  - rewrite preset_init_ok by assumption.
    unfold _save_to_file, mbind, M_bind, bind, get, put, modify, mret, M_ret, ret.
    cbn [writable]. rewrite Hw. eauto.
  - rewrite init_no_tags, preset_init_ok; [|assumption|assumption|constructor].
    unfold _save_to_file, mbind, M_bind, bind, get, put, modify, mret, M_ret, ret.
    cbn [writable]. rewrite Hw. eauto.
Qed.

Lemma store_ok_fresh m : store_ok m → _presets m !! next_uuid (runtime_ m) = None.
Proof.
  intros (_ & _ & Hfresh). destruct (_presets m !! next_uuid (runtime_ m)) eqn:Hp; [|reflexivity].
  exfalso. specialize (Hfresh (next_uuid (runtime_ m))). rewrite Hp in Hfresh.
  specialize (Hfresh (mk_is_Some _ _ eq_refl)). lia.
Qed.

Lemma save_preset_raises cfg m e :
  (save_preset cfg m).1 = Raise e →
  _presets (save_preset cfg m).2 = _presets m ∧
  _preset_names (save_preset cfg m).2 = _preset_names m ∧
  files (save_preset cfg m).2 = files m ∧
  (next_uuid (runtime_ m) ≤ next_uuid (runtime_ (save_preset cfg m).2))%N.
Proof.
  destruct (save_preset cfg m) as [o m'] eqn:E. cbn [fst snd]. intros ->. revert E.
  unfold save_preset.
  destruct (cfg_name cfg) as [name|]; [|intros [= _ <-]; repeat split; lia].
  destruct (cfg_effects_chain_config cfg) as [config|]; [|intros [= _ <-]; repeat split; lia].
  unfold mbind at 1, M_bind, bind, _preset_name_exists, get, mret, M_ret, ret.
  unfold mbind at 1, M_bind, bind.
  destruct (bool_decide _); [intros [= _ <-]; repeat split; lia|].
  unfold rethrow, mbind, M_bind, bind, in_runtime, zoom.
  destruct (Preset.__init__ name config _ _ _ _ _) as [[p0|e0] r0] eqn:Hinit.
  - apply preset_init_constructed in Hinit as (_ & _ & ->).
    unfold _save_to_file, mbind, M_bind, bind, get, put, modify, mret, M_ret, ret.
    cbn [writable]. destruct (writable m); [discriminate|].
    intros [= _ <-]. cbn. repeat split; lia.
  - assert (r0 = runtime_ m) as ->.
    { revert Hinit. unfold Preset.__init__.
      destruct (_ || _); [intros [= _ <-]; reflexivity|].
      destruct (match cfg_description cfg with Some _ => _ | None => _ end);
        [intros [= _ <-]; reflexivity|].
      destruct (match cfg_tags cfg with Some _ => _ | None => _ end);
        [intros [= _ <-]; reflexivity|discriminate]. }
    intros [= _ <-]. cbn. repeat split; lia.
Qed.

Lemma save_preset_keeps_store_ok cfg m : store_ok m → store_ok (save_preset cfg m).2.
Proof.
  intros Hok. pose proof (store_ok_fresh m Hok) as Hfr.
  destruct Hok as (Hcons & Hkey & Hfresh).
  split; [now apply save_preset_keeps_index_consistent|].
  destruct (save_preset cfg m) as [[p|e] m'] eqn:Hsave.
  - apply save_preset_returns in Hsave
      as (name & config & _ & _ & _ & _ & _ & Hp & ->).
    cbn [snd _presets runtime_ next_uuid]. split.
    + intros i q Hq. destruct (decide (i = Preset.id p)) as [->|Hne].
      * rewrite lookup_insert_eq in Hq. now injection Hq as <-.
      * rewrite lookup_insert_ne in Hq by congruence. now apply Hkey.
    + intros i Hi. destruct (decide (i = Preset.id p)) as [->|Hne].
      * rewrite Hp. cbn. lia.
      * rewrite lookup_insert_ne in Hi by congruence. specialize (Hfresh i Hi). lia.
  - pose proof (save_preset_raises cfg m e) as Hr. rewrite Hsave in Hr.
    cbn [fst snd] in *. destruct (Hr eq_refl) as (Hps & _ & _ & Hle). rewrite Hps.
    split; [exact Hkey|]. intros i Hi. specialize (Hfresh i Hi). lia.
Qed.

(** X22: [save_preset] with a name that is not taken, valid fields and a
    writable directory returns the new preset, stored under its id, indexed
    under its name and written to its file; the store stays well formed, and
    saving under that name again is refused. *)
Theorem save_preset_stores_and_indexes
        (cfg : preset_config) (m : t) (name : string) (config : dict) :
  cfg_name cfg = Some name → cfg_effects_chain_config cfg = Some config →
  _preset_names m !! name = None → writable m = true →
  (1 ≤ String.length name ≤ 100)%nat →
  match cfg_description cfg with Some d => (String.length d ≤ 500)%nat | None => True end →
  match cfg_tags cfg with
  | Some l => Forall (λ tag, Preset.tag_matches tag = true) l
  | None => True
  end →
  ∃ p m',
    save_preset cfg m = (Return p, m') ∧
    p = Preset.Make (next_uuid (runtime_ m)) name (cfg_description cfg) config
          (clock (runtime_ m)) (N.succ (clock (runtime_ m)))
          (match cfg_tags cfg with Some l => l | None => [] end) (cfg_author cfg)
          (match cfg_version cfg with Some v => v | None => "1.0.0" end) ∧
    _presets m' = <[Preset.id p := p]> (_presets m) ∧
    _preset_names m' = <[name := Preset.id p]> (_preset_names m) ∧
    files m' = <[Preset.id p := Preset.to_json p]> (files m) ∧
    (save_preset cfg m').1 = Raise PresetNameExists ∧
    (store_ok m → store_ok m').
Proof.
  intros Hname Hconfig Hfree Hw Hlen Hd Ht.
  destruct (save_preset_ok cfg m name config Hname Hconfig Hfree Hw Hlen Hd Ht)
    as (p & m' & Hsave).
  exists p, m'. split; [exact Hsave|].
  pose proof Hsave as Hret.
  apply save_preset_returns in Hret
    as (name' & config' & Hname' & Hconfig' & _ & _ & Hc & Hp & Hm').
  rewrite Hname in Hname'. injection Hname' as <-.
  rewrite Hconfig in Hconfig'. injection Hconfig' as <-.
  split; [exact Hp|]. assert (Hpn : Preset.name p = name) by (rewrite Hp; reflexivity).
  split; [now rewrite Hm'|]. split; [rewrite Hm'; cbn; now rewrite Hpn|].
  split; [now rewrite Hm'|]. split.
  - unfold save_preset. rewrite Hname, Hconfig.
    unfold mbind at 1, M_bind, bind, _preset_name_exists, get, mret, M_ret, ret.
    unfold mbind at 1, M_bind, bind. rewrite Hm'. cbn [_preset_names].
    rewrite Hpn, lookup_insert_eq. rewrite bool_decide_eq_true_2 by eauto. reflexivity.
  - intros Hok. pose proof (save_preset_keeps_store_ok cfg m Hok) as Hk.
    now rewrite Hsave in Hk.
Qed.

(** X23: for a configuration whose entries have the annotated types, when
    [save_preset] raises, whatever the reason, the two maps are as they were;
    so are the files, unless the exception comes from writing the file. *)
Theorem save_preset_failure_changes_no_map
        (d : dict) (cfg : preset_config) (m : t) (e : exn) :
  read_preset_config d = Some cfg →
  (save_preset cfg m).1 = Raise e →
  _presets (save_preset cfg m).2 = _presets m ∧
  _preset_names (save_preset cfg m).2 = _preset_names m ∧
  (e ≠ FailedToSave IOError → files (save_preset cfg m).2 = files m).
Proof.
  intros _ Hr. destruct (save_preset_raises cfg m e Hr) as (H1 & H2 & H3 & _). auto.
Qed.

(** X24: [delete_preset] of a stored preset, when its file can be removed
    or there is none, returns [True]; the preset, its name and its file are
    gone, the store stays well formed, and deleting the same id again raises
    "Preset not found".  When the file is there and the directory refuses the
    removal, the call raises "Failed to delete preset: .." and the store is
    as it was. *)
Theorem delete_preset_frees_id_and_name (i : UUID) (p : Preset.t dict) (m : t) :
  store_ok m →
  _presets m !! i = Some p →
  (writable m = true ∨ files m !! i = None →
   ∃ m',
     delete_preset i m = (Return true, m') ∧
     _presets m' = delete i (_presets m) ∧
     _preset_names m' = delete (Preset.name p) (_preset_names m) ∧
     files m' = delete i (files m) ∧
     store_ok m' ∧
     (delete_preset i m').1 = Raise PresetNotFound) ∧
  (writable m = false → is_Some (files m !! i) →
   delete_preset i m = (Raise (FailedToDelete OSError), m)).
Proof.
  intros ([Hn Hp] & Hkey & Hfresh) Hi. pose proof (Hp i p Hi) as Hname.
  split.
  2:{ intros Hw [doc Hdoc]. unfold delete_preset.
      unfold mbind at 1, M_bind, bind, get. rewrite Hi.
      unfold rethrow, mbind, M_bind, bind, get. now rewrite Hdoc, Hw. }
  intros Hcan.
  assert (Hfiles : ∃ m1,
            (match files m !! i with
             | Some _ =>
                 if writable m
                 then modify (λ m, set_files (delete i (files m)) m)
                 else raise OSError
             | None => mret ()
             end) m = (Return tt, m1) ∧
            m1 = set_files (delete i (files m)) m).
  { destruct (files m !! i) as [doc|] eqn:Hdoc.
    - destruct Hcan as [->|?]; [|discriminate]. eexists. split; reflexivity.
    - eexists. split; [reflexivity|]. unfold set_files.
      rewrite delete_id by exact Hdoc. now destruct m. }
  destruct Hfiles as (m1 & Hrun & ->).
  unfold delete_preset. unfold mbind at 1, M_bind, bind, get. rewrite Hi.
  unfold rethrow. unfold mbind at 1, M_bind, bind. rewrite Hrun.
  unfold mbind, M_bind, bind, get, put, modify, mret, M_ret, ret.
  unfold set_presets, set_files, set_names.
  cbn [_preset_names _presets files writable runtime_]. rewrite Hname.
  eexists. split; [reflexivity|]. cbn [_presets _preset_names files].
  do 3 (split; [reflexivity|]). split; [split; [split|split]|].
  - intros n j Hj. cbn [_presets _preset_names] in *.
    apply lookup_delete_Some in Hj as [Hne Hj]. destruct (Hn n j Hj) as (q & Hq & Hqn).
    exists q. split; [|exact Hqn]. apply lookup_delete_Some. split; [|exact Hq].
    intros <-. rewrite Hi in Hq. injection Hq as <-. congruence.
  - intros j q Hq. cbn [_presets _preset_names] in *.
    apply lookup_delete_Some in Hq as [Hne Hq]. apply lookup_delete_Some.
    split; [|now apply Hp]. intros Heq. pose proof (Hp j q Hq) as Hj.
    rewrite <- Heq, Hname in Hj. congruence.
  - intros j q Hq. cbn [_presets] in Hq. apply lookup_delete_Some in Hq as [_ Hq].
    now apply Hkey.
  - intros j Hj. cbn [_presets runtime_] in *. apply Hfresh.
    destruct Hj as [q Hq]. apply lookup_delete_Some in Hq as [_ Hq]. eauto.
  - unfold mbind, M_bind, bind, get. cbn [_presets]. now rewrite lookup_delete_eq.
Qed.

Lemma preset_update_returns {C} n d tg (c : option C) (p : Preset.t C) r p' r' :
  Preset.update n d tg c (p, r) = (Return tt, (p', r')) →
  Preset.name p' = match n with Some x => x | None => Preset.name p end ∧
  Preset.id p' = Preset.id p ∧
  r' = Runtime (next_uuid r) (N.succ (clock r)).
Proof.
  unfold Preset.update, mbind, M_bind, bind, modify, raise, mret, M_ret, ret, zoom,
    datetime_now.
  destruct n as [n|]; [destruct (_ || _)|]; destruct d as [d|];
    try destruct (500 <? _)%nat; destruct tg as [l|]; try destruct (negb _);
    destruct c; cbn; intros E; try discriminate; injection E as <- <-; auto.
Qed.

(** X25: for an update whose entries have the annotated types (a name,
    when given, is a [str]), when [update_preset] returns, the store is well
    formed again: the updated preset is stored under its id and written to
    its file, the name index follows a change of name. *)
Theorem update_preset_success_keeps_store_ok
        (i : UUID) (d : dict) (cfg : update_config) (m m' : t) (p : Preset.t dict) :
  read_update_config d = Some cfg →
  store_ok m →
  update_preset i cfg m = (Return p, m') →
  store_ok m' ∧
  _presets m' !! i = Some p ∧
  files m' !! i = Some (Preset.to_json p) ∧
  Preset.id p = i ∧
  (∀ n, upd_name cfg = Some n → Preset.name p = n ∧ _preset_names m' !! n = Some i).
Proof.
  intros _ ([Hn Hp] & Hkey & Hfresh). unfold update_preset.
  unfold mbind at 1, M_bind, bind, get.
  destruct (_presets m !! i) as [preset|] eqn:Hi; [|discriminate].
  pose proof (Hp i preset Hi) as Hold. pose proof (Hkey i preset Hi) as Hid.
  remember (Preset.name preset) as old eqn:Hold_def.
  set (names1 := match upd_name cfg with
                 | Some new => if String.eqb new old then _preset_names m
                               else <[new := i]> (delete old (_preset_names m))
                 | None => _preset_names m
                 end).
  unfold mbind at 1, M_bind, bind.
  match goal with
  | |- match ?step with _ => _ end = _ → _ =>
      destruct step as [[[]|e] m1] eqn:Hstep; [|discriminate]
  end.
  assert (Hm1 : m1 = set_names names1 m ∧
                ∀ new j, upd_name cfg = Some new → new ≠ old →
                         _preset_names m !! new = Some j → j = i).
  { subst names1. destruct (upd_name cfg) as [new|].
    - destruct (String.eqb_spec new old) as [Heq|Hne]; cbn [negb] in Hstep.
      + injection Hstep as <-. split; [now destruct m|]. intros ? ? [= <-]. contradiction.
      + unfold mbind, M_bind, bind, get, put, modify, raise, mret, M_ret, ret in Hstep.
        destruct (_preset_names m !! new) as [ex|] eqn:Hex.
        * destruct (N.eqb_spec ex i) as [->|Hne']; cbn [negb] in Hstep; [|discriminate].
          rewrite Hold in Hstep. injection Hstep as <-.
          split; [reflexivity|]. intros ? j [= <-] _ Hj. congruence.
        * rewrite Hold in Hstep. injection Hstep as <-.
          split; [reflexivity|]. intros ? j [= <-] _ Hj. congruence.
    - injection Hstep as <-. split; [now destruct m|]. discriminate. }
  destruct Hm1 as [-> Hfree]. clear Hstep.
  unfold rethrow, mbind, M_bind, bind, on_preset, get, mret, M_ret, ret.
  cbn [_presets set_names runtime_ _preset_names files writable]. rewrite Hi.
  destruct (Preset.update _ _ _ _ _) as [[[]|e] [p' r']] eqn:Hupd; [|discriminate].
  apply preset_update_returns in Hupd as (Hname' & Hid' & ->).
  cbn [_presets].
  destruct (<[i:=p']> (_presets m) !! i) as [q|] eqn:Hq;
    rewrite lookup_insert_eq in Hq; [injection Hq as <-|discriminate].
  unfold _save_to_file, mbind, M_bind, bind, get, put, mret, M_ret, ret.
  cbn [writable set_files files _presets _preset_names runtime_].
  destruct (writable m) eqn:Hw; [|discriminate].
  intros [= <- <-]. unfold set_files. cbn [_presets _preset_names files runtime_ next_uuid].
  rewrite Hid', Hid.
  assert (Hnames : ∀ n, upd_name cfg = Some n → Preset.name p' = n ∧ names1 !! n = Some i).
  { intros n Hcfg. rewrite Hcfg in Hname'. split; [exact Hname'|]. subst names1.
    rewrite Hcfg. destruct (String.eqb_spec n old) as [->|Hne]; [exact Hold|].
    apply lookup_insert_eq. }
  split; [|split; [apply lookup_insert_eq|split; [apply lookup_insert_eq|
    split; [reflexivity|exact Hnames]]]].
  split; [split|split].
  - intros n j Hj. cbn [_presets _preset_names] in *. subst names1.
    destruct (upd_name cfg) as [new|] eqn:Hcfg;
      [destruct (String.eqb_spec new old) as [Heq|Hne]|].
    + subst new. destruct (Hn n j Hj) as (q & Hq & Hqn).
      destruct (decide (j = i)) as [->|Hji].
      * exists p'. rewrite lookup_insert_eq. split; [reflexivity|].
        rewrite Hi in Hq. injection Hq as <-. congruence.
      * exists q. rewrite lookup_insert_ne by congruence. auto.
    + destruct (decide (n = new)) as [->|Hnn].
      * rewrite lookup_insert_eq in Hj. injection Hj as <-.
        exists p'. rewrite lookup_insert_eq. auto.
      * rewrite lookup_insert_ne in Hj by congruence.
        apply lookup_delete_Some in Hj as [Hno Hj]. destruct (Hn n j Hj) as (q & Hq & Hqn).
        exists q. split; [|exact Hqn]. rewrite lookup_insert_ne; [exact Hq|].
        intros <-. rewrite Hi in Hq. injection Hq as <-. congruence.
    + destruct (Hn n j Hj) as (q & Hq & Hqn).
      destruct (decide (j = i)) as [->|Hji].
      * exists p'. rewrite lookup_insert_eq. split; [reflexivity|].
        rewrite Hi in Hq. injection Hq as <-. congruence.
      * exists q. rewrite lookup_insert_ne by congruence. auto.
  - intros j q Hq. cbn [_presets _preset_names] in *.
    destruct (decide (j = i)) as [->|Hji].
    + rewrite lookup_insert_eq in Hq. injection Hq as <-. subst names1.
      destruct (upd_name cfg) as [new|] eqn:Hcfg;
        [destruct (String.eqb_spec new old) as [Heq|Hne]|].
      * rewrite Hname', Heq. exact Hold.
      * rewrite Hname'. apply lookup_insert_eq.
      * rewrite Hname', <- Hold_def. exact Hold.
    + rewrite lookup_insert_ne in Hq by congruence. pose proof (Hp j q Hq) as Hq'.
      subst names1. destruct (upd_name cfg) as [new|] eqn:Hcfg;
        [destruct (String.eqb_spec new old) as [Heq|Hne]|]; try exact Hq'.
      rewrite lookup_insert_ne.
      * apply lookup_delete_Some. split; [|exact Hq']. intros Heq.
        rewrite <- Heq, Hold in Hq'. congruence.
      * intros Heq. rewrite <- Heq in Hq'.
        specialize (Hfree new j eq_refl Hne Hq'). congruence.
  - intros j q Hq. cbn [_presets] in Hq.
    destruct (decide (j = i)) as [->|Hji].
    + rewrite lookup_insert_eq in Hq. injection Hq as <-. congruence.
    + rewrite lookup_insert_ne in Hq by congruence. now apply Hkey.
  - intros j Hj. cbn [_presets runtime_ next_uuid] in *.
    destruct (decide (j = i)) as [->|Hji].
    + apply Hfresh. rewrite Hi. eauto.
    + rewrite lookup_insert_ne in Hj by congruence. now apply Hfresh.
Qed.

Lemma get_preset_reads_file (u : UUID) (P : Preset.t dict) (m : t) :
  files m !! u = Some (Preset.to_json P) →
  Spec.constructed P →
  _presets m !! u = None →
  get_preset u m
  = (Return P,
     Make (<[Preset.id P := P]> (_presets m))
          (<[Preset.name P := Preset.id P]> (_preset_names m)) (files m) (writable m)
          (Runtime (N.succ (next_uuid (runtime_ m))) (N.succ (N.succ (clock (runtime_ m)))))).
Proof.
  intros Hf Hc Hp. unfold get_preset, _load_from_file, _load_from_file_try.
  unfold mbind, M_bind, bind, get, mret, M_ret, ret. rewrite Hp, Hf.
  unfold in_runtime, zoom. rewrite (from_json_to_json P _ Hc). reflexivity.
Qed.

(** X26: what [save_preset] wrote is read back: a manager on the same files
    that does not hold the preset in memory returns, from [get_preset] with
    the preset's id, a preset equal to the saved one, and caches it under
    its id and name. *)
Theorem saved_preset_is_read_back
        (cfg : preset_config) (m m' m2 : t) (p : Preset.t dict) :
  save_preset cfg m = (Return p, m') →
  files m2 = files m' →
  _presets m2 !! Preset.id p = None →
  ∃ m3,
    get_preset (Preset.id p) m2 = (Return p, m3) ∧
    _presets m3 = <[Preset.id p := p]> (_presets m2) ∧
    _preset_names m3 = <[Preset.name p := Preset.id p]> (_preset_names m2) ∧
    files m3 = files m2.
Proof.
  intros Hsave Hfiles Hnew.
  apply save_preset_returns in Hsave as (_ & _ & _ & _ & _ & _ & Hc & _ & Hm').
  rewrite (get_preset_reads_file (Preset.id p) p m2); [eexists; repeat split| |exact Hc|exact Hnew].
  rewrite Hfiles, Hm'. cbn [files]. apply lookup_insert_eq.
Qed.

Lemma to_effects_chain_restores (P : Preset.t dict) (h : heap) :
  Spec.restorable P →
  ∃ c h',
    Preset.to_effects_chain P h = (Return c, h') ∧
    EffectsChain.name c = Preset.name P ∧
    Forall2 (λ l d, ∃ e, effect_objs h' !! l = Some e ∧ Spec.restores e d)
            (EffectsChain.effects c) (Spec.descriptors P).
Proof.
  intros (Hcons & Hname & (ds & Hds) & Hlen & Hok).
  pose proof Hcons as ((Hlo & _) & _).
  unfold Preset.to_effects_chain, with_runtime, zoom, mbind, M_bind, bind, lift.
  rewrite chain_init_ok by lia.
  unfold Spec.descriptors in Hlen, Hok |- *. rewrite Hds in Hlen, Hok |- *.
  cbn [py_iter]. unfold EffectsChain.building.
  match goal with
  | |- context [Preset.restore_effects ds (?c0, ?h0)] =>
      destruct (restore_all ds c0 h0 []) as (chain' & h' & Hrun & Hall);
        [exact Hok|intros l Hl; now apply elem_of_nil in Hl|cbn; lia|constructor|];
        pose proof (keeps_name_restore ds (c0, h0)) as Hk
  end.
  rewrite Hrun in Hk |- *. exists chain', h'. split; [reflexivity|]. split; [exact Hk|].
  eapply Forall2_impl; [exact Hall|]. intros l d (_ & e & He & Hd). eauto.
Qed.

(** X27: [load_preset] of a preset that [save_preset] stored, whose
    configuration can be restored, returns a chain named after the preset
    with one effect per descriptor, in order, each restoring its descriptor;
    the store of presets is unchanged. *)
Theorem saved_preset_loads_as_its_chain
        (cfg : preset_config) (m m' : t) (p : Preset.t dict) (h : heap) :
  save_preset cfg m = (Return p, m') →
  Spec.restorable p →
  ∃ c s',
    load_preset (Preset.id p) (m', h) = (Return c, s') ∧
    EffectsChain.name c = Preset.name p ∧
    Forall2 (λ l d, ∃ e, effect_objs s'.2 !! l = Some e ∧ Spec.restores e d)
            (EffectsChain.effects c) (Spec.descriptors p) ∧
    _presets s'.1 = _presets m' ∧ _preset_names s'.1 = _preset_names m' ∧
    files s'.1 = files m'.
Proof.
  intros Hsave Hres.
  apply save_preset_returns in Hsave as (_ & _ & _ & _ & _ & _ & _ & _ & Hm').
  unfold load_preset, get_preset.
  unfold mbind, M_bind, bind, zoom, get, rethrow, mret, M_ret, ret. cbn [fst snd].
  rewrite Hm'. cbn [_presets]. rewrite lookup_insert_eq. cbn [fst snd runtime_].
  destruct (to_effects_chain_restores p
              (Heap (Runtime (N.succ (next_uuid (runtime_ m)))
                             (N.succ (N.succ (clock (runtime_ m)))))
                    (effect_objs h) (next_loc h)) Hres)
    as (c & h' & Hrun & Hname & Hall).
  rewrite Hrun. exists c. eexists. split; [reflexivity|]. cbn [fst snd].
  repeat split; assumption.
Qed.
End PresetStore.

Section PresetStoreSamples.
Import PresetManager Inv.

Lemma store_empty_ok : store_ok Sample.store_empty.
Proof.
  unfold store_ok, consistent, Sample.store_empty. cbn [_presets _preset_names].
  split; [split|split].
  - intros n i Hi. now rewrite lookup_empty in Hi.
  - intros i p Hp. now rewrite lookup_empty in Hp.
  - intros i p Hp. now rewrite lookup_empty in Hp.
  - intros i [p Hp]. now rewrite lookup_empty in Hp.
Qed.

Lemma store_one_ok : store_ok Sample.store_one.
Proof. apply save_preset_keeps_store_ok, store_empty_ok. Qed.

Lemma save_clean_returns :
  save_preset Sample.save_clean Sample.store_empty = (Return Sample.clean, Sample.store_one).
Proof. reflexivity. Qed.

Lemma clean_restorable : Spec.restorable Sample.clean.
Proof.
  split; [|split; [|split; [|split]]].
  - split; [cbn; lia|]. split; [exact I|]. repeat constructor.
  - cbn. lia.
  - eexists. reflexivity.
  - vm_compute. lia.
  - constructor; [|constructor].
    eexists _, BOOST. split; [reflexivity|]. split; [reflexivity|].
    split; [right; eexists; reflexivity|]. split.
    + apply (bool_decide_unpack _). vm_compute. reflexivity.
    + repeat constructor.
      * eexists. split; [reflexivity|]. exists 6.0%Q. split; [reflexivity|].
        split; discriminate.
      * eexists. split; [reflexivity|]. exists 0.6%Q. split; [reflexivity|].
        split; discriminate.
Qed.

Lemma save_preset_stores_and_indexes_witness :
  ∃ p m',
    save_preset Sample.save_clean Sample.store_empty = (Return p, m') ∧
    p = Preset.Make (next_uuid (runtime_ Sample.store_empty)) "Clean"
          (cfg_description Sample.save_clean) Sample.clean_config
          (clock (runtime_ Sample.store_empty)) (N.succ (clock (runtime_ Sample.store_empty)))
          (match cfg_tags Sample.save_clean with Some l => l | None => [] end)
          (cfg_author Sample.save_clean)
          (match cfg_version Sample.save_clean with Some v => v | None => "1.0.0" end) ∧
    _presets m' = <[Preset.id p := p]> (_presets Sample.store_empty) ∧
    _preset_names m' = <["Clean" := Preset.id p]> (_preset_names Sample.store_empty) ∧
    files m' = <[Preset.id p := Preset.to_json p]> (files Sample.store_empty) ∧
    (save_preset Sample.save_clean m').1 = Raise PresetNameExists ∧
    (store_ok Sample.store_empty → store_ok m').
Proof.
  apply (save_preset_stores_and_indexes Sample.save_clean Sample.store_empty "Clean"
           Sample.clean_config); [reflexivity|reflexivity|reflexivity|reflexivity| | |].
  - cbn. lia.
  - exact I.
  - repeat constructor.
Defined.

Lemma save_preset_failure_changes_no_map_witness :
  _presets (save_preset Sample.save_unnamed Sample.store_one).2 = _presets Sample.store_one ∧
  _preset_names (save_preset Sample.save_unnamed Sample.store_one).2
  = _preset_names Sample.store_one ∧
  (FailedToSave PresetNameLength ≠ FailedToSave IOError →
   files (save_preset Sample.save_unnamed Sample.store_one).2 = files Sample.store_one).
Proof.
  apply (save_preset_failure_changes_no_map Sample.save_unnamed_dict Sample.save_unnamed
           Sample.store_one (FailedToSave PresetNameLength)); reflexivity.
Defined.

Lemma store_locked_ok : store_ok Sample.store_locked.
Proof. exact store_one_ok. Qed.

Lemma delete_preset_frees_id_and_name_witness :
  (∃ m',
     delete_preset 0 Sample.store_one = (Return true, m') ∧
     _presets m' = delete 0%N (_presets Sample.store_one) ∧
     _preset_names m' = delete (Preset.name Sample.clean) (_preset_names Sample.store_one) ∧
     files m' = delete 0%N (files Sample.store_one) ∧
     store_ok m' ∧
     (delete_preset 0 m').1 = Raise PresetNotFound) ∧
  delete_preset 0 Sample.store_locked = (Raise (FailedToDelete OSError), Sample.store_locked).
Proof.
  split.
  - apply (proj1 (delete_preset_frees_id_and_name 0 Sample.clean Sample.store_one
                    store_one_ok eq_refl)).
    left. reflexivity.
  - apply (proj2 (delete_preset_frees_id_and_name 0 Sample.clean Sample.store_locked
                    store_locked_ok eq_refl)).
    + reflexivity.
    + eexists. vm_compute. reflexivity.
Defined.

Lemma update_preset_success_keeps_store_ok_witness :
  store_ok (update_preset 0 Sample.rename_to_crunch Sample.store_one).2 ∧
  _presets (update_preset 0 Sample.rename_to_crunch Sample.store_one).2 !! 0%N
  = Some Sample.crunch ∧
  files (update_preset 0 Sample.rename_to_crunch Sample.store_one).2 !! 0%N
  = Some (Preset.to_json Sample.crunch) ∧
  Preset.id Sample.crunch = 0%N ∧
  (∀ n, upd_name Sample.rename_to_crunch = Some n →
        Preset.name Sample.crunch = n ∧
        _preset_names (update_preset 0 Sample.rename_to_crunch Sample.store_one).2 !! n
        = Some 0%N).
Proof.
  apply (update_preset_success_keeps_store_ok 0 Sample.rename_to_crunch_dict
           Sample.rename_to_crunch Sample.store_one);
    [reflexivity|exact store_one_ok|]. vm_compute. reflexivity.
Defined.

Lemma saved_preset_is_read_back_witness :
  ∃ m3,
    get_preset (Preset.id Sample.clean) Sample.store_restarted = (Return Sample.clean, m3) ∧
    _presets m3 = <[Preset.id Sample.clean := Sample.clean]> (_presets Sample.store_restarted) ∧
    _preset_names m3
    = <[Preset.name Sample.clean := Preset.id Sample.clean]>
        (_preset_names Sample.store_restarted) ∧
    files m3 = files Sample.store_restarted.
Proof.
  apply (saved_preset_is_read_back Sample.save_clean Sample.store_empty Sample.store_one);
    reflexivity.
Defined.

Lemma saved_preset_loads_as_its_chain_witness :
  ∃ c s',
    load_preset (Preset.id Sample.clean) (Sample.store_one, Sample.h0) = (Return c, s') ∧
    EffectsChain.name c = Preset.name Sample.clean ∧
    Forall2 (λ l d, ∃ e, effect_objs s'.2 !! l = Some e ∧ Spec.restores e d)
            (EffectsChain.effects c) (Spec.descriptors Sample.clean) ∧
    _presets s'.1 = _presets Sample.store_one ∧
    _preset_names s'.1 = _preset_names Sample.store_one ∧
    files s'.1 = files Sample.store_one.
Proof.
  apply (saved_preset_loads_as_its_chain Sample.save_clean Sample.store_empty);
    [reflexivity|exact clean_restorable].
Defined.
End PresetStoreSamples.

(** ** The effects manager: chains built from configurations *)

Section Triples.
Import Inv.
Context {S : Type}.

Lemma triple_bind {A B} (P : S → Prop) (m : M S A) (Q : A → S → Prop)
      (k : A → M S B) (R : B → S → Prop) (E : S → Prop) :
  triple P m Q E → (∀ a, triple (Q a) (k a) R E) → triple P (m ≫= k) R E.
Proof.
  intros Hm Hk s Hs. unfold mbind, M_bind, bind. specialize (Hm s Hs).
  destruct (m s) as [[a|e] s1]; [now apply Hk|exact Hm].
Qed.

Lemma triple_ret {A} (a : A) (Q : A → S → Prop) (E : S → Prop) :
  triple (Q a) (mret a) Q E.
Proof. intros s Hs. exact Hs. Qed.

Lemma triple_weaken {A} (P P' : S → Prop) (m : M S A) (Q Q' : A → S → Prop)
      (E E' : S → Prop) :
  triple P' m Q' E' → (∀ s, P s → P' s) → (∀ a s, Q' a s → Q a s) → (∀ s, E' s → E s) →
  triple P m Q E.
Proof.
  intros Hm HP HQ HE s Hs. specialize (Hm s (HP s Hs)).
  destruct (m s) as [[a|e] s1]; auto.
Qed.
End Triples.

Section ManagerCreation.
Import EffectsChain Inv.

Lemma params_ok_fields e e' :
  AudioEffect.type e' = AudioEffect.type e →
  AudioEffect.parameters e' = AudioEffect.parameters e →
  params_ok e → params_ok e'.
Proof. unfold params_ok. intros -> ->. auto. Qed.

Lemma on_effect_created h l (mth : M AudioEffect.t unit) :
  (∀ e, params_ok e → params_ok (mth e).2) →
  triple (created h l) (on_effect l mth) (λ _, created h l) (created h l).
Proof.
  intros Hm h1 (Hl & Hn & Hold & e & He & Hok). unfold on_effect. rewrite He.
  specialize (Hm e Hok). destruct (mth e) as [[[]|err] e'];
    (split; [exact Hl|]; split; [exact Hn|]; split;
     [intros x Hx; cbn [effect_objs]; rewrite lookup_insert_ne by lia; now apply Hold|];
     exists e'; split; [apply lookup_insert_eq|exact Hm]).
Qed.

Lemma set_position_params_ok p e :
  params_ok e → params_ok (AudioEffect.set_position p e).2.
Proof.
  intros Hok. unfold AudioEffect.set_position.
  destruct (negb (is_number p)); [exact Hok|]. destruct (num_lt p 0); exact Hok.
Qed.

Lemma create_effect_spec (effect_config : value) (h : heap) :
  no_nan effect_config = true →
  match EffectsManager._create_effect_from_config effect_config h with
  | (Return l, h') => created h l h'
  | (Raise _, h') => grown h h'
  end.
Proof.
  intros Hfree.
  assert (Hrefl : grown h h) by (split; [lia|auto]).
  destruct effect_config as [| | | | | | | |cfg]; try exact Hrefl.
  cbn [EffectsManager._create_effect_from_config]. unfold mbind at 1, M_bind, bind, lift.
  destruct (dict_get "type" cfg) as [type_v|]; [|exact Hrefl].
  unfold mbind at 1, M_bind, bind.
  destruct (AudioEffect.EffectType_of type_v) as [effect_type|]; [|exact Hrefl].
  unfold mbind at 1, M_bind, bind, with_runtime, zoom.
  destruct (AudioEffect.__init__ _ _ (rt h)) as [[e|err] r1] eqn:Hinit;
    [|split; [cbn; lia|auto]].
  apply init_params_ok in Hinit as (Hok & _).
  2:{ intros new_parameters Hnew. apply no_nan_nan_free. rewrite <- Hnew.
      now apply no_nan_default. }
  unfold mbind at 1, M_bind, bind, alloc. cbn [effect_objs next_loc].
  set (h1 := Heap r1 (<[next_loc h := e]> (effect_objs h)) (Datatypes.S (next_loc h))).
  assert (H1 : created h (next_loc h) h1).
  { split; [reflexivity|]. split; [reflexivity|]. split.
    - intros x Hx. cbn. apply lookup_insert_ne. lia.
    - exists e. split; [apply lookup_insert_eq|exact Hok]. }
  assert (Hweak : ∀ h', created h (next_loc h) h' → grown h h').
  { intros h' (_ & Hn & Hold & _). split; [lia|exact Hold]. }
  assert (Htr : triple (created h (next_loc h))
            (match dict_get "position" cfg with
             | Some p => on_effect (next_loc h) (AudioEffect.set_position p)
             | None => mret ()
             end;;
             match dict_get "bypassed" cfg with
             | Some b => on_effect (next_loc h) (AudioEffect.set_bypassed b)
             | None => mret ()
             end;;
             match dict_get "preset_name" cfg with
             | Some n => on_effect (next_loc h) (AudioEffect.set_preset_name n)
             | None => mret ()
             end;;
             mret (next_loc h))
            (λ l h', l = next_loc h ∧ created h (next_loc h) h')
            (created h (next_loc h))).
  { apply triple_bind with (Q := λ _, created h (next_loc h)).
    { destruct (dict_get "position" cfg);
        [apply on_effect_created, set_position_params_ok|intros s Hs; exact Hs]. }
    intros []. apply triple_bind with (Q := λ _, created h (next_loc h)).
    { destruct (dict_get "bypassed" cfg);
        [apply on_effect_created; intros a Ha; exact Ha|intros s Hs; exact Hs]. }
    intros []. apply triple_bind with (Q := λ _, created h (next_loc h)).
    { destruct (dict_get "preset_name" cfg);
        [apply on_effect_created; intros a Ha; exact Ha|intros s Hs; exact Hs]. }
    intros []. intros s Hs. split; [reflexivity|exact Hs]. }
  specialize (Htr h1 H1).
  match goal with
  | |- match ?run with _ => _ end =>
      assert (Htr' := Htr : match run with
                            | (Return a, s') => a = next_loc h ∧ created h (next_loc h) s'
                            | (Raise _, s') => created h (next_loc h) s'
                            end);
      clear Htr; destruct run as [[l|err] h2]
  end.
  - destruct Htr' as [-> Hc]. exact Hc.
  - now apply Hweak.
Qed.

Lemma add_effect_cases effect (s : state) :
  allocated s →
  (∃ err, add_effect effect s = (Raise err, s)) ∨
  (∃ e, effect_objs s.2 !! effect = Some e ∧
        (length (effects s.1) < MAX_EFFECTS)%nat ∧
        add_effect effect s
        = (Return tt,
           (set_modified_at (clock (rt s.2))
              (set_effects (effects s.1 ++ [effect]) s.1),
            Heap (Runtime (next_uuid (rt s.2)) (N.succ (clock (rt s.2))))
                 (<[effect := AudioEffect.store_position
                                (VInt (Z.of_nat (length (effects s.1)))) e]>
                    (effect_objs s.2))
                 (next_loc s.2)))).
Proof.
  intros Hall. destruct s as [chain h]. unfold allocated in Hall. cbn [fst snd] in *.
  remember (add_effect effect (chain, h)) as r eqn:Hr.
  unfold add_effect in Hr. unfold mbind at 1, M_bind, bind, self_ in Hr. cbn [fst snd] in Hr.
  destruct (Nat.leb_spec MAX_EFFECTS (length (effects chain))) as [Hfull|Hroom];
    [left; eexists; exact Hr|].
  unfold mbind at 1, M_bind, bind, in_heap, zoom in Hr. cbn [fst snd] in Hr.
  destruct (contains_outcome effect (effects chain) h Hall) as [Hh _].
  destruct (contains effect (effects chain) h) as [[[|]|e] h1] eqn:Hc;
    cbn [fst snd] in Hh; subst h1; try (left; eexists; exact Hr).
  unfold mbind at 1, M_bind, bind, on_effect in Hr. cbn [fst snd] in Hr.
  destruct (effect_objs h !! effect) as [e|] eqn:He; [|left; eexists; exact Hr].
  right. exists e. split; [reflexivity|]. split; [exact Hroom|].
  rewrite set_position_index in Hr.
  unfold update_self, modify, _update_modified_time, in_heap, with_runtime, datetime_now in Hr.
  unfold mbind, M_bind, bind, update_self, modify, zoom in Hr.
  cbn [fst snd rt effect_objs next_loc effects set_effects set_modified_at] in Hr.
  exact Hr.
Qed.

Lemma chain_valid_grown (c : t) (h h' : heap) :
  chain_valid (c, h) → grown h h' → chain_valid (c, h').
Proof.
  intros ((Hall & Hpos & Hd) & Hlen & Hobj) [Hn Hold]. unfold allocated in Hall.
  cbn [fst snd] in *.
  assert (Hsame : ∀ l, l ∈ effects c → effect_objs h' !! l = effect_objs h !! l).
  { intros l Hl. apply Hold. now apply Hobj. }
  split; [split; [|split]|split; [exact Hlen|]].
  - intros l Hl. cbn [fst snd]. rewrite Hsame by exact Hl. now apply Hall.
  - intros i l Hi. cbn [fst snd] in *.
    rewrite Hsame by (apply list_elem_of_lookup; eauto). now apply Hpos.
  - intros i j l l' e e' Hi Hj He He' Hid. cbn [fst snd] in *.
    rewrite Hsame in He by (apply list_elem_of_lookup; eauto).
    rewrite Hsame in He' by (apply list_elem_of_lookup; eauto).
    exact (Hd i j l l' e e' Hi Hj He He' Hid).
  - intros l Hl. cbn [fst snd] in *. destruct (Hobj l Hl) as [Hlt He].
    split; [lia|]. now rewrite Hsame.
Qed.

Lemma grown_trans h1 h2 h3 : grown h1 h2 → grown h2 h3 → grown h1 h3.
Proof.
  intros [Hn1 H1] [Hn2 H2]. split; [lia|]. intros x Hx. rewrite H2 by lia. now apply H1.
Qed.

Lemma create_and_add_spec (effect_config : value) (s : state) :
  no_nan effect_config = true →
  chain_valid s →
  match EffectsManager._create_and_add_effect effect_config s with
  | (Return l, s') =>
      chain_valid s' ∧ effects s'.1 = (effects s.1 ++ [l])%list ∧
      name s'.1 = name s.1 ∧ id s'.1 = id s.1 ∧ grown s.2 s'.2
  | (Raise _, s') =>
      chain_valid s' ∧ effects s'.1 = effects s.1 ∧
      name s'.1 = name s.1 ∧ id s'.1 = id s.1 ∧ grown s.2 s'.2
  end.
Proof.
  intros Hfree Hv. destruct s as [chain h]. unfold EffectsManager._create_and_add_effect.
  unfold mbind at 1, M_bind, bind, in_heap, zoom. cbn [fst snd].
  pose proof (create_effect_spec effect_config h Hfree) as Hc.
  destruct (EffectsManager._create_effect_from_config effect_config h) as [[l|err] h1].
  2:{ split; [now apply chain_valid_grown with h|]. auto. }
  assert (Hg : grown h h1).
  { destruct Hc as (-> & Hn & Hold & _). split; [lia|exact Hold]. }
  pose proof (chain_valid_grown chain h h1 Hv Hg) as Hv1.
  destruct Hc as (Hl & Hn & Hold & e & He & Hok).
  unfold mbind, M_bind, bind.
  pose proof (add_effect_keeps_chain_ok l (chain, h1) (proj1 Hv1)) as Hok'.
  destruct (add_effect_cases l (chain, h1) (proj1 (proj1 Hv1)))
    as [[err Hadd]|(e' & He' & Hroom & Hadd)]; rewrite Hadd in Hok' |- *.
  - auto.
  - cbn [fst snd] in *. rewrite He in He'. injection He' as <-.
    cbn [mret M_ret ret fst snd effects set_effects set_modified_at name id].
    destruct Hv1 as (_ & Hlen & Hobj). cbn [fst snd] in *.
    split; [|split; [reflexivity|split; [reflexivity|split; [reflexivity|]]]].
    + split; [exact Hok'|]. split.
      * cbn [fst snd effects set_effects set_modified_at]. rewrite length_app. cbn. lia.
      * intros x Hx. cbn [fst snd effects set_effects set_modified_at effect_objs next_loc] in *.
        apply elem_of_app in Hx as [Hx|Hx].
        -- destruct (Hobj x Hx) as [Hlt Hex]. split; [exact Hlt|].
           rewrite lookup_insert_ne; [exact Hex|]. intros <-.
           destruct Hv as (_ & _ & Hobj0). cbn [fst snd] in Hobj0.
           destruct (Hobj0 l Hx) as [Hlt0 _]. lia.
        -- apply list_elem_of_singleton in Hx as ->. split; [lia|].
           rewrite lookup_insert_eq. eexists. split; [reflexivity|].
           now apply (params_ok_fields e).
    + destruct Hg as [Hgn Hgo]. split; [cbn; lia|]. intros x Hx. cbn [effect_objs].
      rewrite lookup_insert_ne by lia. now apply Hgo.
Qed.

Lemma create_effects_spec items : ∀ s : state,
  Forall (λ x, no_nan x = true) items →
  chain_valid s →
  match EffectsManager.create_effects items s with
  | (Return _, s') =>
      chain_valid s' ∧
      length (effects s'.1) = (length (effects s.1) + length items)%nat ∧
      name s'.1 = name s.1 ∧ id s'.1 = id s.1 ∧ grown s.2 s'.2
  | (Raise _, s') => grown s.2 s'.2
  end.
Proof.
  induction items as [|effect_config items IH]; intros s Hfree Hv.
  - cbn [EffectsManager.create_effects mret M_ret ret length fst snd].
    rewrite Nat.add_0_r. split; [exact Hv|]. do 3 (split; [reflexivity|]).
    split; [lia|auto].
  - apply Forall_cons in Hfree as [Hfree1 Hfree].
    cbn [EffectsManager.create_effects]. unfold mbind, M_bind, bind.
    pose proof (create_and_add_spec effect_config s Hfree1 Hv) as Hstep.
    destruct (EffectsManager._create_and_add_effect effect_config s) as [[l|err] s1].
    + destruct Hstep as (Hv1 & Heff & Hn & Hi & Hg). specialize (IH s1 Hfree Hv1).
      destruct (EffectsManager.create_effects items s1) as [[[]|err] s2].
      * destruct IH as (Hv2 & Hlen & Hn2 & Hi2 & Hg2).
        split; [exact Hv2|]. split; [rewrite Hlen, Heff, length_app; cbn; lia|].
        split; [congruence|]. split; [congruence|]. now apply grown_trans with s1.2.
      * now apply grown_trans with s1.2.
    + now destruct Hstep as (_ & _ & _ & _ & Hg).
Qed.

Lemma chain_init_inv name r c r' :
  __init__ name r = (Return c, r') →
  (1 ≤ String.length name ≤ 50)%nat ∧
  c = Make (next_uuid r) name [] (VBool false) (clock r) (N.succ (clock r)) ∧
  r' = Runtime (N.succ (next_uuid r)) (N.succ (N.succ (clock r))).
Proof.
  unfold __init__. destruct (truthy (VStr name)); [|discriminate].
  destruct (Nat.ltb_spec (String.length name) 1); [discriminate|].
  destruct (Nat.ltb_spec 50 (String.length name)); [discriminate|].
  cbn [negb orb]. intros [= <- <-]. repeat split; lia.
Qed.

Lemma empty_chain_valid (c : EffectsChain.t) (h : heap) :
  effects c = [] → chain_valid (c, h).
Proof.
  intros Hc. split; [split; [|split]|split]; cbn [fst snd]; try rewrite Hc.
  - intros l Hl. cbn in Hl. rewrite Hc in Hl. now apply elem_of_nil in Hl.
  - intros i l Hi. cbn in Hi. rewrite Hc in Hi. discriminate Hi.
  - intros i j l l' e e' Hi. cbn in Hi. rewrite Hc in Hi. discriminate Hi.
  - cbn. lia.
  - intros l Hl. now apply elem_of_nil in Hl.
Qed.

Lemma create_chain_try_spec (name_v : value) (chain_config : dict) (h : heap) :
  no_nan (VDict chain_config) = true →
  (∃ name, name_v = VStr name) →
  match EffectsManager.create_chain_try name_v chain_config h with
  | (Return chain, h') =>
      ∃ name items,
        name_v = VStr name ∧ (1 ≤ String.length name ≤ 50)%nat ∧
        EffectsChain.name chain = name ∧ id chain = next_uuid (rt h) ∧
        py_iter (dict_get_default "effects" (VList []) chain_config) = Some items ∧
        length (effects chain) = length items ∧
        chain_valid (chain, h') ∧ grown h h'
  | (Raise _, h') => grown h h'
  end.
Proof.
  intros Hfree [name ->].
  assert (Hrefl : grown h h) by (split; [lia|auto]).
  unfold EffectsManager.create_chain_try. unfold mbind at 1, M_bind, bind, lift.
  cbn [name_of_value].
  unfold mbind at 1, M_bind, bind, with_runtime, zoom.
  destruct (__init__ name (rt h)) as [[c0|err] r1] eqn:Hinit.
  2:{ split; [cbn; lia|auto]. }
  apply chain_init_inv in Hinit as (Hlen & -> & ->).
  unfold mbind at 1, M_bind, bind.
  destruct (py_iter _) as [items|] eqn:Hitems; [|split; [cbn; lia|auto]].
  unfold building.
  set (c0 := Make _ _ _ _ _ _). set (h1 := Heap _ _ _).
  assert (Hg1 : grown h h1) by (split; [cbn; lia|auto]).
  assert (Hitems_free : Forall (λ x, no_nan x = true) items).
  { apply (no_nan_iter _ _ (no_nan_default chain_config "effects" (VList []) Hfree eq_refl)).
    exact Hitems. }
  pose proof (create_effects_spec items (c0, h1) Hitems_free
                (empty_chain_valid c0 h1 eq_refl)) as Hloop.
  destruct (EffectsManager.create_effects items (c0, h1)) as [[[]|err] [c2 h2]];
    cbn [fst snd] in Hloop.
  - destruct Hloop as (Hv & Hl & Hn & Hi & Hg). exists name, items.
    split; [reflexivity|]. split; [exact Hlen|]. split; [exact Hn|]. split; [exact Hi|].
    split; [reflexivity|]. split; [exact Hl|]. split; [exact Hv|].
    now apply grown_trans with h1.
  - now apply grown_trans with h1.
Qed.

(** X28: for a configuration that holds no NaN and whose name, when
    given, is a [str], [create_chain] registers a chain only when the whole
    configuration went through: the new chain is then current, bears the
    configured name (1 to 50 characters), holds one effect per configured
    effect, at most [MAX_EFFECTS], each with valid parameters, and satisfies
    the invariant.  When it raises, no chain is registered and the current
    chain is as before. *)
Theorem create_chain_registers_valid_chains_only
        (chain_config : dict) (m : EffectsManager.t) :
  no_nan (VDict chain_config) = true →
  (∀ name_v, dict_get "name" chain_config = Some name_v → ∃ name, name_v = VStr name) →
  match EffectsManager.create_chain chain_config m with
  | (inr l, m') =>
      ∃ chain name items,
        l = EffectsManager.next_chain m ∧
        EffectsManager.chain_objs m' !! l = Some chain ∧
        EffectsManager._current_chain m' = Some l ∧
        EffectsManager._chains m' = <[id chain := l]> (EffectsManager._chains m) ∧
        dict_get "name" chain_config = Some (VStr name) ∧
        (1 ≤ String.length name ≤ 50)%nat ∧
        EffectsChain.name chain = name ∧
        py_iter (dict_get_default "effects" (VList []) chain_config) = Some items ∧
        length (effects chain) = length items ∧
        chain_valid (chain, EffectsManager.effects_heap m') ∧
        grown (EffectsManager.effects_heap m) (EffectsManager.effects_heap m')
  | (inl err, m') =>
      EffectsManager._chains m' = EffectsManager._chains m ∧
      EffectsManager._current_chain m' = EffectsManager._current_chain m ∧
      EffectsManager.chain_objs m' = EffectsManager.chain_objs m ∧
      grown (EffectsManager.effects_heap m) (EffectsManager.effects_heap m') ∧
      (err = EffectsManager.MissingChainName ∨
       ∃ e, err = EffectsManager.InvalidChainConfiguration e)
  end.
Proof.
  intros Hfree Hstr. unfold EffectsManager.create_chain.
  destruct (dict_get "name" chain_config) as [name_v|].
  - pose proof (create_chain_try_spec name_v chain_config (EffectsManager.effects_heap m)
                  Hfree (Hstr name_v eq_refl)) as Htry.
    destruct (EffectsManager.create_chain_try _ _ _) as [[chain|err] h'].
    + destruct Htry as (name & items & -> & Hlen & Hn & Hi & Hitems & Hl & Hv & Hg).
      exists chain, name, items. cbn. rewrite lookup_insert_eq. auto 12.
    + cbn. repeat split; try exact (proj1 Htry); try exact (proj2 Htry); eauto.
  - repeat split; auto.
Qed.

Lemma create_chain_registers_valid_chains_only_witness :
  ∃ chain name items,
    1%nat = EffectsManager.next_chain Sample.manager ∧
    EffectsManager.chain_objs
      (EffectsManager.create_chain Sample.clean_config Sample.manager).2 !! 1%nat
    = Some chain ∧
    EffectsManager._current_chain
      (EffectsManager.create_chain Sample.clean_config Sample.manager).2 = Some 1%nat ∧
    EffectsManager._chains (EffectsManager.create_chain Sample.clean_config Sample.manager).2
    = <[id chain := 1%nat]> (EffectsManager._chains Sample.manager) ∧
    dict_get "name" Sample.clean_config = Some (VStr name) ∧
    (1 ≤ String.length name ≤ 50)%nat ∧
    EffectsChain.name chain = name ∧
    py_iter (dict_get_default "effects" (VList []) Sample.clean_config) = Some items ∧
    length (effects chain) = length items ∧
    chain_valid
      (chain,
       EffectsManager.effects_heap
         (EffectsManager.create_chain Sample.clean_config Sample.manager).2) ∧
    grown (EffectsManager.effects_heap Sample.manager)
          (EffectsManager.effects_heap
             (EffectsManager.create_chain Sample.clean_config Sample.manager).2).
Proof.
  apply (create_chain_registers_valid_chains_only Sample.clean_config Sample.manager).
  - reflexivity.
  - intros name_v [= <-]. now exists "Lead".
Defined.

(** X29: [add_effect_to_chain], given an effect configuration that holds
    no NaN, keeps every chain of the manager valid, whether it returns or
    raises.  When it returns, the new effect is the last one of the chain
    named by the id and no other chain changed; when it raises, every chain
    holds the effects it held. *)
Theorem add_effect_to_chain_keeps_chains_valid
        (chain_id : UUID) (effect_config : dict) (m : EffectsManager.t) :
  no_nan (VDict effect_config) = true →
  (∀ l c, EffectsManager.chain_objs m !! l = Some c →
          chain_valid (c, EffectsManager.effects_heap m)) →
  match EffectsManager.add_effect_to_chain chain_id effect_config m with
  | (inr effect, m') =>
      (∀ l c, EffectsManager.chain_objs m' !! l = Some c →
              chain_valid (c, EffectsManager.effects_heap m')) ∧
      ∃ l c c',
        EffectsManager._chains m !! chain_id = Some l ∧
        EffectsManager.chain_objs m !! l = Some c ∧
        EffectsManager.chain_objs m' !! l = Some c' ∧
        effects c' = (effects c ++ [effect])%list ∧
        ∀ l', l' ≠ l →
              EffectsManager.chain_objs m' !! l' = EffectsManager.chain_objs m !! l'
  | (inl err, m') =>
      (∀ l c, EffectsManager.chain_objs m' !! l = Some c →
              chain_valid (c, EffectsManager.effects_heap m')) ∧
      ∀ l, effects <$> EffectsManager.chain_objs m' !! l
           = effects <$> EffectsManager.chain_objs m !! l
  end.
Proof.
  intros Hfree Hvalid. unfold EffectsManager.add_effect_to_chain.
  destruct (EffectsManager._chains m !! chain_id) as [l|] eqn:Hl; [|auto].
  destruct (dict_get "type" effect_config) as [ty|]; [|auto].
  unfold EffectsManager.on_chain.
  destruct (EffectsManager.chain_objs m !! l) as [c|] eqn:Hc; [|auto].
  pose proof (create_and_add_spec (VDict effect_config) (c, EffectsManager.effects_heap m)
                Hfree (Hvalid l c Hc)) as Hstep.
  destruct (EffectsManager._create_and_add_effect _ _) as [[effect|err] [c' h']];
    cbn [fst snd] in Hstep; destruct Hstep as (Hv & Heff & _ & _ & Hg).
  - split.
    + intros l2 c2 Hc2. cbn [EffectsManager.chain_objs EffectsManager.effects_heap] in *.
      destruct (decide (l2 = l)) as [->|Hne].
      * rewrite lookup_insert_eq in Hc2. now injection Hc2 as <-.
      * rewrite lookup_insert_ne in Hc2 by congruence.
        apply chain_valid_grown with (EffectsManager.effects_heap m);
          [exact (Hvalid l2 c2 Hc2)|exact Hg].
    + exists l, c, c'. cbn [EffectsManager.chain_objs]. rewrite lookup_insert_eq.
      repeat split; auto. intros l' Hne. now apply lookup_insert_ne.
  - split.
    + intros l2 c2 Hc2. cbn [EffectsManager.chain_objs EffectsManager.effects_heap] in *.
      destruct (decide (l2 = l)) as [->|Hne].
      * rewrite lookup_insert_eq in Hc2. now injection Hc2 as <-.
      * rewrite lookup_insert_ne in Hc2 by congruence.
        apply chain_valid_grown with (EffectsManager.effects_heap m);
          [exact (Hvalid l2 c2 Hc2)|exact Hg].
    + intros l2. cbn [EffectsManager.chain_objs].
      destruct (decide (l2 = l)) as [->|Hne].
      * rewrite lookup_insert_eq, Hc. cbn. now rewrite Heff.
      * now rewrite lookup_insert_ne by congruence.
Qed.

Lemma manager_chains_valid l c :
  EffectsManager.chain_objs Sample.manager !! l = Some c →
  chain_valid (c, EffectsManager.effects_heap Sample.manager).
Proof.
  intros Hc. apply empty_chain_valid.
  assert (Hobjs : EffectsManager.chain_objs Sample.manager
                  = <[0%nat := Make 0 "Default Chain" [] (VBool false) 0 1]> ∅)
    by reflexivity.
  rewrite Hobjs in Hc. apply lookup_insert_Some in Hc as [[_ <-]|[_ Hc]]; [reflexivity|].
  now rewrite lookup_empty in Hc.
Qed.

Lemma add_effect_to_chain_keeps_chains_valid_witness :
  (∀ l c,
     EffectsManager.chain_objs
       (EffectsManager.add_effect_to_chain 0 [("type", VStr "BOOST")] Sample.manager).2 !! l
     = Some c →
     chain_valid
       (c, EffectsManager.effects_heap
             (EffectsManager.add_effect_to_chain 0 [("type", VStr "BOOST")]
                Sample.manager).2)) ∧
  ∃ l c c',
    EffectsManager._chains Sample.manager !! 0%N = Some l ∧
    EffectsManager.chain_objs Sample.manager !! l = Some c ∧
    EffectsManager.chain_objs
      (EffectsManager.add_effect_to_chain 0 [("type", VStr "BOOST")] Sample.manager).2 !! l
    = Some c' ∧
    effects c' = (effects c ++ [0%nat])%list ∧
    ∀ l', l' ≠ l →
          EffectsManager.chain_objs
            (EffectsManager.add_effect_to_chain 0 [("type", VStr "BOOST")]
               Sample.manager).2 !! l'
          = EffectsManager.chain_objs Sample.manager !! l'.
Proof.
  exact (add_effect_to_chain_keeps_chains_valid 0 [("type", VStr "BOOST")] Sample.manager
           eq_refl manager_chains_valid).
Defined.
End ManagerCreation.

(** ** The effects manager: rebuilding a saved chain *)

Section ManagerRebuild.
Import Inv.

Lemma effect_config_no_position e : dict_get "position" (Preset.effect_config e) = None.
Proof. unfold Preset.effect_config. destruct (truthy _); reflexivity. Qed.

Lemma create_step_restores cfg b (s : EffectsChain.state) :
  dict_get "position" cfg = None →
  dict_get "bypassed" cfg = Some b →
  match EffectsManager._create_and_add_effect (VDict cfg) s with
  | (Return _, s') => (Return tt, s')
  | (Raise e, s') => (Raise e, s')
  end
  = Preset.restore_effects [VDict cfg] s.
Proof.
  intros Hpos Hbyp. destruct s as [chain h].
  unfold EffectsManager._create_and_add_effect, EffectsManager._create_effect_from_config.
  cbn [Preset.restore_effects]. unfold dict_get_default at 2. rewrite Hpos, Hbyp.
  unfold mbind, M_bind, bind, lift, mret, M_ret, ret, EffectsChain.in_heap, zoom.
  cbn [fst snd].
  destruct (dict_get "type" cfg); [|reflexivity].
  destruct (AudioEffect.EffectType_of _); [|reflexivity].
  destruct (with_runtime _ h) as [[e|] h1]; [|reflexivity]. cbn [fst snd].
  unfold alloc. cbn [fst snd].
  set (l := next_loc h1). set (h2 := Heap _ _ _).
  destruct (on_effect l (AudioEffect.set_bypassed b) h2) as [[[]|] h3]; [|reflexivity].
  cbn [fst snd].
  destruct (dict_get "preset_name" cfg) as [n|]; cbn [fst snd].
  - destruct (on_effect l (AudioEffect.set_preset_name n) h3) as [[[]|] h4]; [|reflexivity].
    cbn [fst snd].
    destruct (EffectsChain.add_effect l (chain, h4)) as [[[]|] s5]; reflexivity.
  - destruct (EffectsChain.add_effect l (chain, h3)) as [[[]|] s5]; reflexivity.
Qed.

Lemma create_effects_restore es : ∀ s : EffectsChain.state,
  EffectsManager.create_effects ((λ e, VDict (Preset.effect_config e)) <$> es) s
  = Preset.restore_effects ((λ e, VDict (Preset.effect_config e)) <$> es) s.
Proof.
  induction es as [|e es IH]; intros s; [reflexivity|].
  cbn [fmap list_fmap]. rewrite restore_effects_cons.
  destruct (effect_config_get e) as (_ & _ & Hbyp).
  rewrite <- (create_step_restores _ _ s (effect_config_no_position e) Hbyp).
  cbn [EffectsManager.create_effects]. unfold mbind, M_bind, bind.
  destruct (EffectsManager._create_and_add_effect _ s) as [[l|err] s1]; [apply IH|reflexivity].
Qed.

(** X30: a chain saved with [Preset.from_effects_chain] is rebuilt by
    [create_chain] from the preset's configuration: the manager registers
    and makes current a chain with the original's name whose effects are,
    in order, of the same kinds, with the same parameters and bypassed
    flags. *)
Theorem create_chain_rebuilds_saved_chain
        (s : EffectsChain.state) (name : string) (description : option string)
        (tags : option (list string)) (author : option string) (version : string)
        (p : Preset.t dict) (h1 : heap) (m : EffectsManager.t) :
  allocated s →
  (∀ l e, l ∈ EffectsChain.effects s.1 → effect_objs s.2 !! l = Some e → params_ok e) →
  (length (EffectsChain.effects s.1) ≤ EffectsChain.MAX_EFFECTS)%nat →
  (1 ≤ String.length (EffectsChain.name s.1) ≤ 50)%nat →
  Preset.from_effects_chain s.1 name description tags author version s.2 = (Return p, h1) →
  ∃ l m' c,
    EffectsManager.create_chain (Preset.effects_chain_config p) m = (inr l, m') ∧
    EffectsManager.chain_objs m' !! l = Some c ∧
    EffectsManager._current_chain m' = Some l ∧
    EffectsManager._chains m' !! EffectsChain.id c = Some l ∧
    EffectsChain.name c = EffectsChain.name s.1 ∧
    Forall2 (λ l0 l', ∃ e e', effect_objs s.2 !! l0 = Some e ∧
                              effect_objs (EffectsManager.effects_heap m') !! l' = Some e' ∧
                              AudioEffect.type e' = AudioEffect.type e ∧
                              AudioEffect.parameters e' = AudioEffect.parameters e ∧
                              AudioEffect.bypassed e' = AudioEffect.bypassed e)
            (EffectsChain.effects s.1) (EffectsChain.effects c).
Proof.
  intros Hall Hpar Hlen Hname Hsave. destruct s as [chain h]. unfold allocated in Hall.
  cbn [fst snd] in *.
  destruct (allocated_objects _ _ Hall) as [es Hes].
  assert (Hok : Forall params_ok es).
  { apply Forall_forall. intros e He. apply list_elem_of_lookup in He as [i Hi].
    destruct (Forall2_lookup_r _ _ _ _ _ Hes Hi) as (l & Hl & Hle).
    apply (Hpar l e); [apply list_elem_of_lookup; eauto|exact Hle]. }
  pose proof (Forall2_length _ _ _ Hes) as Hlen'.
  set (cs := (λ e, VDict (Preset.effect_config e)) <$> es).
  assert (Hcfg : Preset.effects_chain_config p
                 = [("name", VStr (EffectsChain.name chain)); ("effects", VList cs)]).
  { revert Hsave. unfold Preset.from_effects_chain. unfold mbind, M_bind, bind.
    rewrite (effects_config_spec _ _ _ Hes). unfold with_runtime, zoom.
    destruct (Preset.__init__ _ _ _ _ _ _ _) as [[p0|] r0] eqn:Hinit; [|discriminate].
    apply preset_init_constructed in Hinit as (_ & -> & _). now intros [= <- _]. }
  rewrite Hcfg. unfold EffectsManager.create_chain, EffectsManager.create_chain_try.
  cbn [dict_get dict_get_default String.eqb Ascii.eqb Bool.eqb py_iter
       EffectsChain.name_of_value].
  unfold mbind, M_bind, bind, lift, with_runtime, zoom.
  rewrite (chain_init_ok _ _ Hname). unfold EffectsChain.building.
  set (c0 := EffectsChain.Make _ _ _ _ _ _). set (h0 := Heap _ _ _).
  subst cs. rewrite create_effects_restore.
  destruct (restore_all ((λ e, VDict (Preset.effect_config e)) <$> es) c0 h0 [])
    as (c & h' & Hrun & Hres).
  { apply Forall_fmap, Forall_forall. intros e He. apply effect_config_ok.
    now apply (proj1 (Forall_forall _ _) Hok). }
  { intros l Hl. now apply elem_of_nil in Hl. }
  { cbn. rewrite length_fmap. lia. }
  { constructor. }
  pose proof (keeps_name_restore ((λ e, VDict (Preset.effect_config e)) <$> es) (c0, h0))
    as Hn. rewrite Hrun in Hn |- *.
  cbn [fst snd] in Hn.
  eexists _, _, c. split; [reflexivity|].
  cbn [EffectsManager.chain_objs EffectsManager._current_chain EffectsManager._chains
       EffectsManager.effects_heap].
  rewrite !lookup_insert_eq. do 3 (split; [reflexivity|]). split; [exact Hn|].
  cbn [app] in Hres. rewrite Forall2_fmap_r in Hres.
  apply Forall2_same_length_lookup. split.
  - rewrite (Forall2_length _ _ _ Hres). exact Hlen'.
  - intros i l l' Hl Hl'.
    destruct (Forall2_lookup_l _ _ _ _ _ Hes Hl) as (e & He & Hle).
    pose proof (Forall2_lookup_lr _ _ _ _ _ _ Hres Hl' He) as (_ & e' & He' & Hrest).
    exists e, e'. split; [exact Hle|]. split; [exact He'|].
    apply restores_own_config; [|exact Hrest].
    now apply (proj1 (Forall_forall _ _) Hok), list_elem_of_lookup_2 with i.
Qed.

Lemma create_chain_rebuilds_saved_chain_witness :
  ∃ l m' c,
    EffectsManager.create_chain
      (Preset.effects_chain_config
         (Preset.Make 3 "Crunch" None
            [ ("name", VStr "Lead");
              ("effects",
               VList [ VDict (Preset.effect_config
                                (AudioEffect.store_position (VInt 0) Sample.boost));
                       VDict (Preset.effect_config
                                (AudioEffect.store_position (VInt 1) Sample.distortion)) ]) ]
            4 5 ["rock"] None "1.0.0"))
      Sample.manager = (inr l, m') ∧
    EffectsManager.chain_objs m' !! l = Some c ∧
    EffectsManager._current_chain m' = Some l ∧
    EffectsManager._chains m' !! EffectsChain.id c = Some l ∧
    EffectsChain.name c = EffectsChain.name Sample.lead.1 ∧
    Forall2 (λ l0 l', ∃ e e', effect_objs Sample.lead.2 !! l0 = Some e ∧
                              effect_objs (EffectsManager.effects_heap m') !! l' = Some e' ∧
                              AudioEffect.type e' = AudioEffect.type e ∧
                              AudioEffect.parameters e' = AudioEffect.parameters e ∧
                              AudioEffect.bypassed e' = AudioEffect.bypassed e)
            (EffectsChain.effects Sample.lead.1) (EffectsChain.effects c).
Proof.
  apply (create_chain_rebuilds_saved_chain Sample.lead "Crunch" None (Some ["rock"]) None
           "1.0.0" _ (Heap (Runtime 4 6) (effect_objs Sample.lead.2) (next_loc Sample.lead.2))).
  - exact (proj1 lead_chain_ok).
  - intros l e Hl He. destruct (lead_effects_valid l Hl) as (_ & e' & He' & Hok).
    rewrite He in He'. now injection He' as <-.
  - vm_compute. lia.
  - vm_compute. lia.
  - reflexivity.
Defined.
End ManagerRebuild.
